(** * MCP math/text HTTP server: the computation layer

    A shallow embedding of the functions of [Module05/MCP/mcp-http-server.py]
    that carry the logic of the server:

    - [calculate_statistics], [solve_quadratic], [advanced_math_operations]
      (numeric operations),
    - [analyze_text], [transform_text], [extract_information] (text
      operations),
    - [math_operations], [text_operations] (the two POST endpoints, as
      functions from the request to the response or the HTTP error).

    Conventions of the embedding.

    - A Python [float] is an IEEE-754 binary64 value, represented by
      [spec_float] with precision 53 and maximal exponent 1024; the arithmetic
      operators are the correctly rounded operations of the standard library's
      [SpecFloat], wrapped with the exceptions CPython raises.
    - The request models declare [a], [b], [c] and [values] as floats, so the
      numeric functions take floats; the integer literals of the source are
      converted as Python converts them in mixed arithmetic.
    - A Python [str] is a [string]; a character of the embedding stands for the
      code point of the same number (U+0000 to U+00FF).  Character classes
      ([isspace], [isalnum], ...) and [lower] follow Python on that range;
      [upper] and title-casing are exact on ASCII, and a statement that
      depends on them says so with [ascii_text].
    - A [try: ... except Exception as e: raise HTTPException(400, ...)] block
      is a computation in the exception monad [py] closed by [except_400].
    - Functions of the Python library that the code calls are modelled from
      their CPython behaviour ([repr], [statistics.mean], [statistics.mode],
      [str.split], [str.title], [re.findall], ...).  Those whose result no
      property depends on are parameters: the C library's [pow],
      [statistics.median], [statistics.stdev], [statistics.variance], the
      builtin [sum], the functions of [math] behind the logarithm, the
      trigonometry and the power, [json.dumps], and the validation that
      pydantic runs when a [MathResponse] is built. *)

From Stdlib Require Import ZArith List String Ascii Bool Arith Lia Permutation.
From Stdlib Require Import Floats.SpecFloat.
Import ListNotations.

Open Scope string_scope.
Open Scope list_scope.

(* ================================================================== *)
(** * Exceptions and the error monad *)
(* ================================================================== *)

(** The exception classes that the modelled code can raise.  Each carries the
    text that [str(e)] returns. *)
Inductive exception : Type :=
| ZeroDivisionError (msg : string)
| OverflowError (msg : string)
| ValueError (msg : string)
| StatisticsError (msg : string).

Definition exn_str (e : exception) : string :=
  match e with
  | ZeroDivisionError m | OverflowError m | ValueError m | StatisticsError m => m
  end.

(** A computation that returns a value or raises. *)
Definition py (A : Type) : Type := (exception + A)%type.

Definition ret {A} (x : A) : py A := inr x.
Definition raise {A} (e : exception) : py A := inl e.
Definition bind {A B} (c : py A) (k : A -> py B) : py B :=
  match c with
  | inl e => inl e
  | inr x => k x
  end.

Declare Scope py_scope.
Delimit Scope py_scope with py.
Notation "x <- c ;; k" := (bind c (fun x => k))
  (at level 61, c at next level, right associativity) : py_scope.

(** [fastapi.HTTPException(status_code, detail)]. *)
Record HTTPException : Type := mkHTTPException {
  status_code : Z;
  detail : string
}.

(** The classification of the specification: status 400 is [invalid_input],
    anything else is [internal]. *)
Inductive error_kind : Type := invalid_input | internal.

Definition classify (e : HTTPException) : error_kind :=
  if Z.eqb (status_code e) 400 then invalid_input else internal.

(** [try: body  except Exception as e: raise HTTPException(400, f"{prefix}{e}")] *)
Definition except_400 {A} (prefix : string) (body : py A) : HTTPException + A :=
  match body with
  | inl e => inl (mkHTTPException 400 (prefix ++ exn_str e))
  | inr x => inr x
  end.

(* ================================================================== *)
(** * Python floats *)
(* ================================================================== *)

Module PyFloat.
Local Open Scope Z_scope.

Definition float : Type := spec_float.

Definition prec : Z := 53.
Definition emax : Z := 1024.

Definition fadd : float -> float -> float := SFadd prec emax.
Definition fsub : float -> float -> float := SFsub prec emax.
Definition fmul : float -> float -> float := SFmul prec emax.
Definition fneg : float -> float := SFopp.
Definition feqb : float -> float -> bool := SFeqb.
Definition fltb : float -> float -> bool := SFltb.
Definition fleb : float -> float -> bool := SFleb.

Definition is_nan (x : float) : bool :=
  match x with S754_nan => true | _ => false end.
Definition is_inf (x : float) : bool :=
  match x with S754_infinity _ => true | _ => false end.
Definition is_finite (x : float) : bool :=
  match x with S754_zero _ | S754_finite _ _ _ => true | _ => false end.
Definition is_zero (x : float) : bool :=
  match x with S754_zero _ => true | _ => false end.

(** A well-formed binary64 value. *)
Definition valid (x : float) : bool := valid_binary prec emax x.

Definition pzero : float := S754_zero false.
Definition nzero : float := S754_zero true.

(** ** Integers and fractions to floats *)

(** Unit in the last place of the smallest binade: every finite binary64 is an
    integer multiple of [2^-1074]. *)
Definition unit_exp : Z := 1074.

(** The number of units [2^-1074] in a finite float (0 for the others). *)
Definition units (x : float) : Z :=
  match x with
  | S754_finite s m e => cond_Zopp s (Zpos m * 2 ^ (e + unit_exp))
  | _ => 0
  end.

(** The largest finite float, in units. *)
Definition max_units : Z := (2 ^ 53 - 1) * 2 ^ (emax - prec + unit_exp).

(** [n / d] rounded to the nearest integer, ties to even ([0 <= n], [0 < d]). *)
Definition div_half_even (n d : Z) : Z :=
  let q := n / d in
  let r := n mod d in
  match 2 * r ?= d with
  | Lt => q
  | Gt => q + 1
  | Eq => if Z.even q then q else q + 1
  end.

(** For [0 < n] and [0 < d]: the exponent, counted in units, at which the
    quotient [n / d] (itself in units) has a 53-bit significand; 0 in the
    subnormal range. *)
Definition ulp_exp (n d : Z) : Z :=
  let k := Z.log2 n - Z.log2 d - 52 in
  if k <=? 0 then 0
  else if d * 2 ^ (k + 52) <=? n then k else k - 1.

(** The float of sign [s] and magnitude [m * 2^e] units. *)
Definition make_float (s : bool) (m e : Z) : float :=
  match m with
  | Zpos p => S754_finite s p (e - unit_exp)
  | _ => S754_zero s
  end.

(** The nearest binary64 (ties to even) to [num / den], for [0 < den]; what
    CPython computes for [int / int] and for [float(Fraction(num, den))].
    [inl] is the overflow of the result. *)
Definition round_ratio (num den : Z) : unit + float :=
  let s := num <? 0 in
  let n := Z.abs num * 2 ^ unit_exp in
  if n =? 0 then inr pzero
  else
    let e := ulp_exp n den in
    let m := div_half_even n (den * 2 ^ e) in
    let '(m, e) := if m =? 2 ^ 53 then (2 ^ 52, e + 1) else (m, e) in
    if emax - prec + unit_exp <? e then inl tt
    else inr (make_float s m e).

(** [a / b] on two ints. *)
Definition int_truediv (a b : Z) : py float :=
  if b =? 0 then raise (ZeroDivisionError "division by zero")
  else
    let '(a, b) := if b <? 0 then (- a, - b) else (a, b) in
    match round_ratio a b with
    | inl _ => raise (OverflowError "integer division result too large for a float")
    | inr x => ret x
    end.

(** [float(i)] for an int, as in mixed int/float arithmetic. *)
Definition float_of_int (i : Z) : py float :=
  match round_ratio i 1 with
  | inl _ => raise (OverflowError "int too large to convert to float")
  | inr x => ret x
  end.

(** The float of a small integer literal of the source. *)
Definition lit (i : Z) : float := binary_normalize prec emax i 0 false.

(** ** Operators that can raise *)

(** [x / y]: CPython raises when the divisor compares equal to zero. *)
Definition fdiv (x y : float) : py float :=
  if is_zero y then raise (ZeroDivisionError "float division by zero")
  else ret (SFdiv prec emax x y).

(** [math.sqrt(x)]: a NaN result from a non-NaN argument is a domain error. *)
Definition math_sqrt (x : float) : py float :=
  let r := SFsqrt prec emax x in
  if is_nan r && negb (is_nan x)
  then raise (ValueError "math domain error")
  else ret r.

(** ** [repr] of a float

    CPython prints the shortest decimal string that converts back to the same
    float (David Gay's algorithm, mode 0); among the shortest strings, the one
    nearest to the float.  The digits are found here by trying 1, 2, ... 17
    significant digits. *)

Definition digit_char (d : Z) : ascii := ascii_of_nat (48 + Z.to_nat d).

Fixpoint dec_digits (fuel : nat) (n : Z) (acc : string) : string :=
  match fuel with
  | O => acc
  | S f =>
      let acc' := String (digit_char (n mod 10)) acc in
      if n <? 10 then acc' else dec_digits f (n / 10) acc'
  end.

(** Decimal digits of [0 <= n]. *)
Definition str_of_nonneg (n : Z) : string :=
  dec_digits (S (Z.to_nat (Z.log2 n))) n EmptyString.

(** [10^k <= n / d] *)
Definition pow10_le (k n d : Z) : bool :=
  if 0 <=? k then d * 10 ^ k <=? n else d <=? n * 10 ^ (- k).

Fixpoint log10_up (fuel : nat) (k n d : Z) : Z :=
  match fuel with
  | O => k
  | S f => if pow10_le (k + 1) n d then log10_up f (k + 1) n d else k
  end.

(** [floor (log10 (n / d))] for [0 < n], [0 < d]. *)
Definition floor_log10 (n d : Z) : Z :=
  let l2 := Z.log2 n - Z.log2 d in
  log10_up 6 ((l2 - 1) * 30103 / 100000 - 1) n d.

Definition float_same (x y : float) : bool :=
  match x, y with
  | S754_finite s m e, S754_finite s' m' e' =>
      Bool.eqb s s' && Pos.eqb m m' && Z.eqb e e'
  | _, _ => false
  end.

(** Does the decimal [d * 10^p] convert back to [x]? *)
Definition reads_back (x : float) (d p : Z) : bool :=
  let r := if 0 <=? p then round_ratio (d * 10 ^ p) 1
           else round_ratio d (10 ^ (- p)) in
  match r with
  | inr y => float_same x y
  | inl _ => false
  end.

(** The candidate with [ndig] digits: [Some (d, p)] when [d * 10^p] reads back
    as the positive float [x] of exact value [n / d0]; [k] is
    [floor_log10 n d0]. *)
Definition candidate (x : float) (n d0 k ndig : Z) : option (Z * Z) :=
  let p := k - ndig + 1 in
  let '(sn, sd) := if 0 <=? p then (n, d0 * 10 ^ p) else (n * 10 ^ (- p), d0) in
  let lo := sn / sd in
  let r := sn mod sd in
  let hi := lo + 1 in
  match reads_back x lo p, reads_back x hi p with
  | true, true =>
      match 2 * r ?= sd with
      | Lt => Some (lo, p)
      | Gt => Some (hi, p)
      | Eq => Some (if Z.even lo then lo else hi, p)
      end
  | true, false => Some (lo, p)
  | false, true => Some (hi, p)
  | false, false => None
  end.

Fixpoint shortest (fuel : nat) (x : float) (n d0 k ndig : Z) : Z * Z :=
  match fuel with
  | O => (0, 0)
  | S f =>
      match candidate x n d0 k ndig with
      | Some c => c
      | None => shortest f x n d0 k (ndig + 1)
      end
  end.

Fixpoint strip_zeros_rev (s : list ascii) : list ascii :=
  match s with
  | c :: s' => if Ascii.eqb c "0" then strip_zeros_rev s' else s
  | [] => []
  end.

Definition strip_trailing_zeros (s : string) : string :=
  string_of_list_ascii
    (rev (strip_zeros_rev (rev (list_ascii_of_string s)))).

Fixpoint zeros (n : nat) : string :=
  match n with O => EmptyString | S k => String "0" (zeros k) end.

(** Digits and decimal point position: the value is [0.digits * 10^decpt]. *)
Definition shortest_digits (m : positive) (e : Z) : string * Z :=
  let '(n, d0) := if 0 <=? e then (Zpos m * 2 ^ e, 1) else (Zpos m, 2 ^ (- e)) in
  let k := floor_log10 n d0 in
  let '(d, p) := shortest 17 (S754_finite false m e) n d0 k 1 in
  let ds := str_of_nonneg d in
  (strip_trailing_zeros ds, p + Z.of_nat (String.length ds)).

Definition exp_suffix (x : Z) : string :=
  let sign := if x <? 0 then "e-" else "e+" in
  let pad := if Z.abs x <? 10 then "0" else "" in
  (sign ++ pad ++ str_of_nonneg (Z.abs x))%string.

Definition format_digits (ds : string) (decpt : Z) : string :=
  let len := String.length ds in
  let nd := Z.of_nat len in
  let point := Z.to_nat decpt in
  if (decpt <=? -4) || (16 <? decpt) then
    let frac := if 1 <? nd
                then ("." ++ String.substring 1 (len - 1) ds)%string
                else ""%string in
    (String.substring 0 1 ds ++ frac ++ exp_suffix (decpt - 1))%string
  else if decpt <=? 0 then
    ("0." ++ zeros (Z.to_nat (- decpt)) ++ ds)%string
  else if decpt <? nd then
    (String.substring 0 point ds ++ "."
     ++ String.substring point (len - point) ds)%string
  else
    (ds ++ zeros (Z.to_nat (decpt - nd)) ++ ".0")%string.

(** [repr(x)], which is also [str(x)] and the result of [f"{x}"]. *)
Definition float_repr (x : float) : string :=
  match x with
  | S754_nan => "nan"
  | S754_infinity false => "inf"
  | S754_infinity true => "-inf"
  | S754_zero false => "0.0"
  | S754_zero true => "-0.0"
  | S754_finite s m e =>
      let '(ds, decpt) := shortest_digits m e in
      let sign := if s then "-"%string else ""%string in
      (sign ++ format_digits ds decpt)%string
  end.

End PyFloat.

Import PyFloat.

(* ================================================================== *)
(** * Numeric operations *)
(* ================================================================== *)

(** An entry of the ["roots"] list: a float, or the display string of a
    complex root. *)
Inductive root : Type :=
| RootFloat (x : float)
| RootStr (s : string).

(** The dictionary returned by [solve_quadratic]. *)
Record quadratic_result : Type := mkQuadratic {
  discriminant : float;
  roots : list root;
  root_type : string
}.

Section Quadratic.

(** The C library's [pow] together with CPython's [errno] check after the call
    (range error becomes [OverflowError]).  It is reached only for a finite
    base other than 0 and 1; its rounding is the platform's. *)
Variable platform_pow : float -> float -> py float.

(** [v ** 2] for a float [v]: CPython's [float_pow] with exponent [2.0].  The
    special cases come before the library call: nan, infinities, zero, a
    negative base (replaced by its absolute value, the exponent being even)
    and the base 1. *)
Definition float_pow2 (v : float) : py float :=
  match v with
  | S754_nan => ret v
  | S754_infinity _ => ret (S754_infinity false)
  | S754_zero _ => ret pzero
  | S754_finite _ m e =>
      let iv := S754_finite false m e in
      if feqb iv (lit 1) then ret (lit 1) else platform_pow iv (lit 2)
  end.

Local Open Scope py_scope.

(** [solve_quadratic(a, b, c)], lines 162-197. *)
Definition solve_quadratic (a b c : float) : HTTPException + quadratic_result :=
  except_400 "Error solving quadratic: " (
    b2 <- float_pow2 b ;;
    let discriminant := fsub b2 (fmul (fmul (lit 4) a) c) in
    if fltb (lit 0) discriminant then
      s1 <- math_sqrt discriminant ;;
      x1 <- fdiv (fadd (fneg b) s1) (fmul (lit 2) a) ;;
      s2 <- math_sqrt discriminant ;;
      x2 <- fdiv (fsub (fneg b) s2) (fmul (lit 2) a) ;;
      ret (mkQuadratic discriminant [RootFloat x1; RootFloat x2] "real_distinct")
    else if feqb discriminant (lit 0) then
      x <- fdiv (fneg b) (fmul (lit 2) a) ;;
      ret (mkQuadratic discriminant [RootFloat x] "real_repeated")
    else
      real_part <- fdiv (fneg b) (fmul (lit 2) a) ;;
      s <- math_sqrt (fneg discriminant) ;;
      imaginary_part <- fdiv s (fmul (lit 2) a) ;;
      ret (mkQuadratic discriminant
             [RootStr (float_repr real_part ++ " + "
                       ++ float_repr imaginary_part ++ "i")%string;
              RootStr (float_repr real_part ++ " - "
                       ++ float_repr imaginary_part ++ "i")%string]
             "complex")).

End Quadratic.

(** ** Statistics *)

(** The dictionary returned by [calculate_statistics]; ["mode"] is [None] or
    a float. *)
Record statistics_result : Type := mkStatistics {
  st_count : Z;
  st_mean : float;
  st_median : float;
  st_mode : option float;
  st_std_dev : float;
  st_variance : float;
  st_min : float;
  st_max : float;
  st_range : float;
  st_sum : float
}.

(** [set(values)]: the elements in order of first insertion; an element is
    dropped when an element already present compares equal to it. *)
Definition set_add (s : list float) (x : float) : list float :=
  if existsb (fun k => feqb k x) s then s else s ++ [x].

Definition py_set (values : list float) : list float :=
  fold_left set_add values [].

(** [collections.Counter(values)]: keys in order of first insertion. *)
Fixpoint counter_add (x : float) (c : list (float * nat)) : list (float * nat) :=
  match c with
  | [] => [(x, 1%nat)]
  | (k, n) :: c' =>
      if feqb k x then (k, S n) :: c' else (k, n) :: counter_add x c'
  end.

Definition Counter (values : list float) : list (float * nat) :=
  fold_left (fun c x => counter_add x c) values [].

(** [max(items, key=itemgetter(1))]: the first item with the largest count. *)
Fixpoint most_common (best : float * nat) (c : list (float * nat)) : float * nat :=
  match c with
  | [] => best
  | kn :: c' => most_common (if Nat.ltb (snd best) (snd kn) then kn else best) c'
  end.

(** [statistics.mode(data)] (Python 3.8 and later). *)
Definition statistics_mode (data : list float) : py float :=
  match Counter data with
  | [] => raise (StatisticsError "no mode for empty data")
  | kn :: c => ret (fst (most_common kn c))
  end.

(** The exact sum of finite floats, in units of [2^-1074]. *)
Definition sum_units (data : list float) : Z :=
  fold_left (fun acc x => (acc + units x)%Z) data 0%Z.

(** [statistics.mean(data)].  The sum is exact (a [Fraction]); the mean is
    converted to a float once, at the end.  When the data holds an infinity or
    a nan, the total is the float sum of those elements. *)
Definition statistics_mean (data : list float) : py float :=
  match data with
  | [] => raise (StatisticsError "mean requires at least one data point")
  | _ =>
      let n := Z.of_nat (List.length data) in
      if forallb is_finite data then
        match round_ratio (sum_units data) (n * 2 ^ unit_exp) with
        | inr x => ret x
        | inl _ => raise (OverflowError "integer division result too large for a float")
        end
      else
        let total :=
          fold_left fadd (filter (fun x => negb (is_finite x)) data) (lit 0) in
        bind (float_of_int n) (fun nf => fdiv total nf)
  end.

(** [min(values)] and [max(values)]: the first smallest (largest) element. *)
Definition py_min (values : list float) : py float :=
  match values with
  | [] => raise (ValueError "min() arg is an empty sequence")
  | x :: l => ret (fold_left (fun cur item => if fltb item cur then item else cur) l x)
  end.

Definition py_max (values : list float) : py float :=
  match values with
  | [] => raise (ValueError "max() arg is an empty sequence")
  | x :: l => ret (fold_left (fun cur item => if fltb cur item then item else cur) l x)
  end.

(** Some element compares equal to a later element: a value "occurs more
    than once". *)
Fixpoint has_repeat (values : list float) : bool :=
  match values with
  | [] => false
  | x :: l => existsb (fun y => feqb x y) l || has_repeat l
  end.

(** Well-formed finite floats: the numbers of the specification. *)
Definition number_ok (x : float) : Prop := valid x = true /\ is_finite x = true.

Section Statistics.

(** Library functions whose value no property below depends on:
    [statistics.median], [statistics.stdev], [statistics.variance] (each may
    raise) and the builtin [sum] on floats. *)
Variable statistics_median : list float -> py float.
Variable statistics_stdev : list float -> py float.
Variable statistics_variance : list float -> py float.
Variable builtin_sum : list float -> float.

Local Open Scope py_scope.

(** [calculate_statistics(values)], lines 117-136.  The entries of the
    dictionary are evaluated in the order they are written. *)
Definition calculate_statistics (values : list float)
  : HTTPException + statistics_result :=
  except_400 "Error calculating statistics: " (
    let count := Z.of_nat (List.length values) in
    mean <- statistics_mean values ;;
    median <- statistics_median values ;;
    mode <- (if Nat.ltb (List.length (py_set values)) (List.length values)
             then m <- statistics_mode values ;; ret (Some m)
             else ret None) ;;
    std_dev <- (if Nat.ltb 1 (List.length values)
                then statistics_stdev values else ret (lit 0)) ;;
    variance <- (if Nat.ltb 1 (List.length values)
                 then statistics_variance values else ret (lit 0)) ;;
    min <- py_min values ;;
    max <- py_max values ;;
    max' <- py_max values ;;
    min' <- py_min values ;;
    ret (mkStatistics count mean median mode std_dev variance
           min max (fsub max' min') (builtin_sum values))).

End Statistics.

(* ================================================================== *)
(** * Python strings *)
(* ================================================================== *)

Module PyStr.

Definition code (c : ascii) : nat := nat_of_ascii c.

Definition between (lo hi : nat) (c : ascii) : bool :=
  Nat.leb lo (code c) && Nat.leb (code c) hi.

(** ** Character classes, on code points 0 to 255 *)

Definition isspace (c : ascii) : bool :=
  between 9 13 c || between 28 32 c || between 133 133 c || between 160 160 c.

Definition isupper (c : ascii) : bool :=
  between 65 90 c || between 192 214 c || between 216 222 c.

Definition islower (c : ascii) : bool :=
  between 97 122 c || between 170 170 c || between 181 181 c
  || between 186 186 c || between 223 246 c || between 248 255 c.

Definition isdigit (c : ascii) : bool :=
  between 48 57 c || between 178 179 c || between 185 185 c.

(** Letters and numeric characters. *)
Definition isalnum (c : ascii) : bool :=
  between 48 57 c || between 65 90 c || between 97 122 c
  || between 170 170 c || between 178 179 c || between 181 181 c
  || between 185 186 c || between 188 190 c || between 192 214 c
  || between 216 246 c || between 248 255 c.

(** A character with case: what [str.title] looks at. *)
Definition iscased (c : ascii) : bool := isupper c || islower c.

Definition is_ascii (c : ascii) : bool := Nat.ltb (code c) 128.

(** Text of ASCII characters only. *)
Fixpoint ascii_text (s : string) : bool :=
  match s with
  | EmptyString => true
  | String c s' => is_ascii c && ascii_text s'
  end.

(** ** Case mappings *)

(** [c.lower()]: exact on code points 0 to 255. *)
Definition lower (c : ascii) : ascii :=
  if isupper c then ascii_of_nat (code c + 32) else c.

(** [c.upper()]: exact on ASCII.  (Three code points of the upper half have an
    uppercase form outside the range, or of two letters.) *)
Definition upper (c : ascii) : ascii :=
  if between 97 122 c || between 224 246 c || between 248 254 c
  then ascii_of_nat (code c - 32) else c.

Fixpoint str_map (f : ascii -> ascii) (s : string) : string :=
  match s with
  | EmptyString => EmptyString
  | String c s' => String (f c) (str_map f s')
  end.

Definition str_upper : string -> string := str_map upper.
Definition str_lower : string -> string := str_map lower.

(** [s.title()]: CPython's [do_title].  A character is title-cased when the
    character before it has no case, lower-cased otherwise. *)
Fixpoint do_title (previous_is_cased : bool) (s : string) : string :=
  match s with
  | EmptyString => EmptyString
  | String c s' =>
      String (if previous_is_cased then lower c else upper c)
             (do_title (iscased c) s')
  end.

Definition str_title (s : string) : string := do_title false s.

(** [s[::-1]] *)
Definition str_reverse (s : string) : string :=
  string_of_list_ascii (rev (list_ascii_of_string s)).

(** ** Splitting, joining, stripping *)

(** [s.split()]: maximal runs of non-space characters.  [cur] holds the
    characters of the current run, last one first. *)
Fixpoint split_runs (cur : list ascii) (s : string) : list string :=
  match s with
  | EmptyString =>
      match cur with
      | [] => []
      | _ => [string_of_list_ascii (rev cur)]
      end
  | String c s' =>
      if isspace c then
        match cur with
        | [] => split_runs [] s'
        | _ => string_of_list_ascii (rev cur) :: split_runs [] s'
        end
      else split_runs (c :: cur) s'
  end.

Definition str_split (s : string) : list string := split_runs [] s.

(** [s.split(sep)] for a non-empty separator: cut at each occurrence of [sep],
    left to right, without overlap.  [skip] counts the characters of an
    occurrence still to be passed over. *)
Fixpoint split_at (sep : string) (skip : nat) (cur : list ascii) (s : string)
  : list string :=
  match s with
  | EmptyString => [string_of_list_ascii (rev cur)]
  | String c s' =>
      match skip with
      | S k => split_at sep k cur s'
      | O =>
          if String.prefix sep s
          then string_of_list_ascii (rev cur)
               :: split_at sep (String.length sep - 1) [] s'
          else split_at sep 0 (c :: cur) s'
      end
  end.

Definition str_split_sep (s sep : string) : list string := split_at sep 0 [] s.

(** [sep.join(items)] *)
Fixpoint str_join (sep : string) (items : list string) : string :=
  match items with
  | [] => EmptyString
  | [x] => x
  | x :: rest => (x ++ sep ++ str_join sep rest)%string
  end.

Fixpoint lstrip (p : ascii -> bool) (s : string) : string :=
  match s with
  | EmptyString => EmptyString
  | String c s' => if p c then lstrip p s' else s
  end.

Definition rstrip (p : ascii -> bool) (s : string) : string :=
  str_reverse (lstrip p (str_reverse s)).

Fixpoint mem_char (c : ascii) (chars : string) : bool :=
  match chars with
  | EmptyString => false
  | String d chars' => Ascii.eqb c d || mem_char c chars'
  end.

(** [s.strip()] and [s.strip(chars)] *)
Definition str_strip (s : string) : string := rstrip isspace (lstrip isspace s).
Definition str_strip_chars (s chars : string) : string :=
  rstrip (fun c => mem_char c chars) (lstrip (fun c => mem_char c chars) s).

(** [s.replace(old, "")] for a one-character [old]. *)
Fixpoint str_remove (old : ascii) (s : string) : string :=
  match s with
  | EmptyString => EmptyString
  | String c s' => if Ascii.eqb c old then str_remove old s' else String c (str_remove old s')
  end.

(** [sum(1 for c in s if p(c))] *)
Fixpoint count_chars (p : ascii -> bool) (s : string) : Z :=
  match s with
  | EmptyString => 0%Z
  | String c s' => ((if p c then 1 else 0) + count_chars p s')%Z
  end.

(** [s[-1]] of a non-empty string, and [s[:-1]]. *)
Fixpoint last_char (s : string) : option ascii :=
  match s with
  | EmptyString => None
  | String c EmptyString => Some c
  | String _ s' => last_char s'
  end.

Fixpoint drop_last (s : string) : string :=
  match s with
  | EmptyString => EmptyString
  | String c EmptyString => EmptyString
  | String c s' => String c (drop_last s')
  end.

(** [s[:i]] and [s[i:]] for [0 <= i]. *)
Fixpoint take (i : nat) (s : string) : string :=
  match i, s with
  | S k, String c s' => String c (take k s')
  | _, _ => EmptyString
  end.

Fixpoint drop (i : nat) (s : string) : string :=
  match i, s with
  | S k, String _ s' => drop k s'
  | _, _ => s
  end.

(** [max(words, key=len)], [min(words, key=len)]: the first longest
    (shortest) word. *)
Definition longest (w : string) (words : list string) : string :=
  fold_left (fun cur x => if Nat.ltb (String.length cur) (String.length x) then x else cur)
            words w.

Definition shortest_of (w : string) (words : list string) : string :=
  fold_left (fun cur x => if Nat.ltb (String.length x) (String.length cur) then x else cur)
            words w.

End PyStr.

(* ================================================================== *)
(** * Regular expressions: [re.findall] *)
(* ================================================================== *)

Module Re.
Import PyStr.

(** The constructs used by the five patterns of [extract_information]. *)
Inductive regex : Type :=
| Epsilon
| Char (p : ascii -> bool)                       (* literal, class, \d, \s *)
| WordBoundary                                   (* \b *)
| Seq (r1 r2 : regex)
| Alt (r1 r2 : regex)                            (* r1|r2, r1 tried first *)
| Repeat (lo : nat) (hi : option nat) (r : regex) (* greedy r{lo,hi} *)
| Group (i : nat) (r : regex).                   (* capturing group i *)

(** A matcher state: the position in the text and the spans captured so far
    (most recent first). *)
Record state : Type := mkState {
  pos : nat;
  spans : list (nat * (nat * nat))
}.

Definition word_char (c : ascii) : bool := isalnum c || Ascii.eqb c "_".

Definition word_at (text : list ascii) (i : nat) : bool :=
  match nth_error text i with
  | Some c => word_char c
  | None => false
  end.

(** [\b] holds at [i] when exactly one of the characters before and after the
    position is a word character. *)
Definition boundary_at (text : list ascii) (i : nat) : bool :=
  xorb (match i with O => false | S j => word_at text j end) (word_at text i).

(** The greedy loop: as many iterations as possible first.  Every iteration of
    the patterns below consumes a character, and an iteration that consumes
    nothing is not repeated; [fuel] bounds the number of iterations by the
    length of the text. *)
Fixpoint iterate (step : state -> list state) (fuel lo : nat) (hi : option nat)
         (st : state) : list state :=
  let stop := if Nat.eqb lo 0 then [st] else [] in
  match fuel with
  | O => stop
  | S f =>
      let more :=
        match hi with
        | Some O => []
        | _ =>
            flat_map
              (fun st' =>
                 if Nat.ltb (pos st) (pos st')
                 then iterate step f (Nat.pred lo) (option_map Nat.pred hi) st'
                 else [])
              (step st)
        end in
      more ++ stop
  end.

(** All the ways [r] matches at [st], in the order a backtracking matcher
    finds them; the head of the list is the match Python reports. *)
Fixpoint run (text : list ascii) (r : regex) (st : state) : list state :=
  match r with
  | Epsilon => [st]
  | Char p =>
      match nth_error text (pos st) with
      | Some c => if p c then [mkState (S (pos st)) (spans st)] else []
      | None => []
      end
  | WordBoundary => if boundary_at text (pos st) then [st] else []
  | Seq r1 r2 => flat_map (run text r2) (run text r1 st)
  | Alt r1 r2 => run text r1 st ++ run text r2 st
  | Repeat lo hi r1 => iterate (run text r1) (S (List.length text)) lo hi st
  | Group i r1 =>
      map (fun st' => mkState (pos st') ((i, (pos st, pos st')) :: spans st'))
          (run text r1 st)
  end.

(** [text[a:b]] *)
Definition slice (text : list ascii) (a b : nat) : string :=
  string_of_list_ascii (firstn (b - a) (skipn a text)).

(** The text of group [i]; empty when the group took no part in the match. *)
Fixpoint group (text : list ascii) (i : nat) (sp : list (nat * (nat * nat)))
  : string :=
  match sp with
  | [] => EmptyString
  | (j, (a, b)) :: sp' => if Nat.eqb i j then slice text a b else group text i sp'
  end.

(** One match: its span and its captures. *)
Record rmatch : Type := mkMatch {
  m_start : nat;
  m_end : nat;
  m_spans : list (nat * (nat * nat))
}.

(** The scan of [findall]: leftmost match from [p], then on from its end (one
    character further after an empty match). *)
Fixpoint scan (text : list ascii) (r : regex) (fuel p : nat) : list rmatch :=
  match fuel with
  | O => []
  | S f =>
      if Nat.ltb (List.length text) p then []
      else
        match run text r (mkState p []) with
        | st :: _ =>
            mkMatch p (pos st) (spans st)
            :: scan text r f (if Nat.ltb p (pos st) then pos st else S p)
        | [] => scan text r f (S p)
        end
  end.

Definition finditer (r : regex) (s : string) : list rmatch :=
  let text := list_ascii_of_string s in
  scan text r (S (List.length text)) 0.

(** [re.findall] for a pattern without groups: the matched substrings. *)
Definition findall_strings (r : regex) (s : string) : list string :=
  let text := list_ascii_of_string s in
  map (fun m => slice text (m_start m) (m_end m)) (finditer r s).

(** [re.findall] for a pattern with groups 1 to [n]: the tuples of groups. *)
Definition findall_groups (n : nat) (r : regex) (s : string) : list (list string) :=
  let text := list_ascii_of_string s in
  map (fun m => map (fun i => group text i (m_spans m)) (seq 1 n)) (finditer r s).

(** ** Pattern notation *)

Definition chr (c : ascii) : regex := Char (Ascii.eqb c).
Definition one_of (chars : string) : ascii -> bool := fun c => mem_char c chars.
Definition range (a b : ascii) : ascii -> bool := between (code a) (code b).
Definition orp (p q : ascii -> bool) : ascii -> bool := fun c => p c || q c.
Definition opt (r : regex) : regex := Repeat 0 (Some 1) r.
Definition plus (r : regex) : regex := Repeat 1 None r.
Definition times (n : nat) (r : regex) : regex := Repeat n (Some n) r.
Definition at_least (n : nat) (r : regex) : regex := Repeat n None r.
Definition from_to (n m : nat) (r : regex) : regex := Repeat n (Some m) r.

Fixpoint seqs (rs : list regex) : regex :=
  match rs with
  | [] => Epsilon
  | [r] => r
  | r :: rs' => Seq r (seqs rs')
  end.

Fixpoint str (s : string) : regex :=
  match s with
  | EmptyString => Epsilon
  | String c EmptyString => chr c
  | String c s' => Seq (chr c) (str s')
  end.

Definition digit : ascii -> bool := range "0" "9".      (* [0-9] and \d *)
Definition letter : ascii -> bool := orp (range "a" "z") (range "A" "Z").
Definition hex : ascii -> bool := orp digit (orp (range "a" "f") (range "A" "F")).

End Re.

Import PyStr Re.

(* ================================================================== *)
(** * Text operations *)
(* ================================================================== *)

(** A Python number that is an [int] or a [float]. *)
Inductive number : Type :=
| Int (i : Z)
| Float (x : float).

(** [round(x, ndigits)] on a float, [0 <= ndigits]: the decimal with [ndigits]
    places nearest to the exact value (ties to even), read back as a float. *)
Definition float_round (x : float) (ndigits : Z) : py float :=
  match x with
  | S754_finite s m e =>
      let '(n, d) := if (0 <=? e)%Z then (Zpos m * 2 ^ e, 1)%Z
                     else (Zpos m, 2 ^ (- e))%Z in
      let q := div_half_even (n * 10 ^ ndigits) d in
      if (q =? 0)%Z then ret (S754_zero s)
      else match round_ratio (cond_Zopp s q) (10 ^ ndigits) with
           | inr y => ret y
           | inl _ => raise (OverflowError "rounded value too large to represent")
           end
  | _ => ret x
  end.

(** [round(v, 2)]: an int is returned as it is. *)
Definition round2 (v : number) : py number :=
  match v with
  | Int i => ret (Int i)
  | Float x => bind (float_round x 2) (fun y => ret (Float y))
  end.

(** The ["character_analysis"] dictionary. *)
Record char_counts : Type := mkCharCounts {
  total_chars : Z;
  chars_no_spaces : Z;
  uppercase : Z;
  lowercase : Z;
  digits : Z;
  special_chars : Z
}.

(** The dictionary returned by [analyze_text]. *)
Record text_analysis : Type := mkAnalysis {
  word_count : Z;
  sentence_count : Z;
  paragraph_count : Z;
  avg_word_length : number;
  avg_sentence_length : number;
  character_analysis : char_counts;
  longest_word : string;
  shortest_word : string
}.

Definition len (s : string) : Z := Z.of_nat (String.length s).
Definition llen {A} (l : list A) : Z := Z.of_nat (List.length l).

Definition newline : ascii := ascii_of_nat 10.
Definition double_quote : ascii := ascii_of_nat 34.

(** The argument of [word.strip] on line 303: the characters [.,!?;:], the
    double quote and the brackets [()[]{}]. *)
Definition stripped_punctuation : string :=
  (".,!?;:" ++ String double_quote "()[]{}")%string.

Local Open Scope py_scope.

(** [analyze_text(text)], lines 285-320. *)
Definition analyze_text (text : string) : HTTPException + text_analysis :=
  except_400 "Error analyzing text: " (
    let words := str_split text in
    let sentences := str_split_sep text "." in
    let sentences :=
      map str_strip
          (filter (fun s => negb (String.eqb (str_strip s) "")) sentences) in
    let char_counts :=
      mkCharCounts
        (len text)
        (len (str_remove " " text))
        (count_chars isupper text)
        (count_chars islower text)
        (count_chars isdigit text)
        (count_chars (fun c => negb (isalnum c) && negb (isspace c)) text) in
    let word_lengths :=
      map (fun word => len (str_strip_chars word stripped_punctuation)) words in
    avg_word_length <-
      (match word_lengths with
       | [] => ret (Int 0)
       | _ => x <- int_truediv (fold_left Z.add word_lengths 0%Z) (llen word_lengths) ;;
              ret (Float x)
       end) ;;
    rounded_word_length <- round2 avg_word_length ;;
    avg_sentence_length <-
      (match sentences with
       | [] => ret (Int 0)
       | _ => x <- int_truediv (llen words) (llen sentences) ;;
              round2 (Float x)
       end) ;;
    ret (mkAnalysis
           (llen words)
           (llen sentences)
           (llen (str_split_sep text (String newline (String newline ""))))
           rounded_word_length
           avg_sentence_length
           char_counts
           (match words with [] => "" | w :: ws => longest w ws end)
           (match words with [] => "" | w :: ws => shortest_of w ws end))).

(** ** Transformations *)

(** The index of the first vowel of the lower-cased word, as the [for ... else]
    loop of lines 376-383 finds it: [None] when the loop ends without
    [break]. *)
Fixpoint first_vowel_from (i : nat) (lowered : string) : option nat :=
  match lowered with
  | EmptyString => None
  | String char rest =>
      if mem_char char "aeiou" then Some i else first_vowel_from (S i) rest
  end.

(** The body of the loop over the words, lines 361-392: the entry appended to
    [pig_latin_words] for [word]. *)
Definition pig_latin_entry (word : string) : string :=
  let '(punctuation, clean_word) :=
    match last_char word with
    | Some c => if mem_char c ".,!?;:"
                then (String c "", drop_last word)
                else ("", word)
    | None => ("", word)
    end in
  match clean_word with
  | String c0 _ =>
      let pig_word :=
        if mem_char (lower c0) "aeiou" then (clean_word ++ "way")%string
        else
          let first_vowel :=
            match first_vowel_from 0 (str_lower clean_word) with
            | Some i => i
            | None => String.length clean_word
            end in
          (drop first_vowel clean_word ++ take first_vowel clean_word ++ "ay")%string in
      (pig_word ++ punctuation)%string
  | EmptyString => word
  end.

(** [transform_text(text, transformation)], lines 342-401. *)
Definition transform_text (text transformation : string) : HTTPException + string :=
  except_400 "Error transforming text: " (
    if String.eqb transformation "upper" then ret (str_upper text)
    else if String.eqb transformation "lower" then ret (str_lower text)
    else if String.eqb transformation "title" then ret (str_title text)
    else if String.eqb transformation "reverse" then ret (str_reverse text)
    else if String.eqb transformation "pig_latin" then
      let words := str_split text in
      let pig_latin_words :=
        fold_left (fun acc word => acc ++ [pig_latin_entry word]) words [] in
      ret (str_join " " pig_latin_words)
    else raise (ValueError ("Unknown transformation: " ++ transformation))).

(** ** Extraction *)

Definition any_of (ps : list (ascii -> bool)) : regex :=
  Char (fun c => existsb (fun p => p c) ps).

(** [\b[A-Za-z0-9._%+-]+@[A-Za-z0-9.-]+\.[A-Z|a-z]{2,}\b] *)
Definition emails_pattern : regex :=
  seqs [WordBoundary;
        plus (any_of [letter; digit; one_of "._%+-"]);
        chr "@";
        plus (any_of [letter; digit; one_of ".-"]);
        chr ".";
        at_least 2 (any_of [range "A" "Z"; one_of "|"; range "a" "z"]);
        WordBoundary].

(** [http[s]?://(?:[a-zA-Z]|[0-9]|[$-_@.&+]|[!*\\(\\),]|(?:%[0-9a-fA-F][0-9a-fA-F]))+] *)
Definition urls_pattern : regex :=
  seqs [str "http"; opt (chr "s"); str "://";
        plus (Alt (Char letter)
             (Alt (Char digit)
             (Alt (any_of [range "$" "_"; one_of "@.&+"])
             (Alt (Char (one_of "!*\(\),"))
                  (seqs [chr "%"; Char hex; Char hex])))))].

(** [[-.\s]] *)
Definition separator : regex := any_of [one_of "-."; isspace].

(** [\b(?:\+?1[-.\s]?)?\(?([0-9]{3})\)?[-.\s]?([0-9]{3})[-.\s]?([0-9]{4})\b] *)
Definition phone_numbers_pattern : regex :=
  seqs [WordBoundary;
        opt (seqs [opt (chr "+"); chr "1"; opt separator]);
        opt (chr "(");
        Group 1 (times 3 (Char digit));
        opt (chr ")");
        opt separator;
        Group 2 (times 3 (Char digit));
        opt separator;
        Group 3 (times 4 (Char digit));
        WordBoundary].

(** [\b(?:\d{1,2}[/-]\d{1,2}[/-]\d{2,4}|\d{4}[/-]\d{1,2}[/-]\d{1,2})\b] *)
Definition dates_pattern : regex :=
  let d := Char digit in
  let sl := Char (one_of "/-") in
  seqs [WordBoundary;
        Alt (seqs [from_to 1 2 d; sl; from_to 1 2 d; sl; from_to 2 4 d])
            (seqs [times 4 d; sl; from_to 1 2 d; sl; from_to 1 2 d]);
        WordBoundary].

(** [\b\d+(?:\.\d+)?\b] *)
Definition numbers_pattern : regex :=
  seqs [WordBoundary; plus (Char digit);
        opt (seqs [chr "."; plus (Char digit)]);
        WordBoundary].

(** The [patterns] dictionary, in the order of its keys. *)
Definition patterns : list (string * regex) :=
  [("emails", emails_pattern);
   ("urls", urls_pattern);
   ("phone_numbers", phone_numbers_pattern);
   ("dates", dates_pattern);
   ("numbers", numbers_pattern)].

Fixpoint lookup (key : string) (d : list (string * regex)) : option regex :=
  match d with
  | [] => None
  | (k, v) :: d' => if String.eqb key k then Some v else lookup key d'
  end.

(** The f-string of line 453 on a tuple of three groups. *)
Definition format_phone (m : list string) : string :=
  ("(" ++ nth 0 m "" ++ ") " ++ nth 1 m "" ++ "-" ++ nth 2 m "")%string.

(** [extract_information(text, extraction_type)], lines 423-460.  [re.findall]
    returns tuples of groups for the phone pattern (three groups) and matched
    substrings for the others (no group). *)
Definition extract_information (text extraction_type : string)
  : HTTPException + list string :=
  except_400 "Error extracting information: " (
    match lookup extraction_type patterns with
    | None =>
        let available_types := str_join ", " (map fst patterns) in
        raise (ValueError ("Unknown extraction type '" ++ extraction_type
                           ++ "'. Available: " ++ available_types))
    | Some pattern =>
        if String.eqb extraction_type "phone_numbers" then
          ret (map format_phone (findall_groups 3 pattern text))
        else
          ret (findall_strings pattern text)
    end).

(* ================================================================== *)
(** * The other numeric operations and the two endpoints *)
(* ================================================================== *)

(** ** Advanced operations *)

(** [int(x)] for a float: truncation toward zero. *)
Definition int_of_float (x : float) : py Z :=
  match x with
  | S754_nan => raise (ValueError "cannot convert float NaN to integer")
  | S754_infinity _ =>
      raise (OverflowError "cannot convert float infinity to integer")
  | S754_zero _ => ret 0%Z
  | S754_finite s m e =>
      ret (cond_Zopp s (if (0 <=? e)%Z then Zpos m * 2 ^ e
                        else Zpos m / 2 ^ (- e))%Z)
  end.

(** [x == i] for a float and an int: Python compares the exact values. *)
Definition float_eq_int (x : float) (i : Z) : bool :=
  match x with
  | S754_zero _ => (i =? 0)%Z
  | S754_finite s m e =>
      if (0 <=? e)%Z then (cond_Zopp s (Zpos m * 2 ^ e) =? i)%Z
      else (cond_Zopp s (Zpos m) =? i * 2 ^ (- e))%Z
  | _ => false
  end.

(** [math.degrees(x)]: the product with the constant [180.0 / pi]. *)
Definition float_pi : float := S754_finite false 7074237752028440 (-51).
Definition rad_to_deg : float := SFdiv prec emax (lit 180) float_pi.
Definition math_degrees (x : float) : float := fmul x rad_to_deg.

(** The product [1 * 2 * ... * n], on integers. *)
Fixpoint int_factorial (n : nat) : Z :=
  match n with
  | O => 1%Z
  | S k => (Z.of_nat n * int_factorial k)%Z
  end.

(** What [advanced_math_operations] returns: an int (factorial), a float
    (logarithm, power) or the dictionary of the trigonometry. *)
Inductive advanced_result : Type :=
| AdvInt (i : Z)
| AdvFloat (x : float)
| AdvTrig (sin cos tan angle_radians angle_degrees : float).

Section Advanced.

(** Functions of the [math] module whose values are the platform's:
    [math.log] with one and with two arguments, [math.sin], [math.cos],
    [math.tan], [math.pow]; each may raise.  [long_max] is the largest C
    [long], the bound of [math.factorial]. *)
Variable math_log : float -> py float.
Variable math_log_base : float -> float -> py float.
Variable math_sin : float -> py float.
Variable math_cos : float -> py float.
Variable math_tan : float -> py float.
Variable math_pow : float -> float -> py float.
Variable long_max : Z.

(** [math.factorial(n)] on an int. *)
Definition math_factorial (n : Z) : py Z :=
  if (long_max <? n)%Z then
    raise (OverflowError ("factorial() argument should not exceed "
                          ++ str_of_nonneg long_max))
  else if (n <? 0)%Z then
    raise (ValueError "factorial() not defined for negative values")
  else ret (int_factorial (Z.to_nat n)).

(** [advanced_math_operations(operation, values)], lines 219-262. *)
Definition advanced_math_operations (operation : string) (values : list float)
  : HTTPException + advanced_result :=
  except_400 "Error in math operation: " (
    if String.eqb operation "factorial" then
      let refuse :=
        raise (ValueError "Factorial requires a single non-negative integer") in
      match values with
      | [v] =>
          if fltb v (lit 0) then refuse
          else
            i <- int_of_float v ;;
            if negb (float_eq_int v i) then refuse
            else
              n <- int_of_float v ;;
              f <- math_factorial n ;;
              ret (AdvInt f)
      | _ => refuse
      end
    else if String.eqb operation "logarithm" then
      match values with
      | [v] => x <- math_log v ;; ret (AdvFloat x)
      | [v; base] => x <- math_log_base v base ;; ret (AdvFloat x)
      | _ => raise (ValueError "Logarithm requires 1 or 2 values")
      end
    else if String.eqb operation "trigonometry" then
      match values with
      | [angle] =>
          s <- math_sin angle ;;
          c <- math_cos angle ;;
          t <- math_tan angle ;;
          ret (AdvTrig s c t angle (math_degrees angle))
      | _ => raise (ValueError "Trigonometry requires 1 value (angle in radians)")
      end
    else if String.eqb operation "power" then
      match values with
      | [base; exponent] => x <- math_pow base exponent ;; ret (AdvFloat x)
      | _ => raise (ValueError "Power operation requires base and exponent")
      end
    else raise (ValueError ("Unknown operation: " ++ operation))).

End Advanced.

(** ** The endpoints *)

(** The pydantic request and response models. *)
Record MathRequest : Type := mkMathRequest {
  mreq_operation : string;
  mreq_values : list float;
  mreq_a : option float;
  mreq_b : option float;
  mreq_c : option float
}.

Record TextRequest : Type := mkTextRequest {
  treq_text : string;
  treq_operation : string;
  treq_extraction_type : option string
}.

Inductive math_result : Type :=
| ResStatistics (r : statistics_result)
| ResQuadratic (r : quadratic_result)
| ResAdvanced (r : advanced_result).

Record MathResponse : Type := mkMathResponse {
  mres_result : math_result;
  mres_operation : string;
  mres_success : bool;
  mres_message : option string
}.

Record TextResponse : Type := mkTextResponse {
  tres_result : string;
  tres_operation : string;
  tres_success : bool;
  tres_message : option string
}.

(** What a statement inside the [try] of an endpoint can raise: an
    [HTTPException], re-raised as it is, or another exception, turned into
    an HTTP 500. *)
Inductive raised : Type :=
| RaisedHTTP (h : HTTPException)
| RaisedOther (e : exception).

Definition endpoint (A : Type) : Type := (raised + A)%type.

Definition ebind {A B} (c : endpoint A) (k : A -> endpoint B) : endpoint B :=
  match c with
  | inl r => inl r
  | inr x => k x
  end.

(** A call of a function that raises [HTTPException]. *)
Definition call {A} (c : HTTPException + A) : endpoint A :=
  match c with
  | inl h => inl (RaisedHTTP h)
  | inr x => inr x
  end.

(** A call of a library function. *)
Definition lift {A} (c : py A) : endpoint A :=
  match c with
  | inl e => inl (RaisedOther e)
  | inr x => inr x
  end.

(** [except HTTPException: raise] and
    [except Exception as e: raise HTTPException(500, f"Internal error: {e}")] *)
Definition reraise_or_500 {A} (body : endpoint A) : HTTPException + A :=
  match body with
  | inl (RaisedHTTP h) => inl h
  | inl (RaisedOther e) =>
      inl (mkHTTPException 500 ("Internal error: " ++ exn_str e))
  | inr x => inr x
  end.

Section MathEndpoint.

Variable platform_pow : float -> float -> py float.
Variable statistics_median : list float -> py float.
Variable statistics_stdev : list float -> py float.
Variable statistics_variance : list float -> py float.
Variable builtin_sum : list float -> float.
Variable math_log : float -> py float.
Variable math_log_base : float -> float -> py float.
Variable math_sin : float -> py float.
Variable math_cos : float -> py float.
Variable math_tan : float -> py float.
Variable math_pow : float -> float -> py float.
Variable long_max : Z.

(** The construction [MathResponse(result=..., operation=..., success=True)]:
    pydantic validates the fields and raises (a [ValueError]) when the result
    fits none of the declared types. *)
Variable math_response : math_result -> string -> py MathResponse.

(** [math_operations(request)], lines 519-546. *)
Definition math_operations (request : MathRequest) : HTTPException + MathResponse :=
  let operation := mreq_operation request in
  reraise_or_500 (
    if String.eqb operation "statistics" then
      ebind (call (calculate_statistics statistics_median statistics_stdev
                     statistics_variance builtin_sum (mreq_values request)))
        (fun result => lift (math_response (ResStatistics result) operation))
    else if String.eqb operation "quadratic" then
      match mreq_a request, mreq_b request, mreq_c request with
      | Some a, Some b, Some c =>
          ebind (call (solve_quadratic platform_pow a b c))
            (fun result => lift (math_response (ResQuadratic result) operation))
      | _, _, _ =>
          inl (RaisedHTTP (mkHTTPException 400
                 "Quadratic equation requires a, b, c coefficients"))
      end
    else if existsb (String.eqb operation)
              ["factorial"; "logarithm"; "trigonometry"; "power"] then
      ebind (call (advanced_math_operations math_log math_log_base math_sin
                     math_cos math_tan math_pow long_max
                     operation (mreq_values request)))
        (fun result => lift (math_response (ResAdvanced result) operation))
    else
      inl (RaisedHTTP (mkHTTPException 400
             ("Unknown math operation: " ++ operation)))).

End MathEndpoint.

Section TextEndpoint.

(** [json.dumps(result, indent=2)] on the dictionary of [analyze_text] and on
    a list of strings. *)
Variable json_dumps_analysis : text_analysis -> string.
Variable json_dumps_list : list string -> string.

(** [not request.extraction_type]: the field is [None] or the empty
    string. *)
Definition missing (extraction_type : option string) : bool :=
  match extraction_type with
  | None => true
  | Some s => String.eqb s EmptyString
  end.

Definition type_of (extraction_type : option string) : string :=
  match extraction_type with
  | Some s => s
  | None => EmptyString
  end.

(** [text_operations(request)], lines 566-597. *)
Definition text_operations (request : TextRequest) : HTTPException + TextResponse :=
  let operation := treq_operation request in
  reraise_or_500 (
    if String.eqb operation "analyze" then
      ebind (call (analyze_text (treq_text request)))
        (fun result =>
           inr (mkTextResponse (json_dumps_analysis result) operation true None))
    else if String.eqb operation "transform" then
      if missing (treq_extraction_type request) then
        inl (RaisedHTTP (mkHTTPException 400
               "Transform operation requires transformation type"))
      else
        ebind (call (transform_text (treq_text request)
                       (type_of (treq_extraction_type request))))
          (fun result => inr (mkTextResponse result operation true None))
    else if String.eqb operation "extract" then
      if missing (treq_extraction_type request) then
        inl (RaisedHTTP (mkHTTPException 400
               "Extract operation requires extraction type"))
      else
        ebind (call (extract_information (treq_text request)
                       (type_of (treq_extraction_type request))))
          (fun result =>
             inr (mkTextResponse (json_dumps_list result) operation true None))
    else
      inl (RaisedHTTP (mkHTTPException 400
             ("Unknown text operation: " ++ operation)))).

End TextEndpoint.

(* ================================================================== *)
(** * The rules as the specification words them *)
(* ================================================================== *)

(** ** Pig Latin *)

(** A vowel: [a, e, i, o, u] in either case. *)
Definition is_vowel (c : ascii) : bool := mem_char c "aeiouAEIOU".

(** A word and its trailing punctuation character from [.,!?;:], detached. *)
Definition detach_punctuation (word : string) : string * string :=
  match last_char word with
  | Some c => if mem_char c ".,!?;:" then (drop_last word, String c EmptyString)
              else (word, EmptyString)
  | None => (word, EmptyString)
  end.

(** The consonant cluster before the first vowel, and the remainder from that
    vowel on; the whole word and an empty remainder when there is no vowel. *)
Fixpoint split_cluster (word : string) : string * string :=
  match word with
  | EmptyString => (EmptyString, EmptyString)
  | String c rest =>
      if is_vowel c then (EmptyString, word)
      else let '(cluster, remainder) := split_cluster rest in
           (String c cluster, remainder)
  end.

Definition starts_with_vowel (word : string) : bool :=
  match word with
  | String c _ => is_vowel c
  | EmptyString => false
  end.

(** The rule on a word without its punctuation. *)
Definition pig_latin_rule (word : string) : string :=
  if starts_with_vowel word then (word ++ "way")%string
  else let '(cluster, remainder) := split_cluster word in
       (remainder ++ cluster ++ "ay")%string.

(** The rule of the claim for one word: detach, transform, reattach. *)
Definition pig_latin_word_claimed (word : string) : string :=
  let '(clean, punctuation) := detach_punctuation word in
  (pig_latin_rule clean ++ punctuation)%string.

(** The same with the guard of the code: a word that is empty once its
    punctuation is detached stays as it is. *)
Definition pig_latin_word (word : string) : string :=
  let '(clean, punctuation) := detach_punctuation word in
  match clean with
  | EmptyString => word
  | _ => (pig_latin_rule clean ++ punctuation)%string
  end.

Definition pig_latin_claimed (text : string) : string :=
  str_join " " (map pig_latin_word_claimed (str_split text)).

(** ** Title case *)

(** The claim: the first character of each whitespace-delimited word is
    capitalized, the word boundaries being whitespace only. *)
Fixpoint capitalize_words (at_word_start : bool) (s : string) : string :=
  match s with
  | EmptyString => EmptyString
  | String c s' =>
      String (if at_word_start then upper c else c) (capitalize_words (isspace c) s')
  end.

Definition title_claimed (text : string) : string := capitalize_words true text.

(** An ASCII letter. *)
Definition is_letter (c : ascii) : bool := between 65 90 c || between 97 122 c.

(** The character before position [i] is a letter. *)
Definition follows_letter (text : string) (i : nat) : bool :=
  match i with
  | O => false
  | S j => match String.get j text with
           | Some p => is_letter p
           | None => false
           end
  end.

(** ** Extraction *)

(** The valid kinds of [extract]. *)
Definition valid_kinds : list string :=
  ["emails"; "urls"; "phone_numbers"; "dates"; "numbers"].

Definition all_digits (s : string) : bool :=
  forallb digit (list_ascii_of_string s).

(** The display form [(XXX) XXX-XXXX] of three groups of 3, 3 and 4 digits. *)
Definition phone_display (s : string) : Prop :=
  exists area prefix line : string,
    s = ("(" ++ area ++ ") " ++ prefix ++ "-" ++ line)%string
    /\ String.length area = 3 /\ all_digits area = true
    /\ String.length prefix = 3 /\ all_digits prefix = true
    /\ String.length line = 4 /\ all_digits line = true.

(* ================================================================== *)
(** * Notions used in the proofs *)
(* ================================================================== *)

(** The integers that are the number of units of some finite float, up to the
    range of the exponent. *)
Definition representable (k : Z) : Prop :=
  exists mk ek, (0 <= mk < 2 ^ 53 /\ 0 <= ek /\ Z.abs k = mk * 2 ^ ek)%Z.

(** No element of [s] equals an element of [l], and [l] has no repeat. *)
Definition fresh_from (s l : list float) : bool :=
  forallb (fun k => negb (existsb (fun y => feqb k y) l)) s && negb (has_repeat l).

(** Patterns without a capturing group. *)
Fixpoint no_group (r : regex) : bool :=
  match r with
  | Epsilon | Char _ | WordBoundary => true
  | Seq r1 r2 | Alt r1 r2 => no_group r1 && no_group r2
  | Repeat _ _ r1 => no_group r1
  | Group _ _ => false
  end.

(** [n] characters of class [p] from position [a] on. *)
Definition chars_at (text : list ascii) (p : ascii -> bool) (a n : nat) : Prop :=
  forall i, i < n -> exists c, nth_error text (a + i) = Some c /\ p c = true.

(** One entry of the phone list, from the match it is built from: the three
    groups are runs of 3, 3 and 4 digits of the text, in this order inside the
    span of the match, the last one ending the match; at most four characters
    precede the first group, at most two lie between the first and the second
    and at most one between the second and the third; the entry is the three
    runs of digits laid out as [(XXX) XXX-XXXX]. *)
Definition phone_entry (text : list ascii) (m : rmatch) (entry : string) : Prop :=
  exists a b c : nat,
    (m_start m <= a <= m_start m + 4)
    /\ (a + 3 <= b <= a + 5)
    /\ (b + 3 <= c <= b + 4)
    /\ c + 4 = m_end m
    /\ m_spans m = [(3, (c, c + 4)); (2, (b, b + 3)); (1, (a, a + 3))]
    /\ chars_at text digit a 3 /\ chars_at text digit b 3 /\ chars_at text digit c 4
    /\ entry = ("(" ++ slice text a (a + 3) ++ ") " ++ slice text b (b + 3)
                ++ "-" ++ slice text c (c + 4))%string.

(** A step of the matcher that stays within the text. *)
Definition within (text : list ascii) (step : state -> list state) : Prop :=
  forall st st', In st' (step st) ->
    pos st <= List.length text -> pos st' <= List.length text.

(* ================================================================== *)
(** * Notions used in the further properties *)
(* ================================================================== *)

(** The transformations that [transform_text] knows. *)
Definition valid_modes : list string :=
  ["upper"; "lower"; "title"; "reverse"; "pig_latin"].

(** Every character of the string satisfies [p]. *)
Fixpoint all_chars (p : ascii -> bool) (s : string) : bool :=
  match s with
  | EmptyString => true
  | String c s' => p c && all_chars p s'
  end.

(** A word as [str.split()] yields them: not empty, no whitespace in it. *)
Definition nonspace (c : ascii) : bool := negb (PyStr.isspace c).

Definition is_word (w : string) : bool :=
  negb (String.eqb w "") && all_chars nonspace w.

(** The strings a pattern can match, without regard to what surrounds them
    (so [\b] stands for the empty string). *)
Fixpoint lang (r : Re.regex) (s : list ascii) : Prop :=
  match r with
  | Re.Epsilon => s = []
  | Re.Char p => exists c, s = [c] /\ p c = true
  | Re.WordBoundary => s = []
  | Re.Seq r1 r2 => exists s1 s2, s = s1 ++ s2 /\ lang r1 s1 /\ lang r2 s2
  | Re.Alt r1 r2 => lang r1 s \/ lang r2 s
  | Re.Repeat lo hi r1 =>
      exists ss, s = List.concat ss /\ Forall (lang r1) ss /\ lo <= List.length ss
                 /\ match hi with Some h => List.length ss <= h | None => True end
  | Re.Group _ r1 => lang r1 s
  end.

(** [items] occur in [text] one after the other, without overlap. *)
Fixpoint in_order (items : list string) (text : list ascii) : Prop :=
  match items with
  | [] => True
  | x :: rest =>
      exists gap after,
        text = gap ++ list_ascii_of_string x ++ after /\ in_order rest after
  end.

(** The kinds whose items are the matched substrings themselves. *)
Definition substring_kinds : list string := ["emails"; "urls"; "dates"; "numbers"].

(** The shapes of the items of each kind. *)
Definition digit_string (s : string) : Prop := all_chars Re.digit s = true.

Definition decimal_form (x : string) : Prop :=
  exists whole,
    whole <> "" /\ digit_string whole
    /\ (x = whole
        \/ exists frac, frac <> "" /\ digit_string frac /\ x = (whole ++ "." ++ frac)%string).

Definition url_form (x : string) : Prop :=
  exists rest,
    rest <> "" /\ (x = ("http://" ++ rest)%string \/ x = ("https://" ++ rest)%string).

Definition email_form (x : string) : Prop :=
  exists local domain tld,
    x = (local ++ "@" ++ domain ++ "." ++ tld)%string
    /\ local <> "" /\ domain <> "" /\ 2 <= String.length tld
    /\ all_chars (fun c => Re.letter c || Re.digit c || Re.one_of "._%+-" c) local = true
    /\ all_chars (fun c => Re.letter c || Re.digit c || Re.one_of ".-" c) domain = true
    /\ all_chars (fun c => Re.letter c || Re.one_of "|" c) tld = true.

Definition date_form (x : string) : Prop :=
  exists a s1 b s2 c,
    x = (a ++ s1 ++ b ++ s2 ++ c)%string
    /\ digit_string a /\ digit_string b /\ digit_string c
    /\ (s1 = "/" \/ s1 = "-") /\ (s2 = "/" \/ s2 = "-")
    /\ 1 <= String.length b <= 2
    /\ ((1 <= String.length a <= 2 /\ 2 <= String.length c <= 4)
        \/ (String.length a = 4 /\ 1 <= String.length c <= 2)).

(** How many of the values compare equal to [x]. *)
Definition occurrences (x : float) (values : list float) : nat :=
  List.length (filter (fun y => feqb y x) values).

(** How many of the values are worth [u] units. *)
Definition count_units (u : Z) (values : list float) : nat :=
  List.length (filter (fun y => Z.eqb (units y) u) values).

(** The exact value of a key of a [Counter], in units. *)
Definition key_units (kn : float * nat) : Z := units (fst kn).

(** What a [Counter] holds after the values [p]: distinct keys, each a value
    of [p] with the number of its occurrences, and a key for every value. *)
Definition counted (c : list (float * nat)) (p : list float) : Prop :=
  Forall (fun kn => number_ok (fst kn)) c
  /\ NoDup (map key_units c)
  /\ (forall k n, In (k, n) c -> In k p /\ n = count_units (units k) p)
  /\ (forall v, In v p -> In (units v) (map key_units c)).

(** The exact value of the float [v] is the integer [n]. *)
Definition whole_number (v : float) (n : Z) : Prop :=
  number_ok v /\ units v = (n * 2 ^ unit_exp)%Z.

(** The operations of [advanced_math_operations] and of the two endpoints. *)
Definition advanced_operations : list string :=
  ["factorial"; "logarithm"; "trigonometry"; "power"].

Definition math_endpoint_operations : list string :=
  "statistics" :: "quadratic" :: advanced_operations.

Definition text_endpoint_operations : list string :=
  ["analyze"; "transform"; "extract"].

(** A float that is not a NaN and carries the sign [s]. *)
Definition has_sign (s : bool) (x : float) : Prop :=
  match x with
  | S754_zero s' | S754_infinity s' | S754_finite s' _ _ => s' = s
  | S754_nan => False
  end.

(** The outcome of a numeric function, its result tagged with its kind. *)
Definition tagged {A} (tag : A -> math_result) (c : HTTPException + A)
  : HTTPException + math_result :=
  match c with
  | inl h => inl h
  | inr x => inr (tag x)
  end.

Section MathComputation.

Variable platform_pow : float -> float -> py float.
Variable statistics_median : list float -> py float.
Variable statistics_stdev : list float -> py float.
Variable statistics_variance : list float -> py float.
Variable builtin_sum : list float -> float.
Variable math_log : float -> py float.
Variable math_log_base : float -> float -> py float.
Variable math_sin : float -> py float.
Variable math_cos : float -> py float.
Variable math_tan : float -> py float.
Variable math_pow : float -> float -> py float.
Variable long_max : Z.

(** The numeric function that a request of the [/math] endpoint selects,
    applied to the fields of the request: the error it raises or the result
    it returns, tagged with its kind; [None] when the request selects no
    function (an operation that is not known, a quadratic request without its
    three coefficients). *)
Definition math_computation (request : MathRequest)
  : option (HTTPException + math_result) :=
  if String.eqb (mreq_operation request) "statistics" then
    Some (tagged ResStatistics
            (calculate_statistics statistics_median statistics_stdev
               statistics_variance builtin_sum (mreq_values request)))
  else if String.eqb (mreq_operation request) "quadratic" then
    match mreq_a request, mreq_b request, mreq_c request with
    | Some a, Some b, Some c =>
        Some (tagged ResQuadratic (solve_quadratic platform_pow a b c))
    | _, _, _ => None
    end
  else if existsb (String.eqb (mreq_operation request)) advanced_operations then
    Some (tagged ResAdvanced
            (advanced_math_operations math_log math_log_base math_sin math_cos
               math_tan math_pow long_max
               (mreq_operation request) (mreq_values request)))
  else None.

End MathComputation.

(* ================================================================== *)
(** * The model of the Python library on sample values

    The values on the right are those of CPython 3.11. *)
(* ================================================================== *)

(** [repr] of floats. *)
Example float_repr_samples :
  map float_repr
    [S754_finite false 7205759403792794 (-56);
     S754_finite false 6004799503160661 (-54);
     S754_finite false 5000000000000000 (1);
     S754_finite false 8000000000000000 (-3);
     S754_finite false 5902958103587057 (-69);
     S754_finite false 7378697629483821 (-66);
     S754_finite false 1 (-1074);
     S754_finite false 9007199254740991 (971);
     S754_finite true 5629499534213120 (-51);
     S754_finite false 8483885939586761 (-36);
     S754_finite false 5404319552844596 (-54);
     (S754_infinity false);
     S754_nan;
     (S754_zero true)]
  = ["0.1"; "0.3333333333333333"; "1e+16"; "1000000000000000.0"; "1e-05";
     "0.0001"; "5e-324"; "1.7976931348623157e+308"; "-2.5"; "123456.789";
     "0.30000000000000004"; "inf"; "nan"; "-0.0"].
Proof. vm_compute. reflexivity. Qed.

(** [a / b] on ints: correctly rounded, ties to even. *)
Example int_truediv_samples :
  map (fun ab => int_truediv (fst ab) (snd ab))
    [(1, 3); (2, 3); (-7, 10); (10 ^ 400, 10 ^ 399);
     (1, 2 ^ 1075); (3, 2 ^ 1075)]%Z
  = [inr (S754_finite false 6004799503160661 (-54));
     inr (S754_finite false 6004799503160661 (-53));
     inr (S754_finite true 6305039478318694 (-53));
     inr (S754_finite false 5629499534213120 (-49));
     inr (S754_zero false);
     inr (S754_finite false 2 (-1074))]
  /\ int_truediv 1 0 = inl (ZeroDivisionError "division by zero")
  /\ int_truediv (10 ^ 400) 1
     = inl (OverflowError "integer division result too large for a float").
Proof. repeat split; vm_compute; reflexivity. Qed.

(** [statistics.mean]: exact sum, one rounding. *)
Example statistics_mean_samples :
  map statistics_mean
    [[S754_finite false 7205759403792794 (-56);
      S754_finite false 7205759403792794 (-55);
      S754_finite false 7205759403792794 (-54)];
     [S754_finite false 5010420900022432 (971); S754_finite false 5010420900022432 (971)];
     [S754_finite false 1 (-1074); (S754_zero false)];
     [S754_finite true 6755399441055744 (-52);
      S754_finite false 5066549580791808 (-51);
      S754_finite false 6755399441055744 (-51);
      S754_finite false 5066549580791808 (-51)]]
  = [inr (S754_finite false 8406719304424926 (-55));
     inr (S754_finite false 5010420900022432 (971));
     inr (S754_zero false);
     inr (S754_finite false 6755399441055744 (-52))].
Proof. vm_compute. reflexivity. Qed.

(** [round(x, 2)] on floats. *)
Example float_round_samples :
  map (fun x => float_round x 2)
    [S754_finite false 4503599627370496 (-55);
     S754_finite false 6023564501608038 (-51);
     S754_finite false 6004799503160661 (-54);
     S754_finite true 4611686018427388 (-62);
     S754_finite false 5066549580791808 (-50)]
  = [inr (S754_finite false 8646911284551352 (-56));
     inr (S754_finite false 6012305502539612 (-51));
     inr (S754_finite false 5944751508129055 (-54));
     inr (S754_zero true);
     inr (S754_finite false 5066549580791808 (-50))].
Proof. vm_compute. reflexivity. Qed.

(** [re.findall] with the five patterns. *)
Example extract_information_samples :
  [extract_information "mail bob@ex.com, a.b+c@d-e.co.uk or x@y.z" "emails";
   extract_information "see http://a.b/c?d=1 and https://x.y/%41 now" "urls";
   extract_information "+1 555.123.4567, 5551234567, 555-1234" "phone_numbers";
   extract_information "on 1/2/2023, 2023-01-05 and 12-31-99" "dates";
   extract_information "a 12 3.14 .5 x10 42" "numbers"]
  = [inr ["bob@ex.com"; "a.b+c@d-e.co.uk"];
     inr ["http://a.b/c?d=1"; "https://x.y/%41"];
     inr ["(555) 123-4567"; "(555) 123-4567"];
     inr ["1/2/2023"; "2023-01-05"; "12-31-99"];
     inr ["12"; "3.14"; "5"; "42"]].
Proof. vm_compute. reflexivity. Qed.

(** The string methods. *)
Example str_method_samples :
  str_split "  The  quick brown fox!  " = ["The"; "quick"; "brown"; "fox!"]
  /\ str_split_sep "a.b..c." "." = ["a"; "b"; ""; "c"; ""]
  /\ str_strip_chars "(hello!)" stripped_punctuation = "hello"
  /\ str_title "hello2world HELLO" = "Hello2World Hello"
  /\ str_reverse "ABC" = "CBA".
Proof. repeat split. Qed.

(** [math.degrees], [int] of a float and the factorial of [advanced_math_operations]. *)
Example advanced_samples :
  map (fun x => float_repr (math_degrees x))
    [S754_finite false 4503599627370496 (-52);
     S754_finite false 7205759403792794 (-56);
     S754_finite false 7074237752028440 (-51);
     S754_finite true 5629499534213120 (-51);
     S754_finite false 2024 (-1074);
     S754_finite false 6724873095247260 (944)]
  = ["57.29577951308232"; "5.729577951308233"; "180.0"; "-143.2394487827058";
     "5.72953e-319"; "5.729577951308233e+301"]
  /\ map int_of_float
       [S754_finite false 5629499534213120 (-50);
        S754_finite false 5629499534213120 (-51);
        S754_finite true 5629499534213120 (-51);
        S754_finite false 8917127262193582 (-53);
        S754_finite false 7812500000000000 (7);
        S754_zero true]
     = [inr 5%Z; inr 2%Z; inr (-2)%Z; inr 0%Z; inr 1000000000000000000%Z; inr 0%Z]
  /\ map (math_factorial (2 ^ 63 - 1)) [0%Z; 20%Z]
     = [inr 1%Z; inr 2432902008176640000%Z].
Proof. split; [|split]; vm_compute; reflexivity. Qed.

(** [re.findall] on the inputs that show the reach of the patterns. *)
Example extract_pattern_samples :
  extract_information "x@y.a|b and a@b.co" "emails" = inr ["x@y.a|b"; "a@b.co"]
  /\ extract_information "Call 555 or mail 12.5 kg -3 .5 7." "numbers"
     = inr ["555"; "12.5"; "3"; "5"; "7"]
  /\ extract_information "1/2-2024 99/99/9999 2024-1/2" "dates"
     = inr ["1/2-2024"; "99/99/9999"; "2024-1/2"]
  /\ extract_information "see http://a.b/c?d=1 and https://x" "urls"
     = inr ["http://a.b/c?d=1"; "https://x"].
Proof. split; [|split; [|split]]; vm_compute; reflexivity. Qed.

(* ================================================================== *)
(** * Facts about floats *)
(* ================================================================== *)

Module FloatFacts.
Import PyFloat.
Local Open Scope Z_scope.

Lemma digits2_pos_bounds (m : positive) :
  2 ^ (Zpos (digits2_pos m) - 1) <= Zpos m < 2 ^ Zpos (digits2_pos m).
Proof.
  induction m as [m IH|m IH|]; cbn [digits2_pos].
  - rewrite Pos2Z.inj_succ.
    replace (Z.succ (Zpos (digits2_pos m)) - 1) with (Z.succ (Zpos (digits2_pos m) - 1)) by lia.
    rewrite !Z.pow_succ_r by lia. lia.
  - rewrite Pos2Z.inj_succ.
    replace (Z.succ (Zpos (digits2_pos m)) - 1) with (Z.succ (Zpos (digits2_pos m) - 1)) by lia.
    rewrite !Z.pow_succ_r by lia. lia.
  - simpl. lia.
Qed.

(** What [valid] says of a finite float. *)
Lemma valid_finite_inv (s : bool) (m : positive) (e : Z) :
  valid (S754_finite s m e) = true ->
  Zpos m < 2 ^ 53 /\ - unit_exp <= e <= 971 /\ (e = - unit_exp \/ 2 ^ 52 <= Zpos m).
Proof.
  unfold valid, valid_binary, bounded, canonical_mantissa, fexp, emin, prec, emax, unit_exp.
  intros H. apply andb_true_iff in H as [H1 H2].
  apply Z.eqb_eq in H1. apply Z.leb_le in H2.
  pose proof (digits2_pos_bounds m) as [Hlo Hhi].
  set (d := Zpos (digits2_pos m)) in *.
  assert (Hd : d <= 53) by lia.
  split.
  - eapply Z.lt_le_trans; [exact Hhi|]. apply Z.pow_le_mono_r; lia.
  - split; [lia|].
    destruct (Z.eq_dec e (-1074)) as [->|Hne]; [left; reflexivity|right].
    assert (d = 53) by lia. subst d. rewrite H in Hlo. exact Hlo.
Qed.


Lemma pow2_pos (k : Z) : 0 <= k -> 0 < 2 ^ k.
Proof. intros. apply Z.pow_pos_nonneg; lia. Qed.

Lemma pow2_split (a b : Z) : 0 <= a <= b -> 2 ^ b = 2 ^ a * 2 ^ (b - a).
Proof. intros. rewrite <- Z.pow_add_r by lia. f_equal. lia. Qed.

(** A 53-bit significand at a lower exponent is below a normalised one at a
    higher exponent. *)
Lemma scaled_lt (m1 m2 k1 k2 : Z) :
  m1 < 2 ^ 53 -> 2 ^ 52 <= m2 -> 0 <= k1 < k2 ->
  m1 * 2 ^ k1 < m2 * 2 ^ k2.
Proof.
  intros H1 H2 Hk.
  rewrite (pow2_split k1 k2) by lia.
  pose proof (pow2_pos k1 ltac:(lia)) as HP.
  assert (HQ : 2 <= 2 ^ (k2 - k1)).
  { change 2 with (2 ^ 1) at 1. apply Z.pow_le_mono_r; lia. }
  assert (H53 : 2 ^ 53 = 2 * 2 ^ 52) by reflexivity.
  assert (m1 < m2 * 2 ^ (k2 - k1)) by nia.
  nia.
Qed.

Lemma units_finite_pos (m : positive) (e : Z) :
  - unit_exp <= e -> 0 < Zpos m * 2 ^ (e + unit_exp).
Proof.
  intros. apply Z.mul_pos_pos; [lia|]. apply pow2_pos. lia.
Qed.

(** On well-formed finite floats the comparison of Python is the comparison
    of the exact values. *)
Lemma compare_units (x y : float) :
  valid x = true -> valid y = true ->
  is_finite x = true -> is_finite y = true ->
  SFcompare x y = Some (units x ?= units y).
Proof.
  intros Vx Vy Fx Fy.
  destruct x as [sx|sx| |sx mx ex]; try discriminate Fx;
  destruct y as [sy|sy| |sy my ey]; try discriminate Fy.
  - reflexivity.
  - apply valid_finite_inv in Vy as (_ & He & _).
    pose proof (units_finite_pos my ey ltac:(lia)).
    cbn [SFcompare units]. f_equal. symmetry.
    destruct sy; cbn [cond_Zopp]; [apply Z.compare_gt_iff|apply Z.compare_lt_iff]; lia.
  - apply valid_finite_inv in Vx as (_ & He & _).
    pose proof (units_finite_pos mx ex ltac:(lia)).
    cbn [SFcompare units]. f_equal. symmetry.
    destruct sx; cbn [cond_Zopp]; [apply Z.compare_lt_iff|apply Z.compare_gt_iff]; lia.
  - apply valid_finite_inv in Vx as (Hx & Hex & Cx).
    apply valid_finite_inv in Vy as (Hy & Hey & Cy).
    pose proof (units_finite_pos mx ex ltac:(lia)) as Px.
    pose proof (units_finite_pos my ey ltac:(lia)) as Py.
    assert (Hcmp : (Zpos mx * 2 ^ (ex + unit_exp) ?= Zpos my * 2 ^ (ey + unit_exp))
                   = match ex ?= ey with
                     | Lt => Lt
                     | Gt => Gt
                     | Eq => Pos.compare_cont Eq mx my
                     end).
    { destruct (Z.compare_spec ex ey) as [->|Hlt|Hgt].
      - change (Pos.compare_cont Eq mx my) with (Zpos mx ?= Zpos my).
        pose proof (pow2_pos (ey + unit_exp) ltac:(lia)) as HP.
        destruct (Z.compare_spec (Zpos mx) (Zpos my)) as [E|L|G].
        + rewrite E. apply Z.compare_refl.
        + apply Z.compare_lt_iff. nia.
        + apply Z.compare_gt_iff. nia.
      - apply Z.compare_lt_iff. apply scaled_lt; lia.
      - apply Z.compare_gt_iff. apply scaled_lt; lia. }
    cbn [SFcompare units]. f_equal.
    destruct sx, sy; cbn [cond_Zopp].
    + rewrite Z.compare_opp.
      rewrite (Z.compare_antisym (Zpos mx * 2 ^ (ex + unit_exp))
                                 (Zpos my * 2 ^ (ey + unit_exp))).
      rewrite Hcmp. destruct (ex ?= ey); reflexivity.
    + symmetry. apply Z.compare_lt_iff. lia.
    + symmetry. apply Z.compare_gt_iff. lia.
    + rewrite Hcmp. reflexivity.
Qed.

Lemma fleb_units (x y : float) :
  valid x = true -> valid y = true ->
  is_finite x = true -> is_finite y = true ->
  fleb x y = (units x <=? units y).
Proof.
  intros. unfold fleb, SFleb. rewrite compare_units by assumption.
  unfold Z.leb. destruct (units x ?= units y); reflexivity.
Qed.

Lemma fltb_units (x y : float) :
  valid x = true -> valid y = true ->
  is_finite x = true -> is_finite y = true ->
  fltb x y = (units x <? units y).
Proof.
  intros. unfold fltb, SFltb. rewrite compare_units by assumption.
  unfold Z.ltb. destruct (units x ?= units y); reflexivity.
Qed.


(** ** Rounding a fraction *)

Lemma div_half_even_lower (n d j : Z) :
  0 < d -> j * d <= n -> j <= div_half_even n d.
Proof.
  intros Hd Hj. unfold div_half_even.
  assert (j <= n / d) by (apply Z.div_le_lower_bound; lia).
  destruct (2 * (n mod d) ?= d); [destruct (Z.even (n / d))| |]; lia.
Qed.

Lemma div_half_even_upper (n d j : Z) :
  0 < d -> n <= j * d -> div_half_even n d <= j.
Proof.
  intros Hd Hj. unfold div_half_even.
  pose proof (Z.div_mod n d ltac:(lia)) as E.
  pose proof (Z.mod_pos_bound n d Hd) as B.
  assert (Hq : n / d <= j) by nia.
  destruct (Z.compare_spec (2 * (n mod d)) d) as [C|C|C].
  - destruct (Z.even (n / d)); [lia|]. nia.
  - lia.
  - nia.
Qed.

Lemma ulp_exp_nonneg (n d : Z) : 0 <= ulp_exp n d.
Proof.
  unfold ulp_exp.
  destruct (Z.leb_spec (Z.log2 n - Z.log2 d - 52) 0); [lia|].
  destruct (d * 2 ^ (Z.log2 n - Z.log2 d - 52 + 52) <=? n); lia.
Qed.

Lemma ulp_exp_above (n d : Z) :
  0 < n -> 0 < d -> n < d * 2 ^ (ulp_exp n d + 53).
Proof.
  intros Hn Hd. unfold ulp_exp.
  pose proof (Z.log2_spec n Hn) as [_ Hnu].
  pose proof (Z.log2_spec d Hd) as [Hdl _].
  pose proof (Z.log2_nonneg n) as Ln. pose proof (Z.log2_nonneg d) as Ld.
  set (ln := Z.log2 n) in *. set (ld := Z.log2 d) in *.
  destruct (Z.leb_spec (ln - ld - 52) 0) as [K|K].
  - eapply Z.lt_le_trans; [exact Hnu|].
    apply Z.le_trans with (2 ^ ld * 2 ^ 53).
    + rewrite <- Z.pow_add_r by lia. apply Z.pow_le_mono_r; lia.
    + apply Z.mul_le_mono_nonneg_r; [apply Z.lt_le_incl, pow2_pos|]; lia.
  - destruct (Z.leb_spec (d * 2 ^ (ln - ld - 52 + 52)) n) as [T|T].
    + eapply Z.lt_le_trans; [exact Hnu|].
      apply Z.le_trans with (2 ^ ld * 2 ^ (ln - ld - 52 + 53)).
      * rewrite <- Z.pow_add_r by lia. apply Z.pow_le_mono_r; lia.
      * apply Z.mul_le_mono_nonneg_r; [apply Z.lt_le_incl, pow2_pos|]; lia.
    + replace (ln - ld - 52 - 1 + 53) with (ln - ld - 52 + 52) by lia. exact T.
Qed.

Lemma ulp_exp_below (n d : Z) :
  0 < n -> 0 < d ->
  ulp_exp n d = 0 \/ d * 2 ^ (ulp_exp n d + 52) <= n.
Proof.
  intros Hn Hd. unfold ulp_exp.
  pose proof (Z.log2_spec n Hn) as [Hnl _].
  pose proof (Z.log2_spec d Hd) as [_ Hdu].
  pose proof (Z.log2_nonneg n) as Ln. pose proof (Z.log2_nonneg d) as Ld.
  set (ln := Z.log2 n) in *. set (ld := Z.log2 d) in *.
  destruct (Z.leb_spec (ln - ld - 52) 0) as [K|K]; [left; reflexivity|].
  destruct (Z.leb_spec (d * 2 ^ (ln - ld - 52 + 52)) n) as [T|T]; [right; exact T|].
  right.
  apply Z.le_trans with (2 ^ ln); [|exact Hnl].
  apply Z.le_trans with (2 ^ Z.succ ld * 2 ^ (ln - ld - 52 - 1 + 52)).
  - apply Z.mul_le_mono_nonneg_r; [apply Z.lt_le_incl, pow2_pos|]; lia.
  - rewrite <- Z.pow_add_r by lia. apply Z.pow_le_mono_r; lia.
Qed.


Lemma representable_opp (k : Z) : representable k -> representable (- k).
Proof.
  intros (mk & ek & H1 & H2 & H3). exists mk, ek. rewrite Z.abs_opp. auto.
Qed.

Lemma representable_units (y : float) :
  valid y = true -> representable (units y).
Proof.
  intros V. destruct y as [s|s| |s m e]; try (exists 0, 0; cbn; lia).
  apply valid_finite_inv in V as (Hm & He & _).
  exists (Zpos m), (e + unit_exp).
  split; [lia|]. split; [lia|].
  pose proof (units_finite_pos m e ltac:(lia)).
  cbn [units]. destruct s; cbn [cond_Zopp]; lia.
Qed.

(** The core of correct rounding: no representable integer lies strictly
    between the fraction [n / d] and its rounding [m * 2^e]. *)
Lemma rounding_between (n d k : Z) :
  0 < n -> 0 < d -> representable k ->
  let e := ulp_exp n d in
  let m := div_half_even n (d * 2 ^ e) in
  (k * d <= n -> k <= m * 2 ^ e) /\ (n <= k * d -> m * 2 ^ e <= k).
Proof.
  intros Hn Hd (mk & ek & Hmk & Hek & Hk) e m.
  pose proof (ulp_exp_nonneg n d) as He. fold e in He.
  pose proof (ulp_exp_below n d Hn Hd) as Hbelow. fold e in Hbelow.
  pose proof (pow2_pos e He) as HP.
  assert (HD : 0 < d * 2 ^ e) by lia.
  assert (Hm0 : 0 <= m) by (apply div_half_even_lower; lia).
  assert (Hnorm : 0 < e -> 2 ^ 52 <= m).
  { intros He0. destruct Hbelow as [E|B]; [lia|].
    apply div_half_even_lower; [exact HD|].
    rewrite Z.pow_add_r in B by lia. lia. }
  (* a positive representable k is a multiple of 2^e, or lies below the binade *)
  assert (Hcase : 0 < k ->
            (exists j, k = j * 2 ^ e) \/ (0 < e /\ k < 2 ^ 52 * 2 ^ e)).
  { intros Hk0. rewrite Z.abs_eq in Hk by lia.
    destruct (Z.le_gt_cases e ek) as [L|G].
    - left. exists (mk * 2 ^ (ek - e)).
      rewrite Hk, (pow2_split e ek) by lia. ring.
    - right. split; [lia|]. rewrite Hk. apply scaled_lt; lia. }
  split.
  - intros Hle.
    destruct (Z.le_gt_cases k 0) as [K|K]; [nia|].
    destruct (Hcase K) as [[j ->]|[He0 Hlt]].
    + assert (j <= m) by (apply div_half_even_lower; [exact HD|lia]).
      nia.
    + specialize (Hnorm He0). nia.
  - intros Hge.
    assert (K : 0 < k) by nia.
    destruct (Hcase K) as [[j ->]|[He0 Hlt]].
    + assert (m <= j) by (apply div_half_even_upper; [exact HD|lia]).
      nia.
    + exfalso. destruct Hbelow as [E|B]; [lia|].
      rewrite Z.pow_add_r in B by lia. nia.
Qed.


Lemma make_float_spec (s : bool) (m e : Z) :
  0 <= m < 2 ^ 53 -> 0 <= e <= emax - prec + unit_exp ->
  (e = 0 \/ 2 ^ 52 <= m) ->
  valid (make_float s m e) = true
  /\ is_finite (make_float s m e) = true
  /\ units (make_float s m e) = cond_Zopp s (m * 2 ^ e).
Proof.
  intros Hm He Hc. destruct m as [|p|p]; [| |lia].
  - cbn. destruct s; auto.
  - cbn [make_float is_finite units]. split; [|split; [reflexivity|]].
    + pose proof (digits2_pos_bounds p) as [Hlo Hhi].
      unfold valid, valid_binary, bounded, canonical_mantissa, fexp, emin.
      unfold prec, emax, unit_exp in *.
      set (d := Zpos (digits2_pos p)) in *.
      assert (Hd : d <= 53).
      { destruct (Z.le_gt_cases d 53) as [L|G]; [exact L|exfalso].
        assert (2 ^ 53 <= 2 ^ (d - 1)) by (apply Z.pow_le_mono_r; lia). lia. }
      assert (Hd' : e = 0 \/ d = 53).
      { destruct Hc as [E|N]; [left; exact E|right].
        destruct (Z.le_gt_cases 53 d) as [L|G]; [lia|exfalso].
        assert (2 ^ d <= 2 ^ 52) by (apply Z.pow_le_mono_r; lia). lia. }
      apply andb_true_iff. split; [apply Z.eqb_eq|apply Z.leb_le]; lia.
    + replace (e - unit_exp + unit_exp) with e by lia. reflexivity.
Qed.

(** [round_ratio] rounds correctly: the result is a well-formed finite float
    and no representable value lies strictly between the fraction and it. *)
Lemma round_ratio_spec (num den : Z) (x : float) :
  0 < den -> round_ratio num den = inr x ->
  valid x = true /\ is_finite x = true /\
  forall k, representable k ->
    (k * den <= num * 2 ^ unit_exp -> k <= units x)
    /\ (num * 2 ^ unit_exp <= k * den -> units x <= k).
Proof.
  intros Hden. unfold round_ratio.
  pose proof (pow2_pos unit_exp ltac:(unfold unit_exp; lia)) as HU.
  set (n := Z.abs num * 2 ^ unit_exp).
  destruct (Z.eqb_spec n 0) as [Hn0|Hn0].
  - intros [= <-]. assert (num = 0) by (subst n; nia). subst num.
    repeat split; try reflexivity; cbn [units pzero]; nia.
  - assert (Hn : 0 < n) by (subst n; nia).
    set (e := ulp_exp n den). set (m := div_half_even n (den * 2 ^ e)).
    pose proof (ulp_exp_nonneg n den) as He. fold e in He.
    pose proof (ulp_exp_above n den Hn Hden) as Habove. fold e in Habove.
    pose proof (ulp_exp_below n den Hn Hden) as Hbelow. fold e in Hbelow.
    pose proof (pow2_pos e He) as HP.
    assert (Hm0 : 0 <= m) by (apply div_half_even_lower; nia).
    assert (Hm53 : m <= 2 ^ 53).
    { apply div_half_even_upper; [nia|]. rewrite Z.pow_add_r in Habove by lia. nia. }
    assert (Hnorm : e = 0 \/ 2 ^ 52 <= m).
    { destruct Hbelow as [E|B]; [left; exact E|right].
      apply div_half_even_lower; [nia|]. rewrite Z.pow_add_r in B by lia. nia. }
    pose proof (rounding_between n den) as Hbetween.
    assert (Hres : forall m' e', m' * 2 ^ e' = m * 2 ^ e ->
              0 <= m' < 2 ^ 53 -> 0 <= e' -> (e' = 0 \/ 2 ^ 52 <= m') ->
              (if emax - prec + unit_exp <? e' then inl tt
               else inr (make_float (num <? 0) m' e')) = inr x ->
              valid x = true /\ is_finite x = true /\
              forall k, representable k ->
                (k * den <= num * 2 ^ unit_exp -> k <= units x)
                /\ (num * 2 ^ unit_exp <= k * den -> units x <= k)).
    { intros m' e' Hval Hm' He' Hc'.
      destruct (Z.ltb_spec (emax - prec + unit_exp) e') as [O|O]; [discriminate|].
      intros [= <-].
      destruct (make_float_spec (num <? 0) m' e' Hm' (conj He' O) Hc') as (V & F & U).
      split; [exact V|]. split; [exact F|].
      intros k Hk. rewrite U, Hval.
      destruct (Z.ltb_spec num 0) as [Neg|Pos]; cbn [cond_Zopp].
      - assert (Hnn : n = - (num * 2 ^ unit_exp)) by (subst n; rewrite Z.abs_neq by lia; ring).
        destruct (Hbetween (- k) Hn Hden (representable_opp k Hk)) as [B1 B2].
        fold e in B1, B2. fold m in B1, B2. split; intros Hle.
        + assert (m * 2 ^ e <= - k) by (apply B2; lia). lia.
        + assert (- k <= m * 2 ^ e) by (apply B1; lia). lia.
      - assert (Hnn : n = num * 2 ^ unit_exp) by (subst n; rewrite Z.abs_eq by lia; ring).
        destruct (Hbetween k Hn Hden Hk) as [B1 B2].
        fold e in B1, B2. fold m in B1, B2. split; intros Hle.
        + apply B1. lia.
        + apply B2. lia. }
    destruct (Z.eqb_spec m (2 ^ 53)) as [E53|N53].
    + apply Hres.
      * rewrite E53, Z.pow_add_r by lia.
        change (2 ^ 53) with (2 ^ 52 * 2 ^ 1). ring.
      * split; [apply Z.lt_le_incl, pow2_pos; lia|apply Z.pow_lt_mono_r; lia].
      * lia.
      * right. lia.
    + apply Hres; lia.
Qed.

(** ** The range of the finite floats *)

Lemma max_units_representable : representable max_units.
Proof.
  exists (2 ^ 53 - 1), (emax - prec + unit_exp).
  split; [split; [vm_compute; discriminate|vm_compute; reflexivity]|].
  split; [vm_compute; discriminate|]. vm_compute. reflexivity.
Qed.

Lemma units_le_max (x : float) :
  valid x = true -> - max_units <= units x <= max_units.
Proof.
  intros V. unfold max_units.
  assert (HM : 0 <= (2 ^ 53 - 1) * 2 ^ (emax - prec + unit_exp)) by (vm_compute; discriminate).
  destruct x as [s|s| |s m e]; cbn [units]; try lia.
  apply valid_finite_inv in V as (Hm & He & _).
  assert (Zpos m * 2 ^ (e + unit_exp) <= (2 ^ 53 - 1) * 2 ^ (emax - prec + unit_exp)).
  { apply Z.mul_le_mono_nonneg;
      [lia|lia|apply Z.lt_le_incl, pow2_pos; lia|].
    apply Z.pow_le_mono_r; unfold emax, prec, unit_exp in *; lia. }
  pose proof (units_finite_pos m e ltac:(lia)).
  destruct s; cbn [cond_Zopp]; lia.
Qed.

(** A fraction within the range of the finite floats rounds without
    overflow. *)
Lemma round_ratio_in_range (num den : Z) :
  0 < den -> Z.abs num * 2 ^ unit_exp <= max_units * den ->
  exists x, round_ratio num den = inr x.
Proof.
  intros Hden Hrange. unfold round_ratio.
  set (n := Z.abs num * 2 ^ unit_exp) in *.
  destruct (Z.eqb_spec n 0) as [Hn0|Hn0]; [eexists; reflexivity|].
  assert (Hn : 0 < n).
  { assert (0 <= n); [|lia]. subst n. apply Z.mul_nonneg_nonneg; [lia|].
    apply Z.lt_le_incl, pow2_pos. unfold unit_exp. lia. }
  set (e := ulp_exp n den). set (m := div_half_even n (den * 2 ^ e)).
  pose proof (ulp_exp_nonneg n den) as He. fold e in He.
  pose proof (ulp_exp_below n den Hn Hden) as Hbelow. fold e in Hbelow.
  pose proof (pow2_pos e He) as HP.
  destruct (rounding_between n den max_units Hn Hden max_units_representable) as [_ Hup].
  fold e in Hup. fold m in Hup. specialize (Hup Hrange).
  assert (Hnorm : e = 0 \/ 2 ^ 52 <= m).
  { destruct Hbelow as [E|B]; [left; exact E|right].
    apply div_half_even_lower; [nia|]. rewrite Z.pow_add_r in B by lia. nia. }
  set (top := emax - prec + unit_exp) in *.
  assert (Htop : 0 <= top) by (vm_compute; discriminate).
  assert (Hmax : max_units < 2 ^ 53 * 2 ^ top).
  { unfold max_units. fold top. pose proof (pow2_pos top Htop). lia. }
  assert (Hlt : m * 2 ^ e < 2 ^ 53 * 2 ^ top) by lia.
  assert (Hfin : forall m' e', m' * 2 ^ e' = m * 2 ^ e -> 2 ^ 52 <= m' \/ e' = 0 ->
            0 <= e' -> (top <? e') = false).
  { intros m' e' Hval Hc He'. apply Z.ltb_ge.
    destruct Hc as [Hm'|E0]; [|lia].
    destruct (Z.le_gt_cases e' top) as [L|G]; [exact L|exfalso].
    assert (2 ^ (top + 1) <= 2 ^ e') by (apply Z.pow_le_mono_r; lia).
    rewrite Z.pow_add_r in H by lia.
    pose proof (pow2_pos top Htop).
    assert (2 ^ 53 = 2 ^ 52 * 2 ^ 1) by reflexivity. nia. }
  destruct (Z.eqb_spec m (2 ^ 53)) as [E53|N53].
  - rewrite (Hfin (2 ^ 52) (e + 1)); [eexists; reflexivity| |left; lia|lia].
    rewrite E53, Z.pow_add_r by lia. change (2 ^ 53) with (2 ^ 52 * 2 ^ 1). ring.
  - rewrite (Hfin m e); [eexists; reflexivity|reflexivity| |lia].
    destruct Hnorm; [right|left]; assumption.
Qed.
End FloatFacts.

(* ================================================================== *)
(** * Facts about the error monad *)
(* ================================================================== *)

Lemma bind_inr {A B} (c : py A) (k : A -> py B) (b : B) :
  bind c k = inr b -> exists a, c = inr a /\ k a = inr b.
Proof.
  destruct c as [e|a]; cbn; intros H; [discriminate|]. exists a. auto.
Qed.

Lemma except_400_inr {A} (prefix : string) (body : py A) (x : A) :
  except_400 prefix body = inr x -> body = inr x.
Proof. destruct body; cbn; intros H; [discriminate|]. inversion H. reflexivity. Qed.

Lemma except_400_inl {A} (prefix : string) (body : py A) (e : exception) :
  body = inl e ->
  except_400 prefix body = inl (mkHTTPException 400 (prefix ++ exn_str e)).
Proof. intros ->. reflexivity. Qed.


(* ================================================================== *)
(** * Facts about the statistics *)
(* ================================================================== *)

Module StatFacts.
Import PyFloat FloatFacts.
Local Open Scope Z_scope.

Lemma fold_min_spec (l : list float) (x : float) :
  number_ok x -> Forall number_ok l ->
  let m := fold_left (fun cur item => if fltb item cur then item else cur) l x in
  number_ok m /\ In m (x :: l) /\ Forall (fun v => units m <= units v) (x :: l).
Proof.
  revert x. induction l as [|y l IH]; intros x Hx Hl; cbn [fold_left].
  - split; [exact Hx|]. split; [left; reflexivity|]. constructor; [lia|constructor].
  - inversion Hl as [|? ? Hy Hl']; subst.
    pose proof (fltb_units y x (proj1 Hy) (proj1 Hx) (proj2 Hy) (proj2 Hx)) as Hlt.
    destruct (fltb y x).
    + symmetry in Hlt. apply Z.ltb_lt in Hlt.
      destruct (IH y Hy Hl') as (Hm & Hin & Hall).
      split; [exact Hm|]. split.
      * destruct Hin as [<-|Hin]; [right; left; reflexivity|right; right; exact Hin].
      * inversion Hall as [|? ? Hmy Hall']; subst.
        constructor; [lia|]. constructor; assumption.
    + symmetry in Hlt. apply Z.ltb_ge in Hlt.
      destruct (IH x Hx Hl') as (Hm & Hin & Hall).
      split; [exact Hm|]. split.
      * destruct Hin as [<-|Hin]; [left; reflexivity|right; right; exact Hin].
      * inversion Hall as [|? ? Hmx Hall']; subst.
        constructor; [exact Hmx|]. constructor; [lia|exact Hall'].
Qed.

Lemma fold_max_spec (l : list float) (x : float) :
  number_ok x -> Forall number_ok l ->
  let m := fold_left (fun cur item => if fltb cur item then item else cur) l x in
  number_ok m /\ In m (x :: l) /\ Forall (fun v => units v <= units m) (x :: l).
Proof.
  revert x. induction l as [|y l IH]; intros x Hx Hl; cbn [fold_left].
  - split; [exact Hx|]. split; [left; reflexivity|]. constructor; [lia|constructor].
  - inversion Hl as [|? ? Hy Hl']; subst.
    pose proof (fltb_units x y (proj1 Hx) (proj1 Hy) (proj2 Hx) (proj2 Hy)) as Hlt.
    destruct (fltb x y).
    + symmetry in Hlt. apply Z.ltb_lt in Hlt.
      destruct (IH y Hy Hl') as (Hm & Hin & Hall).
      split; [exact Hm|]. split.
      * destruct Hin as [<-|Hin]; [right; left; reflexivity|right; right; exact Hin].
      * inversion Hall as [|? ? Hmy Hall']; subst.
        constructor; [lia|]. constructor; assumption.
    + symmetry in Hlt. apply Z.ltb_ge in Hlt.
      destruct (IH x Hx Hl') as (Hm & Hin & Hall).
      split; [exact Hm|]. split.
      * destruct Hin as [<-|Hin]; [left; reflexivity|right; right; exact Hin].
      * inversion Hall as [|? ? Hmx Hall']; subst.
        constructor; [exact Hmx|]. constructor; [lia|exact Hall'].
Qed.

Lemma sum_units_acc (l : list float) (acc : Z) :
  fold_left (fun a x => a + units x) l acc = acc + sum_units l.
Proof.
  unfold sum_units. revert acc. induction l as [|x l IH]; intros acc; cbn [fold_left].
  - lia.
  - rewrite IH, (IH (0 + units x)). lia.
Qed.

Lemma sum_units_cons (x : float) (l : list float) :
  sum_units (x :: l) = units x + sum_units l.
Proof. unfold sum_units at 1. cbn [fold_left]. rewrite sum_units_acc. lia. Qed.

(** The exact sum lies between [n] times a lower bound and [n] times an upper
    bound of the data. *)
Lemma sum_units_bounds (l : list float) (lo hi : Z) :
  Forall (fun v => lo <= units v <= hi) l ->
  Z.of_nat (List.length l) * lo <= sum_units l <= Z.of_nat (List.length l) * hi.
Proof.
  induction 1 as [|x l Hx Hl IH].
  - cbn. lia.
  - rewrite sum_units_cons. cbn [List.length]. rewrite Nat2Z.inj_succ. lia.
Qed.


(** ** The set of the values and repeated values *)

Lemma forallb_agree {A} (f g : A -> bool) (l : list A) :
  (forall x, In x l -> f x = g x) -> forallb f l = forallb g l.
Proof.
  induction l as [|a l IH]; intros H; cbn [forallb]; [reflexivity|].
  rewrite (H a (or_introl eq_refl)), IH; [reflexivity|].
  intros x Hx. apply H. right. exact Hx.
Qed.


Lemma fold_set_add_length (l s : list float) :
  (List.length (fold_left set_add l s) <= List.length s + List.length l)%nat
  /\ (List.length (fold_left set_add l s) = (List.length s + List.length l)%nat
      <-> fresh_from s l = true).
Proof.
  revert s. induction l as [|x l IH]; intros s; cbn [fold_left].
  - cbn [List.length]. rewrite Nat.add_0_r. split; [lia|].
    unfold fresh_from. cbn [existsb has_repeat negb].
    rewrite andb_true_r. split; [intros _|intros _; reflexivity].
    apply forallb_forall. reflexivity.
  - unfold set_add at 2 4. destruct (existsb (fun k => feqb k x) s) eqn:Hex.
    + destruct (IH s) as [Hle _]. cbn [List.length]. split; [lia|].
      split; [intros; lia|]. intros Hf. exfalso.
      unfold fresh_from in Hf. apply andb_true_iff in Hf as [Hf _].
      apply existsb_exists in Hex as (k & Hk & Hkx).
      rewrite forallb_forall in Hf. specialize (Hf k Hk).
      cbn [existsb] in Hf. rewrite Hkx in Hf. discriminate.
    + destruct (IH (s ++ [x])) as [Hle Heq]. rewrite length_app in Hle, Heq.
      cbn [List.length] in *. split; [lia|].
      assert (Hsame : fresh_from (s ++ [x]) l = fresh_from s (x :: l)).
      { unfold fresh_from. rewrite forallb_app. cbn [forallb has_repeat].
        rewrite andb_true_r, negb_orb.
        rewrite <- andb_assoc. f_equal.
        apply forallb_agree. intros k Hk. cbn [existsb].
        assert (feqb k x = false) as ->; [|reflexivity].
        destruct (feqb k x) eqn:E; [|reflexivity].
        assert (existsb (fun k => feqb k x) s = true) as C
            by (apply existsb_exists; exists k; auto).
        congruence. }
      rewrite <- Hsame, <- Heq. split; intros; lia.
Qed.

(** [len(set(values)) < len(values)] exactly when a value occurs more than
    once. *)
Lemma set_smaller_iff_repeat (values : list float) :
  Nat.ltb (List.length (py_set values)) (List.length values) = has_repeat values.
Proof.
  unfold py_set. destruct (fold_set_add_length values []) as [Hle Heq].
  cbn [List.length Nat.add] in Hle, Heq.
  unfold fresh_from in Heq. cbn [forallb andb] in Heq.
  destruct (has_repeat values); cbn [negb] in Heq.
  - apply Nat.ltb_lt.
    destruct (Nat.eq_dec (List.length (fold_left set_add values [])) (List.length values)) as [E|N].
    + apply Heq in E. discriminate.
    + lia.
  - apply Nat.ltb_ge. destruct Heq as [_ Heq]. rewrite Heq by reflexivity. lia.
Qed.

Lemma statistics_mode_returns (values : list float) :
  values <> [] -> exists m, statistics_mode values = inr m.
Proof.
  intros Hne. unfold statistics_mode.
  assert (H : forall l c, c <> [] \/ l <> [] ->
             fold_left (fun c x => counter_add x c) l c <> []).
  { induction l as [|x l IH]; intros c Hc; cbn [fold_left].
    - destruct Hc; congruence.
    - apply IH. left. destruct c as [|[k n] c]; cbn; [discriminate|].
      destruct (feqb k x); discriminate. }
  unfold Counter. specialize (H values [] (or_intror Hne)).
  destruct (fold_left _ values []) as [|kn c]; [congruence|]. eexists. reflexivity.
Qed.

(** [statistics.mean] returns on every non-empty list of numbers. *)
Lemma statistics_mean_returns (values : list float) :
  values <> [] -> Forall number_ok values ->
  exists x, statistics_mean values = inr x.
Proof.
  intros Hne Hok. unfold statistics_mean.
  destruct values as [|v l]; [congruence|].
  assert (Hfin : forallb is_finite (v :: l) = true).
  { apply forallb_forall. intros y Hy.
    rewrite Forall_forall in Hok. apply (Hok y Hy). }
  rewrite Hfin.
  set (n := Z.of_nat (List.length (v :: l))).
  assert (Hn : 0 < n) by (subst n; cbn [List.length]; lia).
  assert (HU : 0 < 2 ^ unit_exp) by (apply pow2_pos; unfold unit_exp; lia).
  assert (Hb : Forall (fun y => - max_units <= units y <= max_units) (v :: l)).
  { rewrite Forall_forall in *. intros y Hy. apply units_le_max, (Hok y Hy). }
  pose proof (sum_units_bounds (v :: l) (- max_units) max_units Hb) as Hsum.
  fold n in Hsum.
  destruct (round_ratio_in_range (sum_units (v :: l)) (n * 2 ^ unit_exp)) as [x Hx];
    [nia| |rewrite Hx; eexists; reflexivity].
  assert (Z.abs (sum_units (v :: l)) <= max_units * n) by lia. nia.
Qed.

End StatFacts.

(* ================================================================== *)
(** * Properties of the numeric operations *)
(* ================================================================== *)

Import FloatFacts StatFacts.

(** An exception raised in the body of a [try] block leaves the function as an
    HTTP 400 error, which the specification calls [invalid_input]. *)
Lemma raises_invalid_input {A} (prefix : string) (body : py A) :
  (exists e, body = inl e) ->
  exists h, except_400 prefix body = inl h
            /\ status_code h = 400%Z /\ classify h = invalid_input.
Proof.
  intros (e & ->). eexists. split; [reflexivity|]. split; reflexivity.
Qed.

Lemma fdiv_by_twice_zero (x : float) (s : bool) :
  fdiv x (fmul (lit 2) (S754_zero s)) = inl (ZeroDivisionError "float division by zero").
Proof. destruct s; reflexivity. Qed.

(** With integer arguments the real part is [-0 / (2 * 1)], the float [0.0];
    with float arguments it is [-0.0 / 2.0], the float [-0.0]. *)
Remark real_part_int_and_float :
  bind (int_truediv (- 0) (2 * 1)) (fun x => ret (float_repr x)) = ret "0.0"
  /\ bind (fdiv (fneg (lit 0)) (fmul (lit 2) (lit 1))) (fun x => ret (float_repr x))
     = ret "-0.0".
Proof. split; vm_compute; reflexivity. Qed.

(** C1. On the floats 1.0, 0.0, 1.0 (what the request model passes for
    [a = 1, b = 0, c = 1]) [solve_quadratic] returns root type ["complex"],
    discriminant -4.0, and the two strings ["-0.0 + 1.0i"] and
    ["-0.0 - 1.0i"]: the real part [-b / (2*a)] is the negative zero, which
    Python prints with its sign.  The specification gives ["0.0 + 1.0i"] and
    ["0.0 - 1.0i"]. *)
Theorem solve_quadratic_1_0_1_prints_negative_zero
  (platform_pow : float -> float -> py float) :
  solve_quadratic platform_pow (lit 1) (lit 0) (lit 1)
  = inr (mkQuadratic (lit (-4))
           [RootStr "-0.0 + 1.0i"; RootStr "-0.0 - 1.0i"] "complex").
Proof. vm_compute. reflexivity. Qed.

(** C2. For every [b] and [c], [solve_quadratic] with [a] zero (of either
    sign) fails with an HTTP 400 error, that is [invalid_input]; in particular
    [quadratic(0, 1, 1)] fails, with the message of the division by zero. *)
Theorem solve_quadratic_zero_a_invalid_input
  (platform_pow : float -> float -> py float) :
  (forall (s : bool) (b c : float),
      exists h, solve_quadratic platform_pow (S754_zero s) b c = inl h
                /\ status_code h = 400%Z /\ classify h = invalid_input)
  /\ solve_quadratic platform_pow (lit 0) (lit 1) (lit 1)
     = inl (mkHTTPException 400 "Error solving quadratic: float division by zero").
Proof.
  split; [|vm_compute; reflexivity].
  intros s b c. unfold solve_quadratic. apply raises_invalid_input.
  destruct (float_pow2 platform_pow b) as [e|b2]; cbn [bind]; [eauto|].
  set (d := fsub b2 (fmul (fmul (lit 4) (S754_zero s)) c)).
  destruct (fltb (lit 0) d).
  - destruct (math_sqrt d) as [e|s1]; cbn [bind]; [eauto|].
    rewrite fdiv_by_twice_zero. cbn [bind]. eauto.
  - destruct (feqb d (lit 0)); rewrite fdiv_by_twice_zero; cbn [bind]; eauto.
Qed.

(** On a non-empty list of numbers [calculate_statistics] returns a result as
    soon as the three library functions it delegates to return. *)
Lemma calculate_statistics_returns
  (statistics_median statistics_stdev statistics_variance : list float -> py float)
  (builtin_sum : list float -> float) (values : list float) :
  values <> [] -> Forall number_ok values ->
  (exists m, statistics_median values = inr m) ->
  (exists s, statistics_stdev values = inr s) ->
  (exists v, statistics_variance values = inr v) ->
  exists r, calculate_statistics statistics_median statistics_stdev
              statistics_variance builtin_sum values = inr r.
Proof.
  intros Hne Hok (m & Hm) (s & Hs) (v & Hv).
  destruct (statistics_mean_returns values Hne Hok) as (x & Hx).
  destruct (statistics_mode_returns values Hne) as (mo & Hmo).
  unfold calculate_statistics. rewrite Hx, Hm, Hmo, Hs, Hv. cbn [bind].
  destruct values as [|y l]; [congruence|]. cbn [py_min py_max bind ret].
  destruct (Nat.ltb (List.length (py_set (y :: l))) (List.length (y :: l)));
    destruct (Nat.ltb 1 (List.length (y :: l))); cbn [bind ret];
    eexists; reflexivity.
Qed.

(** C5. For every non-empty list of numbers (well-formed finite floats), the
    result of [calculate_statistics] has max >= mean >= min, and its range is
    max - min. *)
Theorem statistics_mean_between_min_and_max
  (statistics_median statistics_stdev statistics_variance : list float -> py float)
  (builtin_sum : list float -> float)
  (values : list float) (r : statistics_result) :
  values <> [] ->
  Forall number_ok values ->
  calculate_statistics statistics_median statistics_stdev statistics_variance
                       builtin_sum values = inr r ->
  fleb (st_mean r) (st_max r) = true
  /\ fleb (st_min r) (st_mean r) = true
  /\ st_range r = fsub (st_max r) (st_min r).
Proof.
  intros Hne Hok H. unfold calculate_statistics in H.
  apply except_400_inr in H.
  apply bind_inr in H as (mean & Hmean & H).
  apply bind_inr in H as (median & _ & H).
  apply bind_inr in H as (mode & _ & H).
  apply bind_inr in H as (std_dev & _ & H).
  apply bind_inr in H as (variance & _ & H).
  apply bind_inr in H as (mn & Hmin & H).
  apply bind_inr in H as (mx & Hmax & H).
  apply bind_inr in H as (mx' & Hmax' & H).
  apply bind_inr in H as (mn' & Hmin' & H).
  injection H as <-. cbn [st_mean st_max st_min st_range].
  assert (mx' = mx) as -> by congruence.
  assert (mn' = mn) as -> by congruence.
  clear Hmax' Hmin'.
  destruct values as [|x l]; [congruence|].
  inversion Hok as [|? ? Hx Hl]; subst.
  (* the mean is the exact mean, rounded once *)
  unfold statistics_mean in Hmean.
  assert (Hfin : forallb is_finite (x :: l) = true).
  { apply forallb_forall. intros y Hy.
    rewrite Forall_forall in Hok. apply (Hok y Hy). }
  rewrite Hfin in Hmean.
  set (n := Z.of_nat (List.length (x :: l))) in *.
  assert (Hn : (0 < n)%Z) by (subst n; cbn [List.length]; lia).
  destruct (round_ratio (sum_units (x :: l)) (n * 2 ^ unit_exp)) as [|y] eqn:Hround;
    [discriminate|].
  injection Hmean as <-.
  assert (HU : (0 < 2 ^ unit_exp)%Z) by (apply pow2_pos; unfold unit_exp; lia).
  assert (Hden : (0 < n * 2 ^ unit_exp)%Z) by nia.
  destruct (round_ratio_spec _ _ _ Hden Hround) as (Vm & Fm & Hbetween).
  (* the minimum and the maximum bound every value, hence the exact sum *)
  cbn [py_min py_max] in Hmin, Hmax.
  injection Hmin as <-. injection Hmax as <-.
  destruct (fold_min_spec l x Hx Hl) as (Omin & _ & Amin).
  destruct (fold_max_spec l x Hx Hl) as (Omax & _ & Amax).
  set (mn := fold_left (fun cur item => if fltb item cur then item else cur) l x) in *.
  set (mx := fold_left (fun cur item => if fltb cur item then item else cur) l x) in *.
  assert (Hb : Forall (fun v => (units mn <= units v <= units mx)%Z) (x :: l)).
  { rewrite Forall_forall in *. intros v Hv. split; [apply Amin|apply Amax]; exact Hv. }
  pose proof (sum_units_bounds (x :: l) (units mn) (units mx) Hb) as Hsum.
  fold n in Hsum.
  destruct (Hbetween (units mn) (representable_units mn (proj1 Omin))) as [Lo _].
  destruct (Hbetween (units mx) (representable_units mx (proj1 Omax))) as [_ Hi].
  destruct Omin as [Vmin Fmin]. destruct Omax as [Vmax Fmax].
  split; [|split; [|reflexivity]].
  - rewrite fleb_units by assumption. apply Z.leb_le. apply Hi. nia.
  - rewrite fleb_units by assumption. apply Z.leb_le. apply Lo. nia.
Qed.

Lemma statistics_mean_between_min_and_max_witness :
  let absent := fun _ : list float => @ret float (lit 0) in
  let values := [lit 1; lit 2; lit 4] in
  values <> []
  /\ Forall number_ok values
  /\ exists r,
      calculate_statistics absent absent absent (fun _ => lit 7) values = inr r
      /\ fleb (st_mean r) (st_max r) = true
      /\ fleb (st_min r) (st_mean r) = true
      /\ st_range r = fsub (st_max r) (st_min r).
Proof.
  intros absent values.
  split; [discriminate|].
  split; [repeat constructor|].
  eexists. split; [vm_compute; reflexivity|].
  apply (statistics_mean_between_min_and_max absent absent absent (fun _ => lit 7) values);
    [discriminate|repeat constructor|vm_compute; reflexivity].
Defined.

(** C6. For every non-empty list, the ["mode"] entry of the result is [None]
    when no value occurs more than once, and it is a value only if some value
    occurs more than once (and then it always is one). *)
Theorem statistics_mode_null_without_repeat
  (statistics_median statistics_stdev statistics_variance : list float -> py float)
  (builtin_sum : list float -> float)
  (values : list float) (r : statistics_result) :
  values <> [] ->
  calculate_statistics statistics_median statistics_stdev statistics_variance
                       builtin_sum values = inr r ->
  (has_repeat values = false -> st_mode r = None)
  /\ (st_mode r <> None -> has_repeat values = true)
  /\ (has_repeat values = true -> st_mode r <> None).
Proof.
  intros Hne H. unfold calculate_statistics in H.
  apply except_400_inr in H.
  apply bind_inr in H as (mean & _ & H).
  apply bind_inr in H as (median & _ & H).
  apply bind_inr in H as (mode & Hmode & H).
  apply bind_inr in H as (std_dev & _ & H).
  apply bind_inr in H as (variance & _ & H).
  apply bind_inr in H as (mn & _ & H).
  apply bind_inr in H as (mx & _ & H).
  apply bind_inr in H as (mx' & _ & H).
  apply bind_inr in H as (mn' & _ & H).
  injection H as <-. cbn [st_mode].
  rewrite set_smaller_iff_repeat in Hmode.
  destruct (has_repeat values).
  - apply bind_inr in Hmode as (m & _ & Hm). injection Hm as <-.
    repeat split; intros; congruence.
  - injection Hmode as <-. repeat split; intros; congruence.
Qed.

Lemma statistics_mode_null_without_repeat_witness :
  let absent := fun _ : list float => @ret float (lit 0) in
  let values := [lit 3; lit 1; lit 3] in
  values <> []
  /\ exists r,
      calculate_statistics absent absent absent (fun _ => lit 7) values = inr r
      /\ (has_repeat values = false -> st_mode r = None)
      /\ (st_mode r <> None -> has_repeat values = true)
      /\ (has_repeat values = true -> st_mode r <> None).
Proof.
  intros absent values.
  split; [discriminate|].
  eexists. split; [vm_compute; reflexivity|].
  apply (statistics_mode_null_without_repeat absent absent absent (fun _ => lit 7) values);
    [discriminate|vm_compute; reflexivity].
Defined.

(** C7. [calculate_statistics] on the empty list fails with an HTTP 400 error
    ([invalid_input]): [statistics.mean] raises before any other entry is
    evaluated. *)
Theorem calculate_statistics_empty_invalid_input
  (statistics_median statistics_stdev statistics_variance : list float -> py float)
  (builtin_sum : list float -> float) :
  exists h,
    calculate_statistics statistics_median statistics_stdev statistics_variance
                         builtin_sum [] = inl h
    /\ status_code h = 400%Z
    /\ classify h = invalid_input
    /\ detail h = "Error calculating statistics: mean requires at least one data point".
Proof. eexists. repeat split. Qed.

(* ================================================================== *)
(** * Properties of the text operations *)
(* ================================================================== *)

Lemma str_app_assoc (a b c : string) : ((a ++ b) ++ c = a ++ (b ++ c))%string.
Proof. induction a as [|x a IH]; cbn; [reflexivity|]. rewrite IH. reflexivity. Qed.

Lemma str_app_nil_r (a : string) : (a ++ EmptyString)%string = a.
Proof. induction a as [|x a IH]; cbn; [reflexivity|]. rewrite IH. reflexivity. Qed.

(** ** Pig Latin *)

Lemma fold_append_map {A B} (f : A -> B) (l : list A) (acc : list B) :
  fold_left (fun acc x => acc ++ [f x]) l acc = acc ++ map f l.
Proof.
  revert acc. induction l as [|x l IH]; intros acc; cbn [fold_left map].
  - rewrite app_nil_r. reflexivity.
  - rewrite IH, <- app_assoc. reflexivity.
Qed.

(** The test of line 370, [c.lower() in 'aeiou'], is the vowel test. *)
Lemma lower_vowel (c : ascii) : mem_char (lower c) "aeiou" = is_vowel c.
Proof.
  destruct c as [[] [] [] [] [] [] [] []]; reflexivity.
Qed.

Lemma first_vowel_from_ge (s : string) (i j : nat) :
  first_vowel_from i s = Some j -> (i <= j)%nat.
Proof.
  revert i. induction s as [|c s IH]; intros i; cbn [first_vowel_from]; [discriminate|].
  destruct (mem_char c "aeiou").
  - intros [= <-]. lia.
  - intros H. apply IH in H. lia.
Qed.

Lemma take_all (w : string) : take (String.length w) w = w.
Proof. induction w as [|c w IH]; cbn; [reflexivity|]. rewrite IH. reflexivity. Qed.

Lemma drop_all (w : string) : drop (String.length w) w = EmptyString.
Proof. induction w as [|c w IH]; cbn; [reflexivity|]. exact IH. Qed.

(** The index found by the loop over the lower-cased word cuts the word into
    its consonant cluster and the remainder. *)
Lemma first_vowel_split (w : string) (i : nat) :
  let k := match first_vowel_from i (str_lower w) with
           | Some j => (j - i)%nat
           | None => String.length w
           end in
  split_cluster w = (take k w, drop k w).
Proof.
  revert i. induction w as [|c w IH]; intros i; cbn [str_lower str_map first_vowel_from].
  - reflexivity.
  - fold (str_lower w). rewrite lower_vowel. cbn [split_cluster].
    destruct (is_vowel c) eqn:V.
    + rewrite Nat.sub_diag. reflexivity.
    + specialize (IH (S i)). cbn zeta in IH. rewrite IH.
      destruct (first_vowel_from (S i) (str_lower w)) as [j|] eqn:F.
      * apply first_vowel_from_ge in F.
        replace (j - i)%nat with (S (j - S i)) by lia. reflexivity.
      * reflexivity.
Qed.

(** The body of the loop is the rule, with the guard for an empty word. *)
Lemma pig_latin_entry_rule (word : string) :
  pig_latin_entry word = pig_latin_word word.
Proof.
  unfold pig_latin_entry, pig_latin_word, detach_punctuation.
  assert (R : forall clean punctuation : string,
             match clean with
             | String c0 _ =>
                 ((if mem_char (lower c0) "aeiou" then clean ++ "way"
                   else
                     let first_vowel :=
                       match first_vowel_from 0 (str_lower clean) with
                       | Some i => i
                       | None => String.length clean
                       end in
                     drop first_vowel clean ++ take first_vowel clean ++ "ay")
                  ++ punctuation)%string
             | EmptyString => word
             end
             = match clean with
               | EmptyString => word
               | _ => (pig_latin_rule clean ++ punctuation)%string
               end).
  { intros [|c0 rest] punctuation; [reflexivity|].
    unfold pig_latin_rule. cbn [starts_with_vowel]. rewrite lower_vowel.
    destruct (is_vowel c0); [reflexivity|].
    pose proof (first_vowel_split (String c0 rest) 0) as S. cbn zeta in S.
    rewrite S.
    destruct (first_vowel_from 0 (str_lower (String c0 rest))) as [j|];
      [rewrite Nat.sub_0_r|]; reflexivity. }
  destruct (last_char word) as [c|]; [destruct (mem_char c ".,!?;:")|]; apply R.
Qed.

(** C3, as amended.  For every text whose characters are code points U+0000
    to U+00FF (the strings of this development, on which [str.lower()] maps
    one character to one character), [transform_text(text, "pig_latin")] maps
    each whitespace-delimited word by the rule: a trailing punctuation character
    from [.,!?;:] is detached and reattached; a word that starts with a vowel
    gets ["way"]; otherwise the consonant cluster before the first vowel moves
    to the end and ["ay"] is appended (the whole word when it has no vowel);
    a word that is empty once the punctuation is detached is left as it is;
    the words are joined with single spaces.  And
    [transform("Hello world.", "pig_latin") = "elloHay orldway."]. *)
Theorem transform_pig_latin_rule :
  (forall text : string,
      transform_text text "pig_latin"
      = inr (str_join " " (map pig_latin_word (str_split text))))
  /\ transform_text "Hello world." "pig_latin" = inr "elloHay orldway.".
Proof.
  split; [|reflexivity].
  intros text. unfold transform_text. cbn [String.eqb Ascii.eqb Bool.eqb except_400 ret].
  cbv beta. unfold ret, except_400.
  rewrite fold_append_map. cbn [app]. f_equal. f_equal.
  apply map_ext. apply pig_latin_entry_rule.
Qed.

(** The claim as stated fails on a word that is a punctuation character
    alone: the code keeps ["!"], the stated rule gives ["ay!"]. *)
Lemma transform_pig_latin_lone_punctuation :
  transform_text "!" "pig_latin" = inr "!"
  /\ pig_latin_claimed "!" = "ay!"
  /\ transform_text "!" "pig_latin" <> inr (pig_latin_claimed "!").
Proof. repeat split. discriminate. Qed.

(** ** Title case *)

Lemma iscased_ascii (c : ascii) : is_ascii c = true -> iscased c = is_letter c.
Proof.
  destruct c as [[] [] [] [] [] [] [] []]; cbn; intros H;
    try reflexivity; discriminate H.
Qed.

(** [do_title] position by position, on ASCII text. *)
Lemma do_title_get (s : string) (previous_is_cased : bool) :
  ascii_text s = true ->
  String.length (do_title previous_is_cased s) = String.length s
  /\ forall i c, String.get i s = Some c ->
       String.get i (do_title previous_is_cased s)
       = Some (if match i with
                  | O => previous_is_cased
                  | S _ => follows_letter s i
                  end
               then lower c else upper c).
Proof.
  revert previous_is_cased.
  induction s as [|c0 s IH]; intros b Hs; cbn [do_title String.length].
  - split; [reflexivity|]. intros i c H. destruct i; discriminate H.
  - cbn [ascii_text] in Hs. apply andb_true_iff in Hs as [Hc0 Hs].
    destruct (IH (iscased c0) Hs) as [Hlen Hget].
    split; [rewrite Hlen; reflexivity|].
    intros [|j] c H; cbn [String.get] in *.
    + injection H as <-. reflexivity.
    + rewrite (Hget j c H). f_equal.
      destruct j as [|j']; cbn [follows_letter String.get].
      * rewrite (iscased_ascii c0 Hc0). reflexivity.
      * reflexivity.
Qed.

(** C4, as amended.  For ASCII text, [transform_text(text, "title")] returns
    a string of the same length in which a character is upper-cased when it
    starts the text or follows a character that is not a letter, and
    lower-cased when it follows a letter: every non-letter is a word boundary,
    not whitespace only. *)
Theorem transform_title_letter_runs (text : string) :
  ascii_text text = true ->
  exists t,
    transform_text text "title" = inr t
    /\ String.length t = String.length text
    /\ forall i c, String.get i text = Some c ->
         String.get i t
         = Some (if follows_letter text i then lower c else upper c).
Proof.
  intros Hs. exists (str_title text). split; [reflexivity|].
  destruct (do_title_get text false Hs) as [Hlen Hget].
  split; [exact Hlen|].
  intros i c H. unfold str_title. rewrite (Hget i c H).
  destruct i; reflexivity.
Qed.

Lemma transform_title_letter_runs_witness :
  ascii_text "they're a-b" = true
  /\ exists t,
      transform_text "they're a-b" "title" = inr t
      /\ String.length t = String.length "they're a-b"
      /\ forall i c, String.get i "they're a-b" = Some c ->
           String.get i t
           = Some (if follows_letter "they're a-b" i then lower c else upper c).
Proof.
  split; [reflexivity|].
  apply (transform_title_letter_runs "they're a-b"). reflexivity.
Defined.

(** The claim as stated fails: in ["they're"] the letter after the apostrophe
    is capitalized although no whitespace precedes it. *)
Lemma transform_title_apostrophe :
  transform_text "they're" "title" = inr "They'Re"
  /\ title_claimed "they're" = "They're"
  /\ transform_text "they're" "title" <> inr (title_claimed "they're").
Proof. repeat split. discriminate. Qed.

(** ** Extraction: unknown kinds *)

Lemma lookup_unknown (kind : string) :
  ~ In kind valid_kinds -> lookup kind patterns = None.
Proof.
  intros H. unfold lookup, patterns.
  repeat match goal with
         | |- context [String.eqb kind ?k] =>
             destruct (String.eqb_spec kind k) as [->|_];
             [exfalso; apply H; cbn; tauto|]
         end.
  reflexivity.
Qed.

(** C9. For every text and every kind outside the five valid kinds,
    [extract_information] fails with an HTTP 400 error ([invalid_input]) whose
    message names the unknown kind and lists the valid kinds. *)
Theorem extract_unknown_kind_invalid_input (text kind : string) :
  ~ In kind valid_kinds ->
  exists h,
    extract_information text kind = inl h
    /\ status_code h = 400%Z
    /\ classify h = invalid_input
    /\ detail h
       = ("Error extracting information: Unknown extraction type '" ++ kind
          ++ "'. Available: emails, urls, phone_numbers, dates, numbers")%string
    /\ forall k, In k valid_kinds ->
         exists before after : string, detail h = (before ++ k ++ after)%string.
Proof.
  intros H. unfold extract_information. rewrite (lookup_unknown kind H).
  eexists. split; [reflexivity|]. split; [reflexivity|]. split; [reflexivity|].
  split; [reflexivity|].
  set (head := ("Error extracting information: Unknown extraction type '" ++ kind)%string).
  assert (E : forall tail : string,
             detail (mkHTTPException 400
                       ("Error extracting information: "
                        ++ exn_str (ValueError ("Unknown extraction type '" ++ kind ++ tail))))
             = (head ++ tail)%string).
  { intros tail. reflexivity. }
  intros k Hk. cbn [map fst patterns str_join]. rewrite E.
  cbn [valid_kinds In] in Hk.
  destruct Hk as [<-|[<-|[<-|[<-|[<-|[]]]]]].
  - exists (head ++ "'. Available: ")%string, ", urls, phone_numbers, dates, numbers".
    rewrite str_app_assoc. reflexivity.
  - exists (head ++ "'. Available: emails, ")%string, ", phone_numbers, dates, numbers".
    rewrite str_app_assoc. reflexivity.
  - exists (head ++ "'. Available: emails, urls, ")%string, ", dates, numbers".
    rewrite str_app_assoc. reflexivity.
  - exists (head ++ "'. Available: emails, urls, phone_numbers, ")%string, ", numbers".
    rewrite str_app_assoc. reflexivity.
  - exists (head ++ "'. Available: emails, urls, phone_numbers, dates, ")%string, EmptyString.
    rewrite str_app_assoc. reflexivity.
Qed.

Lemma extract_unknown_kind_invalid_input_witness :
  ~ In "phones" valid_kinds
  /\ exists h,
      extract_information "Call 555-123-4567" "phones" = inl h
      /\ status_code h = 400%Z
      /\ classify h = invalid_input
      /\ detail h
         = ("Error extracting information: Unknown extraction type '" ++ "phones"
            ++ "'. Available: emails, urls, phone_numbers, dates, numbers")%string
      /\ forall k, In k valid_kinds ->
           exists before after : string, detail h = (before ++ k ++ after)%string.
Proof.
  assert (N : ~ In "phones" valid_kinds).
  { cbn. intros [H|[H|[H|[H|[H|[]]]]]]; discriminate H. }
  split; [exact N|].
  apply (extract_unknown_kind_invalid_input "Call 555-123-4567" "phones" N).
Defined.

(** ** Analysis of the empty text *)

(** C10. [analyze_text("")] succeeds and returns word count 0, sentence
    count 0, paragraph count 1, both averages the integer 0, every character
    count 0, and empty longest and shortest words. *)
Theorem analyze_text_empty :
  analyze_text EmptyString
  = inr (mkAnalysis 0 0 1 (Int 0) (Int 0) (mkCharCounts 0 0 0 0 0 0)
           EmptyString EmptyString).
Proof. reflexivity. Qed.

(** ** Extraction of phone numbers *)

Module ReFacts.
Import PyStr Re.


Lemma iterate_spans (step : state -> list state) :
  (forall st st', In st' (step st) -> spans st' = spans st) ->
  forall fuel lo hi st st',
    In st' (iterate step fuel lo hi st) -> spans st' = spans st.
Proof.
  intros Hstep. induction fuel as [|f IH]; intros lo hi st st' H; cbn [iterate] in H.
  - destruct (Nat.eqb lo 0); [destruct H as [<-|[]]; reflexivity|destruct H].
  - apply in_app_or in H as [H|H].
    + assert (Hm : In st' (flat_map
                 (fun st1 => if Nat.ltb (pos st) (pos st1)
                             then iterate step f (Nat.pred lo) (option_map Nat.pred hi) st1
                             else []) (step st))).
      { destruct hi as [[|h]|]; [destruct H|exact H|exact H]. }
      apply in_flat_map in Hm as (st1 & H1 & H2).
      destruct (Nat.ltb (pos st) (pos st1)); [|destruct H2].
      rewrite (IH _ _ _ _ H2). apply Hstep. exact H1.
    + destruct (Nat.eqb lo 0); [destruct H as [<-|[]]; reflexivity|destruct H].
Qed.

(** A pattern without groups leaves the captured spans as they are. *)
Lemma run_no_group (text : list ascii) (r : regex) :
  no_group r = true ->
  forall st st', In st' (run text r st) -> spans st' = spans st.
Proof.
  induction r as [|p| |r1 IH1 r2 IH2|r1 IH1 r2 IH2|lo hi r1 IH1|i r1 IH1];
    cbn [no_group run]; intros Hng st st' H.
  - destruct H as [<-|[]]. reflexivity.
  - destruct (nth_error text (pos st)) as [c|]; [|destruct H].
    destruct (p c); [|destruct H]. destruct H as [<-|[]]. reflexivity.
  - destruct (boundary_at text (pos st)); [|destruct H].
    destruct H as [<-|[]]. reflexivity.
  - apply andb_true_iff in Hng as [N1 N2].
    apply in_flat_map in H as (st1 & H1 & H2).
    rewrite (IH2 N2 _ _ H2). apply (IH1 N1 _ _ H1).
  - apply andb_true_iff in Hng as [N1 N2].
    apply in_app_or in H as [H|H]; [apply (IH1 N1 _ _ H)|apply (IH2 N2 _ _ H)].
  - apply (iterate_spans (run text r1) (IH1 Hng) _ _ _ _ _ H).
  - discriminate Hng.
Qed.


Lemma iterate_chars (text : list ascii) (p : ascii -> bool) :
  forall fuel lo hi st st',
    In st' (iterate (run text (Char p)) fuel lo (Some hi) st) ->
    exists k, lo <= k /\ k <= hi
              /\ pos st' = pos st + k /\ spans st' = spans st
              /\ chars_at text p (pos st) k.
Proof.
  induction fuel as [|f IH]; intros lo hi st st' H; cbn [iterate] in H.
  - destruct (Nat.eqb_spec lo 0) as [->|]; [|destruct H].
    destruct H as [<-|[]]. exists 0.
    repeat split; try lia. intros i Hi. lia.
  - apply in_app_or in H as [H|H].
    + destruct hi as [|h]; [destruct H|]. cbn [option_map Nat.pred] in H.
      apply in_flat_map in H as (st1 & H1 & H2).
      cbn [run] in H1.
      destruct (nth_error text (pos st)) as [c|] eqn:Hc; [|destruct H1].
      destruct (p c) eqn:Hp; [|destruct H1]. destruct H1 as [<-|[]].
      cbn [pos] in H2. rewrite (proj2 (Nat.ltb_lt _ _) (Nat.lt_succ_diag_r _)) in H2.
      destruct (IH _ _ _ _ H2) as (k & K1 & K2 & K3 & K4 & K5).
      cbn [pos spans] in *. exists (S k).
      repeat split; try lia; try assumption.
      intros [|i] Hi.
      * exists c. rewrite Nat.add_0_r. auto.
      * destruct (K5 i ltac:(lia)) as (c' & E & Pc'). exists c'.
        rewrite <- E. split; [f_equal; lia|exact Pc'].
    + destruct (Nat.eqb_spec lo 0) as [->|]; [|destruct H].
      destruct H as [<-|[]]. exists 0.
      repeat split; try lia. intros i Hi. lia.
Qed.

(** [p{n}] consumes exactly [n] characters of class [p]. *)
Lemma run_times (text : list ascii) (p : ascii -> bool) (n : nat) (st st' : state) :
  In st' (run text (times n (Char p)) st) ->
  pos st' = pos st + n /\ spans st' = spans st /\ chars_at text p (pos st) n.
Proof.
  intros H. unfold times in H. cbn [run] in H.
  destruct (iterate_chars text p _ _ _ _ _ H) as (k & K1 & K2 & K3 & K4 & K5).
  assert (k = n) by lia. subst k. auto.
Qed.

(** A group around [p{n}] records the span of the [n] characters. *)
Lemma run_group_times (text : list ascii) (p : ascii -> bool) (i n : nat)
      (st st' : state) :
  In st' (run text (Group i (times n (Char p))) st) ->
  spans st' = (i, (pos st, pos st + n)) :: spans st
  /\ chars_at text p (pos st) n.
Proof.
  intros H. cbn [run] in H. apply in_map_iff in H as (st1 & <- & H1).
  apply run_times in H1 as (P1 & S1 & C1). cbn [spans pos].
  rewrite P1, S1. auto.
Qed.

Lemma firstn_chars (p : ascii -> bool) (n : nat) (l : list ascii) :
  (forall i, i < n -> exists c, nth_error l i = Some c /\ p c = true) ->
  List.length (firstn n l) = n /\ forallb p (firstn n l) = true.
Proof.
  revert l. induction n as [|n IH]; intros l H; [split; reflexivity|].
  destruct (H 0 ltac:(lia)) as (c & E & Pc).
  destruct l as [|c' l]; [discriminate E|]. injection E as ->.
  destruct (IH l) as [L F].
  { intros i Hi. apply (H (S i)). lia. }
  cbn [firstn List.length forallb]. rewrite L, F, Pc. split; reflexivity.
Qed.

Lemma string_of_list_length (l : list ascii) :
  String.length (string_of_list_ascii l) = List.length l.
Proof. induction l as [|c l IH]; cbn; [reflexivity|]. rewrite IH. reflexivity. Qed.

(** The text of a span of [n] characters of class [p]. *)
Lemma slice_chars (text : list ascii) (p : ascii -> bool) (a n : nat) :
  chars_at text p a n ->
  String.length (slice text a (a + n)) = n
  /\ forallb p (list_ascii_of_string (slice text a (a + n))) = true.
Proof.
  intros H. unfold slice. replace (a + n - a) with n by lia.
  destruct (firstn_chars p n (skipn a text)) as [L F].
  { intros i Hi. rewrite nth_error_skipn. apply H. exact Hi. }
  rewrite list_ascii_of_string_of_list_ascii.
  split; [|exact F].
  rewrite string_of_list_length. exact L.
Qed.

(** Every match found by the scan is the first result of a run of the
    pattern from some position, with no span captured before. *)
Lemma scan_from_run (text : list ascii) (r : regex) :
  forall fuel p m, In m (scan text r fuel p) ->
    exists p0 st, In st (run text r (mkState p0 []))
                  /\ m_spans m = spans st.
Proof.
  induction fuel as [|f IH]; intros p m H; cbn [scan] in H; [destruct H|].
  destruct (Nat.ltb (List.length text) p); [destruct H|].
  destruct (run text r (mkState p [])) as [|st rest] eqn:R.
  - apply (IH _ _ H).
  - destruct H as [<-|H]; [|apply (IH _ _ H)].
    exists p, st. rewrite R. split; [left; reflexivity|reflexivity].
Qed.

(** ** The fuel of the matcher *)

Lemma flat_map_agree {A B} (f g : A -> list B) (l : list A) :
  (forall x, In x l -> f x = g x) -> flat_map f l = flat_map g l.
Proof.
  induction l as [|a l IH]; intros H; cbn [flat_map]; [reflexivity|].
  rewrite (H a (or_introl eq_refl)), IH; [reflexivity|].
  intros x Hx. apply H. right. exact Hx.
Qed.

Lemma iterate_S (step : state -> list state) (f lo : nat) (hi : option nat)
      (st : state) :
  iterate step (S f) lo hi st
  = match hi with
    | Some O => []
    | _ => flat_map
             (fun st' =>
                if Nat.ltb (pos st) (pos st')
                then iterate step f (Nat.pred lo) (option_map Nat.pred hi) st'
                else [])
             (step st)
    end ++ (if Nat.eqb lo 0 then [st] else []).
Proof. reflexivity. Qed.

(** Once the fuel exceeds the number of characters left, one more unit of
    fuel changes nothing: the loop never stops for lack of fuel. *)
Lemma iterate_enough_fuel (text : list ascii) (step : state -> list state) :
  within text step ->
  forall fuel lo hi st,
    pos st <= List.length text -> List.length text - pos st < fuel ->
    iterate step fuel lo hi st = iterate step (S fuel) lo hi st.
Proof.
  intros Hstep. induction fuel as [|f IH]; intros lo hi st Hpos Hfuel; [lia|].
  rewrite (iterate_S step f), (iterate_S step (S f)). f_equal.
  assert (E : forall st', In st' (step st) ->
            (if Nat.ltb (pos st) (pos st')
             then iterate step f (Nat.pred lo) (option_map Nat.pred hi) st' else [])
            = (if Nat.ltb (pos st) (pos st')
               then iterate step (S f) (Nat.pred lo) (option_map Nat.pred hi) st' else [])).
  { intros st' Hst'. destruct (Nat.ltb_spec (pos st) (pos st')) as [Hlt|Hge]; [|reflexivity].
    pose proof (Hstep st st' Hst' Hpos). apply IH; lia. }
  destruct hi as [[|h]|]; [reflexivity| |]; apply flat_map_agree; exact E.
Qed.

Lemma iterate_within (text : list ascii) (step : state -> list state) :
  within text step ->
  forall fuel lo hi, within text (iterate step fuel lo hi).
Proof.
  intros Hstep. unfold within in *.
  induction fuel as [|f IH]; intros lo hi st st' H Hpos; cbn [iterate] in H.
  - destruct (Nat.eqb lo 0); [destruct H as [<-|[]]; exact Hpos|destruct H].
  - apply in_app_or in H as [H|H].
    + assert (Hm : In st' (flat_map
                 (fun st1 => if Nat.ltb (pos st) (pos st1)
                             then iterate step f (Nat.pred lo) (option_map Nat.pred hi) st1
                             else []) (step st))).
      { destruct hi as [[|h]|]; [destruct H|exact H|exact H]. }
      apply in_flat_map in Hm as (st1 & H1 & H2).
      destruct (Nat.ltb (pos st) (pos st1)); [|destruct H2].
      apply (IH _ _ _ _ H2). apply (Hstep _ _ H1 Hpos).
    + destruct (Nat.eqb lo 0); [destruct H as [<-|[]]; exact Hpos|destruct H].
Qed.

(** A match never runs past the end of the text. *)
Lemma run_within (text : list ascii) (r : regex) : within text (run text r).
Proof.
  unfold within.
  induction r as [|p| |r1 IH1 r2 IH2|r1 IH1 r2 IH2|lo hi r1 IH1|i r1 IH1];
    intros st st' H Hpos; cbn [run] in H.
  - destruct H as [<-|[]]. exact Hpos.
  - destruct (nth_error text (pos st)) as [c|] eqn:E; [|destruct H].
    destruct (p c); [|destruct H]. destruct H as [<-|[]]. cbn [pos].
    assert (pos st < List.length text); [|lia].
    apply nth_error_Some. congruence.
  - destruct (boundary_at text (pos st)); [|destruct H].
    destruct H as [<-|[]]. exact Hpos.
  - apply in_flat_map in H as (st1 & H1 & H2).
    apply (IH2 _ _ H2). apply (IH1 _ _ H1 Hpos).
  - apply in_app_or in H as [H|H]; [apply (IH1 _ _ H Hpos)|apply (IH2 _ _ H Hpos)].
  - apply (iterate_within text (run text r1) IH1 _ _ _ _ _ H Hpos).
  - apply in_map_iff in H as (st1 & <- & H1). cbn [pos]. apply (IH1 _ _ H1 Hpos).
Qed.

(** The fuel of a loop in [run] is enough: more fuel gives the same
    matches. *)
Lemma repeat_fuel_enough (text : list ascii) (r : regex) (lo : nat)
      (hi : option nat) (st : state) (extra : nat) :
  pos st <= List.length text ->
  run text (Repeat lo hi r) st
  = iterate (run text r) (S (List.length text) + extra) lo hi st.
Proof.
  intros Hpos. cbn [run]. induction extra as [|k IH].
  - rewrite Nat.add_0_r. reflexivity.
  - rewrite IH. replace (S (List.length text) + S k) with (S (S (List.length text) + k)) by lia.
    apply (iterate_enough_fuel text); [apply run_within|exact Hpos|lia].
Qed.

Lemma scan_S (text : list ascii) (r : regex) (f p : nat) :
  scan text r (S f) p
  = if Nat.ltb (List.length text) p then []
    else match run text r (mkState p []) with
         | st :: _ =>
             mkMatch p (pos st) (spans st)
             :: scan text r f (if Nat.ltb p (pos st) then pos st else S p)
         | [] => scan text r f (S p)
         end.
Proof. reflexivity. Qed.

(** The fuel of the scan is enough as well. *)
Lemma scan_enough_fuel (text : list ascii) (r : regex) :
  forall fuel p, List.length text < fuel + p ->
    scan text r fuel p = scan text r (S fuel) p.
Proof.
  induction fuel as [|f IH]; intros p Hfuel.
  - cbn [scan]. rewrite (proj2 (Nat.ltb_lt _ _)) by lia. reflexivity.
  - rewrite (scan_S text r f), (scan_S text r (S f)).
    destruct (Nat.ltb (List.length text) p); [reflexivity|].
    destruct (run text r (mkState p [])) as [|st rest].
    + apply IH. lia.
    + f_equal. apply IH. destruct (Nat.ltb_spec p (pos st)); lia.
Qed.
(** ** The phone pattern *)

(** The three groups of a match of the phone pattern. *)
Lemma phone_groups (text : list ascii) (st st' : state) :
  spans st = [] ->
  In st' (run text phone_numbers_pattern st) ->
  exists a b c,
    spans st' = [(3, (c, c + 4)); (2, (b, b + 3)); (1, (a, a + 3))]
    /\ chars_at text digit a 3 /\ chars_at text digit b 3 /\ chars_at text digit c 4.
Proof.
  intros S0 H. unfold phone_numbers_pattern in H. cbn [seqs] in H.
  cbn [run] in H.
  repeat match type of H with
         | In _ (flat_map _ _) =>
             let s := fresh "s" in
             let Hs := fresh "Hs" in
             apply in_flat_map in H as (s & Hs & H)
         end.
  change (In s (run text WordBoundary st)) in Hs.
  change (In s0 (run text (opt (seqs [opt (chr "+"); chr "1"; opt separator])) s)) in Hs0.
  change (In s1 (run text (opt (chr "(")) s0)) in Hs1.
  change (In s2 (run text (Group 1 (times 3 (Char digit))) s1)) in Hs2.
  change (In s3 (run text (opt (chr ")")) s2)) in Hs3.
  change (In s4 (run text (opt separator) s3)) in Hs4.
  change (In s5 (run text (Group 2 (times 3 (Char digit))) s4)) in Hs5.
  change (In s6 (run text (opt separator) s5)) in Hs6.
  change (In s7 (run text (Group 3 (times 4 (Char digit))) s6)) in Hs7.
  change (In st' (run text WordBoundary s7)) in H.
  apply run_no_group in Hs; [|reflexivity].
  apply run_no_group in Hs0; [|reflexivity].
  apply run_no_group in Hs1; [|reflexivity].
  apply run_group_times in Hs2 as [G1 C1].
  apply run_no_group in Hs3; [|reflexivity].
  apply run_no_group in Hs4; [|reflexivity].
  apply run_group_times in Hs5 as [G2 C2].
  apply run_no_group in Hs6; [|reflexivity].
  apply run_group_times in Hs7 as [G3 C3].
  apply run_no_group in H; [|reflexivity].
  exists (pos s1), (pos s4), (pos s6).
  split; [|auto].
  rewrite H, G3, Hs6, G2, Hs4, Hs3, G1, Hs1, Hs0, Hs, S0. reflexivity.
Qed.

End ReFacts.

Import ReFacts.

Module PhoneFacts.

(** A group around [p{n}] ends [n] characters further. *)
Lemma run_group_pos (text : list ascii) (p : ascii -> bool) (i n : nat)
      (st st' : state) :
  In st' (run text (Group i (times n (Char p))) st) -> pos st' = pos st + n.
Proof.
  intros H. cbn [run] in H. apply in_map_iff in H as (st1 & <- & H1).
  apply run_times in H1 as (P1 & _ & _). exact P1.
Qed.

(** An optional character takes at most one character. *)
Lemma run_opt_char (text : list ascii) (p : ascii -> bool) (st st' : state) :
  In st' (run text (opt (Char p)) st) -> pos st <= pos st' <= pos st + 1.
Proof.
  intros H. unfold opt in H. cbn [run] in H.
  destruct (iterate_chars text p _ _ _ _ _ H) as (k & _ & K2 & K3 & _). lia.
Qed.

(** A word boundary takes none. *)
Lemma run_boundary (text : list ascii) (st st' : state) :
  In st' (run text WordBoundary st) -> pos st' = pos st.
Proof.
  cbn [run]. destruct (boundary_at text (pos st)); intros H; [|destruct H].
  destruct H as [<-|[]]. reflexivity.
Qed.

(** An optional pattern takes at most what the pattern takes. *)
Lemma run_opt_width (text : list ascii) (r : regex) (w : nat) :
  (forall st st', In st' (run text r st) -> pos st' <= pos st + w) ->
  forall st st', In st' (run text (opt r) st) -> pos st <= pos st' <= pos st + w.
Proof.
  intros Hr st st' H. unfold opt in H. cbn [run] in H.
  rewrite iterate_S in H. apply in_app_or in H as [H|H].
  - apply in_flat_map in H as (st1 & H1 & H2).
    destruct (Nat.ltb_spec (pos st) (pos st1)) as [L|L]; [|destruct H2].
    pose proof (Hr _ _ H1) as B.
    assert (E : st' = st1).
    { cbn [Nat.pred option_map] in H2. revert H2. clear.
      destruct (List.length text) as [|n]; cbn [iterate Nat.eqb app];
        intros [<-|[]]; reflexivity. }
    subst st'. lia.
  - cbn [Nat.eqb] in H. destruct H as [<-|[]]. lia.
Qed.

(** The optional country code [(?:\+?1[-.\s]?)?] takes at most three
    characters. *)
Lemma run_country_code (text : list ascii) (st st' : state) :
  In st' (run text (opt (seqs [opt (chr "+"); chr "1"; opt separator])) st) ->
  pos st <= pos st' <= pos st + 3.
Proof.
  apply run_opt_width. clear st st'. intros st st' H.
  cbn [seqs run] in H.
  apply in_flat_map in H as (s1 & H1 & H).
  apply in_flat_map in H as (s2 & H2 & H).
  change (In s1 (run text (opt (Char (Ascii.eqb "+"))) st)) in H1.
  change (In st' (run text (opt separator) s2)) in H.
  apply run_opt_char in H1. apply run_opt_char in H.
  unfold chr in H2. cbn [run] in H2.
  destruct (nth_error text (pos s1)) as [c|]; [|destruct H2].
  destruct (Ascii.eqb "1" c); [|destruct H2]. destruct H2 as [<-|[]].
  cbn [pos] in H. lia.
Qed.

(** A match of the phone pattern: where its three groups lie. *)
Lemma phone_match (text : list ascii) (st st' : state) :
  spans st = [] ->
  In st' (run text phone_numbers_pattern st) ->
  exists a b c,
    (pos st <= a <= pos st + 4)
    /\ (a + 3 <= b <= a + 5)
    /\ (b + 3 <= c <= b + 4)
    /\ c + 4 = pos st'
    /\ spans st' = [(3, (c, c + 4)); (2, (b, b + 3)); (1, (a, a + 3))]
    /\ chars_at text digit a 3 /\ chars_at text digit b 3 /\ chars_at text digit c 4.
Proof.
  intros S0 H. unfold phone_numbers_pattern in H. cbn [seqs] in H.
  cbn [run] in H.
  repeat match type of H with
         | In _ (flat_map _ _) =>
             let s := fresh "s" in
             let Hs := fresh "Hs" in
             apply in_flat_map in H as (s & Hs & H)
         end.
  change (In s (run text WordBoundary st)) in Hs.
  change (In s0 (run text (opt (seqs [opt (chr "+"); chr "1"; opt separator])) s)) in Hs0.
  change (In s1 (run text (opt (Char (Ascii.eqb "("))) s0)) in Hs1.
  change (In s2 (run text (Group 1 (times 3 (Char digit))) s1)) in Hs2.
  change (In s3 (run text (opt (Char (Ascii.eqb ")"))) s2)) in Hs3.
  change (In s4 (run text (opt separator) s3)) in Hs4.
  change (In s5 (run text (Group 2 (times 3 (Char digit))) s4)) in Hs5.
  change (In s6 (run text (opt separator) s5)) in Hs6.
  change (In s7 (run text (Group 3 (times 4 (Char digit))) s6)) in Hs7.
  change (In st' (run text WordBoundary s7)) in H.
  pose proof (run_boundary _ _ _ Hs) as P.
  pose proof (run_country_code _ _ _ Hs0) as P0.
  pose proof (run_opt_char _ _ _ _ Hs1) as P1.
  pose proof (run_group_pos _ _ _ _ _ _ Hs2) as P2.
  pose proof (run_opt_char _ _ _ _ Hs3) as P3.
  pose proof (run_opt_char _ _ _ _ Hs4) as P4.
  pose proof (run_group_pos _ _ _ _ _ _ Hs5) as P5.
  pose proof (run_opt_char _ _ _ _ Hs6) as P6.
  pose proof (run_group_pos _ _ _ _ _ _ Hs7) as P7.
  pose proof (run_boundary _ _ _ H) as P8.
  apply run_no_group in Hs; [|reflexivity].
  apply run_no_group in Hs0; [|reflexivity].
  apply run_no_group in Hs1; [|reflexivity].
  apply run_group_times in Hs2 as [G1 C1].
  apply run_no_group in Hs3; [|reflexivity].
  apply run_no_group in Hs4; [|reflexivity].
  apply run_group_times in Hs5 as [G2 C2].
  apply run_no_group in Hs6; [|reflexivity].
  apply run_group_times in Hs7 as [G3 C3].
  apply run_no_group in H; [|reflexivity].
  exists (pos s1), (pos s4), (pos s6).
  split; [lia|]. split; [lia|]. split; [lia|]. split; [lia|].
  split; [|auto].
  rewrite H, G3, Hs6, G2, Hs4, Hs3, G1, Hs1, Hs0, Hs, S0. reflexivity.
Qed.

(** The scan reports one match per successful run, with the span and the
    captures of the first result of that run. *)
Lemma scan_matches (text : list ascii) (r : regex) (P : rmatch -> Prop) :
  (forall p st, In st (run text r (mkState p [])) ->
                P (mkMatch p (pos st) (spans st))) ->
  forall fuel p, Forall P (scan text r fuel p).
Proof.
  intros H. induction fuel as [|f IH]; intros p; cbn [scan]; [constructor|].
  destruct (Nat.ltb (List.length text) p); [constructor|].
  destruct (run text r (mkState p [])) as [|st rest] eqn:R; [apply IH|].
  constructor; [|apply IH]. apply H. rewrite R. left. reflexivity.
Qed.

Lemma Forall2_map_self {A B} (R : A -> B -> Prop) (f : A -> B) (l : list A) :
  Forall (fun x => R x (f x)) l -> Forall2 R l (map f l).
Proof. induction 1; cbn [map]; constructor; assumption. Qed.

Lemma Forall2_right {A B} (R : A -> B -> Prop) (Q : B -> Prop)
      (l : list A) (l' : list B) :
  Forall2 R l l' -> (forall x y, R x y -> Q y) -> Forall Q l'.
Proof. intros H HQ. induction H; constructor; eauto. Qed.

End PhoneFacts.

(** C8. [extract_information(text, "phone_numbers")] returns, for every text,
    one entry for each match of the phone pattern in the text, in the order of
    the matches, and the entry of a match is rebuilt from the three captured
    groups of that match: three runs of 3, 3 and 4 digits of the text, lying in
    this order inside the span of the match, laid out as [(XXX) XXX-XXXX]; so
    every entry has that display form.  On
    ["Call 555-123-4567 or (555) 123-4567"] it returns exactly two entries,
    both ["(555) 123-4567"]. *)
Theorem extract_phone_numbers_display_form :
  (forall text : string,
      exists found : list string,
        extract_information text "phone_numbers" = inr found
        /\ Forall2 (phone_entry (list_ascii_of_string text))
                   (finditer phone_numbers_pattern text) found
        /\ Forall phone_display found)
  /\ extract_information "Call 555-123-4567 or (555) 123-4567" "phone_numbers"
     = inr ["(555) 123-4567"; "(555) 123-4567"].
Proof.
  split; [|vm_compute; reflexivity].
  intros text. eexists. split; [reflexivity|].
  set (t := list_ascii_of_string text).
  assert (E : Forall2 (phone_entry t) (finditer phone_numbers_pattern text)
                (map format_phone (findall_groups 3 phone_numbers_pattern text))).
  { unfold findall_groups. rewrite map_map.
    apply PhoneFacts.Forall2_map_self. unfold finditer. fold t.
    apply PhoneFacts.scan_matches. intros p st Hrun.
    apply PhoneFacts.phone_match in Hrun
      as (a & b & c & Ia & Ib & Ic & Ie & Sp & Ca & Cb & Cc); [|reflexivity].
    cbn [pos] in Ia. exists a, b, c. cbn [m_start m_end m_spans].
    repeat (split; [assumption|]).
    rewrite Sp. cbn [map seq group Nat.eqb format_phone nth]. reflexivity. }
  split; [exact E|].
  apply (PhoneFacts.Forall2_right _ _ _ _ E). intros m s (a & b & c & H).
  destruct H as (_ & _ & _ & _ & _ & Ca & Cb & Cc & ->).
  destruct (slice_chars t digit a 3 Ca) as [La Da].
  destruct (slice_chars t digit b 3 Cb) as [Lb Db].
  destruct (slice_chars t digit c 4 Cc) as [Lc Dc].
  exists (slice t a (a + 3)), (slice t b (b + 3)), (slice t c (c + 4)).
  unfold all_digits. repeat split; assumption || reflexivity.
Qed.

(* ================================================================== *)
(** * Further properties of the numeric operations *)
(* ================================================================== *)

Module RoundFacts.
Local Open Scope Z_scope.

Lemma shr_1_nonneg (mrs : shr_record) : 0 <= shr_m mrs -> 0 <= shr_m (shr_1 mrs).
Proof.
  destruct mrs as [m r s]. cbn [shr_m]. intros H.
  destruct m as [|[p|p|]|p]; cbn; lia.
Qed.

Lemma iter_shr_1_nonneg (p : positive) (mrs : shr_record) :
  0 <= shr_m mrs -> 0 <= shr_m (iter_pos shr_1 p mrs).
Proof.
  revert mrs. induction p as [p IH|p IH|]; intros mrs H; cbn [iter_pos].
  - apply IH, IH, shr_1_nonneg, H.
  - apply IH, IH, H.
  - apply shr_1_nonneg, H.
Qed.

Lemma shr_fexp_nonneg (m e : Z) (l : location) :
  0 <= m -> 0 <= shr_m (fst (shr_fexp prec emax m e l)).
Proof.
  intros H. unfold shr_fexp, shr.
  assert (R : shr_m (shr_record_of_loc m l) = m) by (destruct l as [|[]]; reflexivity).
  destruct (fexp prec emax (Zdigits2 m + e) - e) as [|p|p]; cbn [fst]; try lia.
  apply iter_shr_1_nonneg. lia.
Qed.

Lemma round_nearest_even_nonneg (m : Z) (l : location) :
  0 <= m -> 0 <= round_nearest_even m l.
Proof.
  intros H. destruct l as [|[]]; cbn [round_nearest_even]; try lia.
  destruct (Z.even m); lia.
Qed.

(** Rounding a non-negative significand never gives a NaN. *)
Lemma binary_round_aux_not_nan (sx : bool) (mx ex : Z) (lx : location) :
  0 <= mx -> is_nan (binary_round_aux prec emax sx mx ex lx) = false.
Proof.
  intros H. unfold binary_round_aux.
  pose proof (shr_fexp_nonneg mx ex lx H) as H1.
  destruct (shr_fexp prec emax mx ex lx) as [mrs' e']. cbn [fst] in H1.
  pose proof (round_nearest_even_nonneg (shr_m mrs') (loc_of_shr_record mrs') H1) as H2.
  pose proof (shr_fexp_nonneg _ e' loc_Exact H2) as H3.
  destruct (shr_fexp prec emax (round_nearest_even (shr_m mrs') (loc_of_shr_record mrs'))
              e' loc_Exact) as [mrs'' e''].
  cbn [fst] in H3.
  destruct (shr_m mrs'') as [|m|m]; [reflexivity| |lia].
  destruct (e'' <=? emax - prec); reflexivity.
Qed.

Lemma sqrtrem_nonneg (n : Z) : 0 <= fst (Z.sqrtrem n).
Proof.
  destruct n as [|p|p]; cbn; try lia.
  destruct (Pos.sqrtrem p) as [s [|r|]]; cbn; lia.
Qed.

(** [math.sqrt] raises only on a negative number or on minus infinity. *)
Lemma math_sqrt_returns (x : float) :
  match x with
  | S754_finite true _ _ | S754_infinity true => False
  | _ => True
  end ->
  exists r, math_sqrt x = inr r.
Proof.
  intros H. unfold math_sqrt.
  destruct x as [s|[|]| |[|] m e]; try contradiction; try (eexists; reflexivity).
  assert (N : is_nan (SFsqrt prec emax (S754_finite false m e)) = false).
  { unfold SFsqrt, SFsqrt_core_binary.
    match goal with
    | |- context [Z.sqrtrem ?t] =>
        pose proof (sqrtrem_nonneg t) as Q; destruct (Z.sqrtrem t) as [q r]
    end.
    cbn [fst] in Q. apply binary_round_aux_not_nan, Q. }
  rewrite N. eexists. reflexivity.
Qed.

End RoundFacts.

Import RoundFacts.

Module DoubleFacts.
Local Open Scope Z_scope.

Lemma shr_1_half (mrs : shr_record) :
  0 <= shr_m mrs -> shr_m (shr_1 mrs) = shr_m mrs / 2.
Proof.
  destruct mrs as [m r s]. cbn [shr_m]. intros H.
  rewrite <- Z.div2_div. destruct m as [|[p|p|]|p]; try reflexivity; lia.
Qed.

Lemma iter_shr_1_div (p : positive) (mrs : shr_record) :
  0 <= shr_m mrs -> shr_m (iter_pos shr_1 p mrs) = shr_m mrs / 2 ^ Zpos p.
Proof.
  revert mrs. induction p as [p IH|p IH|]; intros mrs H; cbn [iter_pos].
  - pose proof (shr_1_nonneg mrs H) as H1.
    pose proof (iter_shr_1_nonneg p _ H1) as H2.
    rewrite (IH _ H2), (IH _ H1), (shr_1_half mrs H).
    assert (P : 0 < 2 ^ Zpos p) by (apply pow2_pos; lia).
    rewrite !Z.div_div by lia. f_equal.
    replace (Zpos p~1) with (1 + Zpos p + Zpos p) by lia.
    rewrite !Z.pow_add_r by lia. change (2 ^ 1) with 2. ring.
  - pose proof (iter_shr_1_nonneg p _ H) as H2.
    rewrite (IH _ H2), (IH _ H).
    assert (P : 0 < 2 ^ Zpos p) by (apply pow2_pos; lia).
    rewrite Z.div_div by lia. f_equal.
    replace (Zpos p~0) with (Zpos p + Zpos p) by lia.
    rewrite Z.pow_add_r by lia. reflexivity.
  - rewrite (shr_1_half mrs H). reflexivity.
Qed.

Lemma digits_lower (m : Z) : 0 < m -> 2 ^ (Zdigits2 m - 1) <= m.
Proof.
  destruct m as [|p|p]; try lia. intros _. cbn [Zdigits2].
  apply (digits2_pos_bounds p).
Qed.

Lemma digits_pos (m : Z) : 0 < m -> 1 <= Zdigits2 m.
Proof. destruct m as [|p|p]; try lia. intros _. cbn [Zdigits2]. lia. Qed.

(** A positive significand above the smallest exponent is not shifted away. *)
Lemma shr_fexp_pos (m e : Z) (l : location) :
  0 < m -> SpecFloat.emin prec emax < Zdigits2 m + e ->
  0 < shr_m (fst (shr_fexp prec emax m e l))
  /\ SpecFloat.emin prec emax <= snd (shr_fexp prec emax m e l).
Proof.
  intros Hm He. unfold shr_fexp, shr.
  assert (R : shr_m (shr_record_of_loc m l) = m) by (destruct l as [|[]]; reflexivity).
  pose proof (digits_lower m Hm) as D. pose proof (digits_pos m Hm) as D1.
  set (d := Zdigits2 m) in *.
  change (SpecFloat.emin prec emax) with (-1074) in *.
  assert (F : fexp prec emax (d + e) = Z.max (d + e - 53) (-1074)) by reflexivity.
  set (n := fexp prec emax (d + e) - e).
  assert (Hn : n < d) by (subst n; rewrite F; lia).
  assert (Hf : -1074 <= fexp prec emax (d + e)) by (rewrite F; lia).
  destruct n as [|p|p] eqn:En; cbn [fst snd].
  - rewrite R. split; [lia|]. subst n. lia.
  - split; [|subst n; lia].
    rewrite iter_shr_1_div by lia. rewrite R.
    apply Z.div_str_pos. split; [apply pow2_pos; lia|].
    apply Z.le_trans with (2 ^ (d - 1)); [|exact D].
    apply Z.pow_le_mono_r; lia.
  - rewrite R. split; [lia|]. subst n. lia.
Qed.

(** Rounding does not underflow to zero in that case. *)
Lemma binary_round_aux_nonzero (sx : bool) (mx ex : Z) (lx : location) :
  0 < mx -> SpecFloat.emin prec emax < Zdigits2 mx + ex ->
  is_zero (binary_round_aux prec emax sx mx ex lx) = false.
Proof.
  intros Hm He. unfold binary_round_aux.
  destruct (shr_fexp_pos mx ex lx Hm He) as [P1 E1].
  destruct (shr_fexp prec emax mx ex lx) as [mrs' e']. cbn [fst snd] in P1, E1.
  assert (P2 : 0 < round_nearest_even (shr_m mrs') (loc_of_shr_record mrs')).
  { destruct (loc_of_shr_record mrs') as [|[]]; cbn [round_nearest_even]; try lia.
    destruct (Z.even (shr_m mrs')); lia. }
  pose proof (digits_pos _ P2) as D2.
  assert (E2 : SpecFloat.emin prec emax
               < Zdigits2 (round_nearest_even (shr_m mrs') (loc_of_shr_record mrs')) + e')
    by lia.
  destruct (shr_fexp_pos _ e' loc_Exact P2 E2) as [P3 _].
  destruct (shr_fexp prec emax (round_nearest_even (shr_m mrs') (loc_of_shr_record mrs'))
              e' loc_Exact) as [mrs'' e''].
  cbn [fst] in P3.
  destruct (shr_m mrs'') as [|m|m]; [lia| |reflexivity].
  destruct (e'' <=? emax - prec); reflexivity.
Qed.

(** [2 * a] is zero only when [a] is. *)
Lemma twice_is_zero (a : float) :
  valid a = true -> is_zero (fmul (lit 2) a) = is_zero a.
Proof.
  intros V. destruct a as [s|s| |s m e]; try reflexivity.
  apply valid_finite_inv in V as (Hm & He & _).
  change (lit 2) with (S754_finite false 4503599627370496 (-51)).
  unfold fmul, SFmul. cbn [is_zero].
  apply binary_round_aux_nonzero; [lia|].
  assert (D : 53 <= Zdigits2 (Zpos (4503599627370496 * m))).
  { cbn [Zdigits2].
    pose proof (digits2_pos_bounds (4503599627370496 * m)) as [_ B].
    destruct (Z.le_gt_cases 53 (Zpos (digits2_pos (4503599627370496 * m)))) as [G|G];
      [exact G|exfalso].
    assert (2 ^ Zpos (digits2_pos (4503599627370496 * m)) <= 2 ^ 52)
      by (apply Z.pow_le_mono_r; lia).
    change (2 ^ 52) with 4503599627370496 in *. lia. }
  change (SpecFloat.emin prec emax) with (-1074). unfold unit_exp in He. lia.
Qed.

End DoubleFacts.

Import DoubleFacts.

Module QuadraticFacts.

Lemma positive_shape (d : float) :
  fltb (lit 0) d = true ->
  match d with
  | S754_finite true _ _ | S754_infinity true => False
  | _ => True
  end.
Proof. destruct d as [s|[|]| |[|] m e]; cbn; intros H; try exact I; discriminate H. Qed.

Lemma negated_shape (d : float) :
  fltb (lit 0) d = false -> feqb d (lit 0) = false ->
  match fneg d with
  | S754_finite true _ _ | S754_infinity true => False
  | _ => True
  end.
Proof.
  destruct d as [s|[|]| |[|] m e]; cbn; intros H1 H2; try exact I; discriminate.
Qed.

Lemma fdiv_returns (x y : float) :
  is_zero y = false -> fdiv x y = inr (SFdiv prec emax x y).
Proof. intros H. unfold fdiv. rewrite H. reflexivity. Qed.

Lemma fdiv_raises (x y : float) :
  is_zero y = true -> fdiv x y = inl (ZeroDivisionError "float division by zero").
Proof. intros H. unfold fdiv. rewrite H. reflexivity. Qed.

End QuadraticFacts.

Import QuadraticFacts.

(** X1.  For a well-formed [a], [solve_quadratic] returns a result exactly when
    [b ** 2] does not overflow and [a] is not zero: the divisor [2 * a] is
    zero only when [a] is, and [math.sqrt] is never called on a negative
    number, so the ["math domain error"] cannot occur. *)
Theorem solve_quadratic_returns_iff
  (platform_pow : float -> float -> py float) (a b c : float) :
  valid a = true ->
  ((exists r, solve_quadratic platform_pow a b c = inr r)
   <-> ((exists b2, float_pow2 platform_pow b = inr b2) /\ is_zero a = false)).
Proof.
  intros V. rewrite <- (twice_is_zero a V).
  unfold solve_quadratic. split.
  - intros [r H]. apply except_400_inr in H.
    apply bind_inr in H as (b2 & Hb2 & H). split; [eauto|].
    destruct (is_zero (fmul (lit 2) a)) eqn:Z; [exfalso|reflexivity].
    destruct (fltb (lit 0) (fsub b2 (fmul (fmul (lit 4) a) c))).
    + apply bind_inr in H as (s1 & _ & H).
      rewrite fdiv_raises in H by exact Z. discriminate H.
    + destruct (feqb (fsub b2 (fmul (fmul (lit 4) a) c)) (lit 0));
        rewrite fdiv_raises in H by exact Z; discriminate H.
  - intros [[b2 Hb2] Z]. rewrite Hb2. cbn [bind].
    set (d := fsub b2 (fmul (fmul (lit 4) a) c)).
    destruct (fltb (lit 0) d) eqn:Hpos.
    + destruct (math_sqrt_returns d (positive_shape d Hpos)) as [s Hs].
      rewrite Hs. cbn [bind]. rewrite !fdiv_returns by exact Z. cbn [bind].
      eexists. reflexivity.
    + destruct (feqb d (lit 0)) eqn:Hzero.
      * rewrite fdiv_returns by exact Z. eexists. reflexivity.
      * destruct (math_sqrt_returns (fneg d) (negated_shape d Hpos Hzero)) as [s Hs].
        rewrite fdiv_returns by exact Z. cbn [bind]. rewrite Hs. cbn [bind].
        rewrite fdiv_returns by exact Z. eexists. reflexivity.
Qed.

Lemma solve_quadratic_returns_iff_witness :
  let pow := fun x y : float => @ret float (fmul x x) in
  valid (lit 1) = true
  /\ ((exists r, solve_quadratic pow (lit 1) (lit 3) (lit 2) = inr r)
      <-> ((exists b2, float_pow2 pow (lit 3) = inr b2) /\ is_zero (lit 1) = false)).
Proof.
  intros pow.
  assert (V : valid (lit 1) = true) by reflexivity.
  split; [exact V|].
  apply (solve_quadratic_returns_iff pow (lit 1) (lit 3) (lit 2) V).
Defined.

(** X2.  The three shapes of a result of [solve_quadratic]: ["real_distinct"] with
    two numbers and a discriminant above zero, ["real_repeated"] with one
    number and a discriminant equal to zero, or ["complex"] with two strings
    and a discriminant that is neither (negative, or not a number). *)
Theorem solve_quadratic_result_shape
  (platform_pow : float -> float -> py float) (a b c : float)
  (r : quadratic_result) :
  solve_quadratic platform_pow a b c = inr r ->
  (root_type r = "real_distinct" /\ fltb (lit 0) (discriminant r) = true
   /\ exists x1 x2, roots r = [RootFloat x1; RootFloat x2])
  \/ (root_type r = "real_repeated" /\ feqb (discriminant r) (lit 0) = true
      /\ exists x, roots r = [RootFloat x])
  \/ (root_type r = "complex" /\ fleb (lit 0) (discriminant r) = false
      /\ exists s1 s2, roots r = [RootStr s1; RootStr s2]).
Proof.
  unfold solve_quadratic. intros H. apply except_400_inr in H.
  apply bind_inr in H as (b2 & _ & H).
  set (d := fsub b2 (fmul (fmul (lit 4) a) c)) in *.
  destruct (fltb (lit 0) d) eqn:Hpos.
  - apply bind_inr in H as (s1 & _ & H). apply bind_inr in H as (x1 & _ & H).
    apply bind_inr in H as (s2 & _ & H). apply bind_inr in H as (x2 & _ & H).
    injection H as <-. left. cbn. split; [reflexivity|]. split; [exact Hpos|eauto].
  - destruct (feqb d (lit 0)) eqn:Hzero.
    + apply bind_inr in H as (x & _ & H). injection H as <-.
      right. left. cbn. split; [reflexivity|]. split; [exact Hzero|eauto].
    + apply bind_inr in H as (re & _ & H). apply bind_inr in H as (s & _ & H).
      apply bind_inr in H as (im & _ & H). injection H as <-.
      right. right. cbn [root_type discriminant roots].
      split; [reflexivity|]. split; [|eauto].
      clear - Hpos Hzero. revert Hpos Hzero. unfold fltb, feqb, fleb, SFltb, SFeqb, SFleb.
      assert (C : SFcompare (lit 0) d
                  = match SFcompare d (lit 0) with
                    | Some c => Some (CompOpp c) | None => None end).
      { destruct d as [s|[|]| |[|] m e]; reflexivity. }
      rewrite C. destruct (SFcompare d (lit 0)) as [[]|]; cbn; congruence.
Qed.

Lemma solve_quadratic_result_shape_witness :
  let pow := fun x y : float => @ret float (fmul x x) in
  exists r,
    solve_quadratic pow (lit 1) (lit (-3)) (lit 2) = inr r
    /\ ((root_type r = "real_distinct" /\ fltb (lit 0) (discriminant r) = true
         /\ exists x1 x2, roots r = [RootFloat x1; RootFloat x2])
        \/ (root_type r = "real_repeated" /\ feqb (discriminant r) (lit 0) = true
            /\ exists x, roots r = [RootFloat x])
        \/ (root_type r = "complex" /\ fleb (lit 0) (discriminant r) = false
            /\ exists s1 s2, roots r = [RootStr s1; RootStr s2])).
Proof.
  intros pow.
  assert (E : exists r, solve_quadratic pow (lit 1) (lit (-3)) (lit 2) = inr r)
    by (eexists; vm_compute; reflexivity).
  destruct E as [r E]. exists r. split; [exact E|].
  apply (solve_quadratic_result_shape pow (lit 1) (lit (-3)) (lit 2) r E).
Defined.

Module SignFacts.
Import RoundFacts.
Local Open Scope Z_scope.

(** Rounding a non-negative significand keeps the sign it is given. *)
Lemma binary_round_aux_sign (sx : bool) (mx ex : Z) (lx : location) :
  0 <= mx -> has_sign sx (binary_round_aux prec emax sx mx ex lx).
Proof.
  intros H. unfold binary_round_aux.
  pose proof (shr_fexp_nonneg mx ex lx H) as H1.
  destruct (shr_fexp prec emax mx ex lx) as [mrs' e']. cbn [fst] in H1.
  pose proof (round_nearest_even_nonneg (shr_m mrs') (loc_of_shr_record mrs') H1) as H2.
  pose proof (shr_fexp_nonneg _ e' loc_Exact H2) as H3.
  destruct (shr_fexp prec emax (round_nearest_even (shr_m mrs') (loc_of_shr_record mrs'))
              e' loc_Exact) as [mrs'' e''].
  cbn [fst] in H3.
  destruct (shr_m mrs'') as [|m|m]; [reflexivity| |lia].
  destruct (e'' <=? emax - prec); reflexivity.
Qed.

Lemma sqrt_sign (x : float) :
  has_sign false x -> has_sign false (SFsqrt prec emax x).
Proof.
  destruct x as [s|s| |s m e]; cbn [has_sign]; intros H; try contradiction; subst;
    try exact eq_refl.
  unfold SFsqrt, SFsqrt_core_binary.
  match goal with
  | |- context [Z.sqrtrem ?t] =>
      pose proof (sqrtrem_nonneg t) as Q; destruct (Z.sqrtrem t) as [q r]
  end.
  cbn [fst] in Q. apply binary_round_aux_sign, Q.
Qed.

Lemma twice_sign (s : bool) (a : float) :
  has_sign s a -> has_sign s (fmul (lit 2) a).
Proof.
  destruct a as [s'|s'| |s' m e]; cbn [has_sign]; intros H; try contradiction; subst;
    try exact eq_refl.
  change (lit 2) with (S754_finite false 4503599627370496 (-51)).
  unfold fmul, SFmul. apply (binary_round_aux_sign (xorb false s)). lia.
Qed.

Lemma div_eucl_nonneg (a b : Z) : 0 <= a -> 0 < b -> 0 <= fst (Z.div_eucl a b).
Proof.
  intros Ha Hb. pose proof (Z.div_pos a b Ha Hb) as H.
  unfold Z.div in H. destruct (Z.div_eucl a b). exact H.
Qed.

(** A positive number over a negative one: a NaN when both are infinite,
    negative in every other case. *)
Lemma div_sign (x y : float) :
  has_sign false x -> has_sign true y -> is_zero y = false ->
  if is_inf x && is_inf y then SFdiv prec emax x y = S754_nan
  else has_sign true (SFdiv prec emax x y).
Proof.
  destruct x as [s|s| |s m e]; cbn [has_sign]; intros Hx; try contradiction; subst;
    destruct y as [s'|s'| |s' m' e']; cbn [has_sign is_zero]; intros Hy Hz;
    try contradiction; try discriminate Hz; subst;
    try exact eq_refl.
  cbn [is_inf andb]. unfold SFdiv, SFdiv_core_binary.
  match goal with
  | |- context [Z.div_eucl ?t (Zpos m')] =>
      assert (T : 0 <= t);
      [|pose proof (div_eucl_nonneg t (Zpos m') T ltac:(lia)) as Q;
        destruct (Z.div_eucl t (Zpos m')) as [q r]]
  end.
  { match goal with
    | |- 0 <= match ?k with Z0 => _ | Zpos _ => _ | Zneg _ => _ end =>
        destruct k; [lia|apply Z.shiftl_nonneg; lia|lia]
    end. }
  cbn [fst] in Q. apply (binary_round_aux_sign (xorb false true)), Q.
Qed.

Lemma float_repr_negative (x : float) :
  has_sign true x -> exists rest, float_repr x = ("-" ++ rest)%string.
Proof.
  destruct x as [s|s| |s m e]; cbn [has_sign]; intros H; try contradiction; subst.
  - exists "0.0". reflexivity.
  - exists "inf". reflexivity.
  - cbn [float_repr]. destruct (shortest_digits m e) as [ds decpt].
    eexists. reflexivity.
Qed.

Lemma below_zero_sign (x : float) : fltb x (lit 0) = true -> has_sign true x.
Proof. destruct x as [[|]|[|]| |[|] m e]; cbn; intros H; try reflexivity; discriminate H. Qed.

Lemma negated_sign (x : float) : has_sign true x -> has_sign false (fneg x).
Proof. destruct x as [s|s| |s m e]; cbn; intros H; try contradiction; subst; reflexivity. Qed.

End SignFacts.

Import SignFacts.

(** X3.  For a negative [a] and a negative discriminant, the imaginary part
    [sqrt(-discriminant) / (2*a)] is printed with its minus sign, so that the
    two roots read ["re + -im i"] and ["re - -im i"]; the one exception is
    that it is printed ["nan"], and this exactly when [2*a] and
    [sqrt(-discriminant)] are both infinite.  The square root is infinite
    when the discriminant is, so the roots end in ["nani"] when [2*a] and the
    discriminant are both infinite, and carry the sign whenever [2*a] is
    finite.  (A finite [a] can have an infinite [2*a]: with [a = c = -1e308]
    and [b = 0] the roots are ["0.0 + nani"] and ["0.0 - nani"].) *)
Theorem solve_quadratic_negative_a_prints_sign
  (platform_pow : float -> float -> py float) (a b c : float)
  (r : quadratic_result) :
  fltb a (lit 0) = true ->
  solve_quadratic platform_pow a b c = inr r ->
  fltb (discriminant r) (lit 0) = true ->
  root_type r = "complex"
  /\ exists (re im : string) (root : float),
       roots r = [RootStr (re ++ " + " ++ im ++ "i")%string;
                  RootStr (re ++ " - " ++ im ++ "i")%string]
       /\ math_sqrt (fneg (discriminant r)) = inr root
       /\ (if is_inf (fmul (lit 2) a) && is_inf root
           then im = "nan"
           else exists rest : string, im = ("-" ++ rest)%string)
       /\ (is_inf (discriminant r) = true -> is_inf root = true).
Proof.
  intros Ha H Hd. unfold solve_quadratic in H. apply except_400_inr in H.
  apply bind_inr in H as (b2 & _ & H).
  set (d := fsub b2 (fmul (fmul (lit 4) a) c)) in *.
  assert (Hd' : fltb d (lit 0) = true).
  { destruct (fltb (lit 0) d); [|destruct (feqb d (lit 0))].
    - apply bind_inr in H as (s1 & _ & H). apply bind_inr in H as (x1 & _ & H).
      apply bind_inr in H as (s2 & _ & H). apply bind_inr in H as (x2 & _ & H).
      injection H as <-. exact Hd.
    - apply bind_inr in H as (x & _ & H). injection H as <-. exact Hd.
    - apply bind_inr in H as (re & _ & H). apply bind_inr in H as (s & _ & H).
      apply bind_inr in H as (im & _ & H). injection H as <-. exact Hd. }
  clear Hd.
  assert (P : fltb (lit 0) d = false /\ feqb d (lit 0) = false).
  { clear - Hd'. destruct d as [[|]|[|]| |[|] m e]; cbn in *; auto; discriminate Hd'. }
  destruct P as [P1 P2]. rewrite P1, P2 in H.
  apply bind_inr in H as (re & _ & H). apply bind_inr in H as (s & Hs & H).
  apply bind_inr in H as (im & Him & H). injection H as <-.
  cbn [root_type roots discriminant].
  assert (Es : s = SFsqrt prec emax (fneg d)).
  { unfold math_sqrt in Hs.
    destruct (is_nan (SFsqrt prec emax (fneg d)) && negb (is_nan (fneg d)));
      [discriminate Hs|]. injection Hs as <-. reflexivity. }
  assert (Sim : if is_inf (fmul (lit 2) a) && is_inf s
                then im = S754_nan else has_sign true im).
  { unfold fdiv in Him. destruct (is_zero (fmul (lit 2) a)) eqn:Z; [discriminate Him|].
    injection Him as <-. rewrite andb_comm.
    apply div_sign; [|apply twice_sign, below_zero_sign, Ha|exact Z].
    rewrite Es. apply sqrt_sign, negated_sign, below_zero_sign, Hd'. }
  split; [reflexivity|].
  exists (float_repr re), (float_repr im), s. split; [reflexivity|].
  split; [exact Hs|]. split.
  - destruct (is_inf (fmul (lit 2) a) && is_inf s).
    + rewrite Sim. reflexivity.
    + apply float_repr_negative, Sim.
  - rewrite Es. clear - Hd'.
    destruct d as [[|]|[|]| |[|] m e]; cbn; intros I;
      first [reflexivity | discriminate I | discriminate Hd'].
Qed.

Lemma solve_quadratic_negative_a_prints_sign_witness :
  let pow := fun x y : float => @ret float (fmul x x) in
  let big := lit (- 10 ^ 308) in
  fltb (lit (-1)) (lit 0) = true
  /\ fltb big (lit 0) = true
  /\ is_finite big = true
  /\ exists r r' : quadratic_result,
      solve_quadratic pow (lit (-1)) (lit 2) (lit (-5)) = inr r
      /\ roots r = [RootStr "1.0 + -2.0i"; RootStr "1.0 - -2.0i"]
      /\ solve_quadratic pow big (lit 0) big = inr r'
      /\ roots r' = [RootStr "0.0 + nani"; RootStr "0.0 - nani"]
      /\ (root_type r = "complex"
          /\ exists (re im : string) (root : float),
               roots r = [RootStr (re ++ " + " ++ im ++ "i")%string;
                          RootStr (re ++ " - " ++ im ++ "i")%string]
               /\ math_sqrt (fneg (discriminant r)) = inr root
               /\ (if is_inf (fmul (lit 2) (lit (-1))) && is_inf root
                   then im = "nan"
                   else exists rest : string, im = ("-" ++ rest)%string)
               /\ (is_inf (discriminant r) = true -> is_inf root = true))
      /\ (root_type r' = "complex"
          /\ exists (re im : string) (root : float),
               roots r' = [RootStr (re ++ " + " ++ im ++ "i")%string;
                           RootStr (re ++ " - " ++ im ++ "i")%string]
               /\ math_sqrt (fneg (discriminant r')) = inr root
               /\ (if is_inf (fmul (lit 2) big) && is_inf root
                   then im = "nan"
                   else exists rest : string, im = ("-" ++ rest)%string)
               /\ (is_inf (discriminant r') = true -> is_inf root = true)).
Proof.
  intros pow big.
  assert (A : fltb (lit (-1)) (lit 0) = true) by reflexivity.
  assert (B : fltb big (lit 0) = true) by (vm_compute; reflexivity).
  assert (F : is_finite big = true) by (vm_compute; reflexivity).
  assert (E : exists r,
             solve_quadratic pow (lit (-1)) (lit 2) (lit (-5)) = inr r
             /\ roots r = [RootStr "1.0 + -2.0i"; RootStr "1.0 - -2.0i"]
             /\ fltb (discriminant r) (lit 0) = true)
    by (eexists; split; [|split]; vm_compute; reflexivity).
  assert (E' : exists r,
             solve_quadratic pow big (lit 0) big = inr r
             /\ roots r = [RootStr "0.0 + nani"; RootStr "0.0 - nani"]
             /\ fltb (discriminant r) (lit 0) = true)
    by (eexists; split; [|split]; vm_compute; reflexivity).
  destruct E as [r [E [R D]]]. destruct E' as [r' [E' [R' D']]].
  split; [exact A|]. split; [exact B|]. split; [exact F|]. exists r, r'.
  split; [exact E|]. split; [exact R|]. split; [exact E'|]. split; [exact R'|].
  split.
  - apply (solve_quadratic_negative_a_prints_sign pow (lit (-1)) (lit 2) (lit (-5)) r A E D).
  - apply (solve_quadratic_negative_a_prints_sign pow big (lit 0) big r' B E' D').
Defined.

(** X4.  A coefficient that is not a number never fails by itself: when
    [solve_quadratic] returns on such coefficients, the discriminant is not a
    number and the root type is ["complex"]. *)
Theorem solve_quadratic_nan_is_complex
  (platform_pow : float -> float -> py float) (a b c : float)
  (r : quadratic_result) :
  is_nan a = true \/ is_nan b = true \/ is_nan c = true ->
  solve_quadratic platform_pow a b c = inr r ->
  is_nan (discriminant r) = true /\ root_type r = "complex".
Proof.
  intros N H. unfold solve_quadratic in H. apply except_400_inr in H.
  apply bind_inr in H as (b2 & Hb2 & H).
  assert (D : fsub b2 (fmul (fmul (lit 4) a) c) = S754_nan).
  { destruct N as [N|[N|N]].
    - destruct a; try discriminate N. destruct b2, c; reflexivity.
    - destruct b; try discriminate N. cbn in Hb2. injection Hb2 as <-. reflexivity.
    - destruct c; try discriminate N.
      destruct (fmul (lit 4) a); destruct b2; reflexivity. }
  rewrite D in H.
  change (fltb (lit 0) S754_nan) with false in H.
  change (feqb S754_nan (lit 0)) with false in H. cbv iota in H.
  apply bind_inr in H as (re & _ & H). apply bind_inr in H as (s & _ & H).
  apply bind_inr in H as (im & _ & H). injection H as <-. split; reflexivity.
Qed.

Lemma solve_quadratic_nan_is_complex_witness :
  let pow := fun x y : float => @ret float (fmul x x) in
  (is_nan (lit 1) = true \/ is_nan (lit 2) = true \/ is_nan S754_nan = true)
  /\ exists r,
      solve_quadratic pow (lit 1) (lit 2) S754_nan = inr r
      /\ roots r = [RootStr "-1.0 + nani"; RootStr "-1.0 - nani"]
      /\ is_nan (discriminant r) = true /\ root_type r = "complex".
Proof.
  intros pow.
  assert (N : is_nan (lit 1) = true \/ is_nan (lit 2) = true \/ is_nan S754_nan = true)
    by (right; right; reflexivity).
  assert (E : exists r,
             solve_quadratic pow (lit 1) (lit 2) S754_nan = inr r
             /\ roots r = [RootStr "-1.0 + nani"; RootStr "-1.0 - nani"])
    by (eexists; split; vm_compute; reflexivity).
  destruct E as [r [E R]]. split; [exact N|]. exists r. split; [exact E|]. split; [exact R|].
  apply (solve_quadratic_nan_is_complex pow (lit 1) (lit 2) S754_nan r N E).
Defined.

Module StatisticsFacts.
Local Open Scope Z_scope.

Lemma feqb_units (x y : float) :
  valid x = true -> valid y = true ->
  is_finite x = true -> is_finite y = true ->
  feqb x y = (units x =? units y).
Proof.
  intros. unfold feqb, SFeqb. rewrite compare_units by assumption.
  destruct (Z.compare_spec (units x) (units y)); symmetry;
    [apply Z.eqb_eq; assumption|apply Z.eqb_neq; lia|apply Z.eqb_neq; lia].
Qed.

(** The mean of a single number compares equal to that number. *)
Lemma statistics_mean_single (x mean : float) :
  number_ok x -> statistics_mean [x] = inr mean ->
  number_ok mean /\ units mean = units x.
Proof.
  intros [Vx Fx] H. unfold statistics_mean in H.
  cbn [forallb] in H. rewrite Fx in H. cbn [andb] in H.
  destruct (round_ratio (sum_units [x]) (Z.of_nat (List.length [x]) * 2 ^ unit_exp))
    as [|y] eqn:R; [discriminate H|].
  injection H as <-.
  assert (HU : 0 < 2 ^ unit_exp) by (apply pow2_pos; unfold unit_exp; lia).
  change (Z.of_nat (List.length [x])) with 1 in R.
  assert (Hden : 0 < 1 * 2 ^ unit_exp) by lia.
  destruct (round_ratio_spec _ _ _ Hden R) as (Vy & Fy & B).
  split; [split; assumption|].
  rewrite sum_units_cons in B. change (sum_units []) with 0 in B.
  destruct (B (units x) (representable_units x Vx)) as [Lo Hi].
  assert (units x <= units y) by (apply Lo; lia).
  assert (units y <= units x) by (apply Hi; lia).
  lia.
Qed.

Lemma fsub_self (x : float) : is_finite x = true -> fsub x x = lit 0.
Proof.
  destruct x as [[|]|s| |s m e]; try discriminate; intros _; try reflexivity.
  unfold fsub, SFsub. rewrite Z.sub_diag. reflexivity.
Qed.

End StatisticsFacts.

Import StatisticsFacts.

(** X5.  On a non-empty list of numbers, the ["count"] of the result is the length
    of the list, ["min"] and ["max"] are values of the list, and every value
    lies between them. *)
Theorem statistics_min_max_bound_every_value
  (statistics_median statistics_stdev statistics_variance : list float -> py float)
  (builtin_sum : list float -> float)
  (values : list float) (r : statistics_result) :
  values <> [] ->
  Forall number_ok values ->
  calculate_statistics statistics_median statistics_stdev statistics_variance
                       builtin_sum values = inr r ->
  st_count r = Z.of_nat (List.length values)
  /\ In (st_min r) values
  /\ In (st_max r) values
  /\ Forall (fun v => fleb (st_min r) v = true /\ fleb v (st_max r) = true) values.
Proof.
  intros Hne Hok H. unfold calculate_statistics in H.
  apply except_400_inr in H.
  apply bind_inr in H as (mean & _ & H).
  apply bind_inr in H as (median & _ & H).
  apply bind_inr in H as (mode & _ & H).
  apply bind_inr in H as (std_dev & _ & H).
  apply bind_inr in H as (variance & _ & H).
  apply bind_inr in H as (mn & Hmin & H).
  apply bind_inr in H as (mx & Hmax & H).
  apply bind_inr in H as (mx' & _ & H).
  apply bind_inr in H as (mn' & _ & H).
  injection H as <-. cbn [st_count st_min st_max].
  destruct values as [|x l]; [congruence|].
  inversion Hok as [|? ? Hx Hl]; subst.
  cbn [py_min py_max] in Hmin, Hmax.
  injection Hmin as <-. injection Hmax as <-.
  destruct (fold_min_spec l x Hx Hl) as (Omin & Imin & Amin).
  destruct (fold_max_spec l x Hx Hl) as (Omax & Imax & Amax).
  split; [reflexivity|]. split; [exact Imin|]. split; [exact Imax|].
  rewrite Forall_forall in *. intros v Hv.
  destruct (Hok v Hv) as [Vv Fv]. destruct Omin as [Vmin Fmin]. destruct Omax as [Vmax Fmax].
  rewrite !fleb_units by assumption.
  split; apply Z.leb_le; [apply Amin|apply Amax]; exact Hv.
Qed.

Lemma statistics_min_max_bound_every_value_witness :
  let absent := fun _ : list float => @ret float (lit 0) in
  let values := [lit 3; lit (-1); lit 2] in
  values <> []
  /\ Forall number_ok values
  /\ exists r,
      calculate_statistics absent absent absent (fun _ => lit 4) values = inr r
      /\ st_count r = Z.of_nat (List.length values)
      /\ In (st_min r) values
      /\ In (st_max r) values
      /\ Forall (fun v => fleb (st_min r) v = true /\ fleb v (st_max r) = true) values.
Proof.
  intros absent values.
  split; [discriminate|].
  split; [repeat constructor|].
  eexists. split; [vm_compute; reflexivity|].
  apply (statistics_min_max_bound_every_value absent absent absent (fun _ => lit 4) values);
    [discriminate|repeat constructor|vm_compute; reflexivity].
Defined.

(** X6.  A single number is not an error: [calculate_statistics([x])] returns as
    soon as [statistics.median] does, without calling [statistics.stdev] or
    [statistics.variance] (which raise on one data point).  Standard deviation,
    variance and range are 0.0, the mode is [None], minimum and maximum are
    [x], and the mean compares equal to [x]. *)
Theorem calculate_statistics_single_value
  (statistics_median statistics_stdev statistics_variance : list float -> py float)
  (builtin_sum : list float -> float) (x m : float) :
  number_ok x ->
  statistics_median [x] = inr m ->
  exists r,
    calculate_statistics statistics_median statistics_stdev statistics_variance
                         builtin_sum [x] = inr r
    /\ st_count r = 1%Z
    /\ feqb (st_mean r) x = true
    /\ st_median r = m
    /\ st_mode r = None
    /\ st_std_dev r = lit 0
    /\ st_variance r = lit 0
    /\ st_min r = x
    /\ st_max r = x
    /\ st_range r = lit 0.
Proof.
  intros Hx Hm.
  destruct (statistics_mean_returns [x]) as [mean Hmean];
    [discriminate|repeat constructor; apply Hx|].
  destruct (statistics_mean_single x mean Hx Hmean) as [[Vm Fm] Um].
  unfold calculate_statistics. rewrite Hmean, Hm.
  rewrite set_smaller_iff_repeat.
  change (has_repeat [x]) with false.
  change (Nat.ltb 1 (List.length [x])) with false.
  cbn [bind ret py_min py_max fold_left except_400].
  eexists. split; [reflexivity|].
  cbn [st_count st_mean st_median st_mode st_std_dev st_variance st_min st_max st_range].
  destruct Hx as [Vx Fx].
  repeat split.
  - rewrite feqb_units by assumption. apply Z.eqb_eq. exact Um.
  - apply fsub_self. exact Fx.
Qed.

Lemma calculate_statistics_single_value_witness :
  let median := fun l : list float => @ret float (nth 0 l (lit 0)) in
  let raising := fun _ : list float =>
    @raise float (StatisticsError "stdev requires at least two data points") in
  number_ok (lit 7)
  /\ median [lit 7] = inr (lit 7)
  /\ exists r,
      calculate_statistics median raising raising (fun _ => lit 7) [lit 7] = inr r
      /\ st_count r = 1%Z
      /\ feqb (st_mean r) (lit 7) = true
      /\ st_median r = lit 7
      /\ st_mode r = None
      /\ st_std_dev r = lit 0
      /\ st_variance r = lit 0
      /\ st_min r = lit 7
      /\ st_max r = lit 7
      /\ st_range r = lit 0.
Proof.
  intros median raising.
  assert (N : number_ok (lit 7)) by (split; reflexivity).
  assert (M : median [lit 7] = inr (lit 7)) by reflexivity.
  split; [exact N|]. split; [exact M|].
  apply (calculate_statistics_single_value median raising raising (fun _ => lit 7)
           (lit 7) (lit 7) N M).
Defined.

Module ModeFacts.
Import StatisticsFacts.
Local Open Scope Z_scope.

Lemma occurrences_units (x : float) (l : list float) :
  number_ok x -> Forall number_ok l -> occurrences x l = count_units (units x) l.
Proof.
  intros [Vx Fx] Hl. unfold occurrences, count_units. f_equal.
  apply filter_ext_in. intros y Hy. rewrite Forall_forall in Hl.
  destruct (Hl y Hy) as [Vy Fy]. apply feqb_units; assumption.
Qed.

Lemma count_units_app (u : Z) (p l : list float) :
  count_units u (p ++ l) = (count_units u p + count_units u l)%nat.
Proof. unfold count_units. rewrite filter_app, length_app. reflexivity. Qed.

Lemma count_units_zero (u : Z) (l : list float) :
  (forall v, In v l -> units v <> u) -> count_units u l = 0%nat.
Proof.
  intros H. unfold count_units. induction l as [|y l IH]; [reflexivity|].
  cbn [filter]. destruct (Z.eqb_spec (units y) u) as [E|_].
  - exfalso. apply (H y); [left; reflexivity|exact E].
  - apply IH. intros v Hv. apply H. right. exact Hv.
Qed.

Lemma count_units_pos (u : Z) (l : list float) (v : float) :
  In v l -> units v = u -> (1 <= count_units u l)%nat.
Proof.
  intros Hv E. unfold count_units. induction l as [|y l IH]; [destruct Hv|].
  cbn [filter]. destruct Hv as [->|Hv].
  - rewrite E, Z.eqb_refl. cbn. lia.
  - specialize (IH Hv). destruct (units y =? u); cbn [List.length]; lia.
Qed.

Lemma feqb_key (k x : float) :
  number_ok k -> number_ok x -> feqb k x = (units k =? units x).
Proof. intros [] []. apply feqb_units; assumption. Qed.

(** The keys after [counter_add]: unchanged when a key equals [x], and [x]
    appended otherwise. *)
Lemma counter_add_keys (x : float) (c : list (float * nat)) :
  number_ok x -> Forall (fun kn => number_ok (fst kn)) c ->
  Forall (fun kn => number_ok (fst kn)) (counter_add x c)
  /\ ((In (units x) (map key_units c)
       /\ map key_units (counter_add x c) = map key_units c)
      \/ (~ In (units x) (map key_units c)
          /\ map key_units (counter_add x c) = map key_units c ++ [units x])).
Proof.
  intros Hx Hc. induction Hc as [|[k n] c Hk Hc IH]; cbn [counter_add map].
  - split; [constructor; [exact Hx|constructor]|]. right. split; [intros []|reflexivity].
  - cbn [fst] in Hk. rewrite (feqb_key k x Hk Hx).
    destruct (Z.eqb_spec (units k) (units x)) as [E|N].
    + split; [constructor; [exact Hk|exact Hc]|].
      left. split; [left; exact E|reflexivity].
    + destruct IH as [F [[I M]|[I M]]].
      * split; [constructor; [exact Hk|exact F]|].
        left. split; [right; exact I|]. cbn [map]. rewrite M. reflexivity.
      * split; [constructor; [exact Hk|exact F]|].
        right. split.
        -- intros [H|H]; [apply N; exact H|apply I; exact H].
        -- cbn [map app]. rewrite M. reflexivity.
Qed.

(** The entries after [counter_add], when the keys are distinct. *)
Lemma counter_add_entries (x : float) (c : list (float * nat)) (k : float) (n : nat) :
  number_ok x -> Forall (fun kn => number_ok (fst kn)) c ->
  NoDup (map key_units c) ->
  In (k, n) (counter_add x c) ->
  (In (k, n) c /\ units k <> units x)
  \/ (exists n', In (k, n') c /\ n = S n' /\ units k = units x)
  \/ (k = x /\ n = 1%nat /\ ~ In (units x) (map key_units c)).
Proof.
  intros Hx Hc. induction Hc as [|[k0 n0] c Hk Hc IH]; cbn [counter_add map]; intros D H.
  - destruct H as [H|[]]. injection H as <- <-. right. right. auto.
  - cbn [fst] in Hk. inversion D as [|? ? Hnot D']; subst.
    rewrite (feqb_key k0 x Hk Hx) in H.
    destruct (Z.eqb_spec (units k0) (units x)) as [E|N].
    + destruct H as [H|H].
      * injection H as <- <-. right. left. exists n0. split; [left; reflexivity|auto].
      * left. split; [right; exact H|].
        intros E'. apply Hnot. unfold key_units at 1. cbn [fst]. rewrite E, <- E'.
        apply (in_map key_units c (k, n) H).
    + destruct H as [H|H].
      * injection H as <- <-. left. split; [left; reflexivity|exact N].
      * destruct (IH D' H) as [[I U]|[[n' [I [En U]]]|[Ek [En I]]]].
        -- left. split; [right; exact I|exact U].
        -- right. left. exists n'. split; [right; exact I|auto].
        -- right. right. split; [exact Ek|]. split; [exact En|].
           intros [J|J]; [apply N; exact J|apply I; exact J].
Qed.

Lemma counted_step (c : list (float * nat)) (p : list float) (x : float) :
  number_ok x -> counted c p -> counted (counter_add x c) (p ++ [x]).
Proof.
  intros Hx (F & D & A & B).
  destruct (counter_add_keys x c Hx F) as [F' K].
  assert (Sub : forall u, In u (map key_units c) -> In u (map key_units (counter_add x c))).
  { intros u Hu. destruct K as [[_ ->]|[_ ->]]; [exact Hu|apply in_or_app; left; exact Hu]. }
  assert (Own : In (units x) (map key_units (counter_add x c))).
  { destruct K as [[I ->]|[_ ->]]; [exact I|apply in_or_app; right; left; reflexivity]. }
  split; [exact F'|]. split.
  { destruct K as [[_ ->]|[I ->]]; [exact D|].
    apply NoDup_app; [exact D|repeat constructor; intros []|].
    intros u Hu [<-|[]]. apply I, Hu. }
  split.
  - intros k n H. rewrite count_units_app.
    unfold count_units at 2. cbn [filter].
    destruct (counter_add_entries x c k n Hx F D H)
      as [[I U]|[[n' [I [-> U]]]|[-> [-> I]]]].
    + destruct (A k n I) as [Ik ->]. split; [apply in_or_app; left; exact Ik|].
      destruct (Z.eqb_spec (units x) (units k)); [congruence|]. cbn. lia.
    + destruct (A k n' I) as [Ik ->]. split; [apply in_or_app; left; exact Ik|].
      rewrite U, Z.eqb_refl. cbn. lia.
    + split; [apply in_or_app; right; left; reflexivity|].
      rewrite Z.eqb_refl, count_units_zero; [reflexivity|].
      intros v Hv E. apply I. rewrite <- E. apply B, Hv.
  - intros v Hv. apply in_app_or in Hv as [Hv|[<-|[]]]; [apply Sub, B, Hv|exact Own].
Qed.

Lemma counted_fold (l : list float) (c : list (float * nat)) (p : list float) :
  Forall number_ok l -> counted c p ->
  counted (fold_left (fun c x => counter_add x c) l c) (p ++ l).
Proof.
  intros Hl. revert c p. induction Hl as [|x l Hx Hl IH]; intros c p H; cbn [fold_left].
  - rewrite app_nil_r. exact H.
  - replace (p ++ x :: l) with ((p ++ [x]) ++ l) by (rewrite <- app_assoc; reflexivity).
    apply IH, counted_step; assumption.
Qed.

Lemma Counter_counted (values : list float) :
  Forall number_ok values -> counted (Counter values) values.
Proof.
  intros H. apply (counted_fold values [] [] H).
  split; [constructor|]. split; [constructor|]. split; [intros k n []|intros v []].
Qed.

(** [most_common] returns an entry with the largest count. *)
Lemma most_common_spec (c : list (float * nat)) (best : float * nat) :
  In (most_common best c) (best :: c)
  /\ forall kn, In kn (best :: c) -> (snd kn <= snd (most_common best c))%nat.
Proof.
  revert best. induction c as [|kn c IH]; intros best; cbn [most_common].
  - split; [left; reflexivity|]. intros kn [<-|[]]. lia.
  - destruct (Nat.ltb_spec (snd best) (snd kn)) as [L|L].
    + destruct (IH kn) as [I M]. split.
      * destruct I as [I|I]; [right; left; exact I|right; right; exact I].
      * intros kn' [<-|[<-|H]].
        -- specialize (M kn (or_introl eq_refl)). lia.
        -- apply M. left. reflexivity.
        -- apply M. right. exact H.
    + destruct (IH best) as [I M]. split.
      * destruct I as [I|I]; [left; exact I|right; right; exact I].
      * intros kn' [<-|[<-|H]].
        -- apply M. left. reflexivity.
        -- specialize (M best (or_introl eq_refl)). lia.
        -- apply M. right. exact H.
Qed.

Lemma repeat_counts_twice (l : list float) :
  Forall number_ok l -> has_repeat l = true ->
  exists x, In x l /\ (2 <= count_units (units x) l)%nat.
Proof.
  induction 1 as [|x l Hx Hl IH]; cbn [has_repeat]; [discriminate|].
  intros H. apply orb_prop in H as [H|H].
  - apply existsb_exists in H as (y & Hy & E).
    rewrite Forall_forall in Hl.
    rewrite (feqb_key x y Hx (Hl y Hy)) in E. apply Z.eqb_eq in E.
    exists x. split; [left; reflexivity|].
    unfold count_units. cbn [filter]. rewrite Z.eqb_refl. cbn [List.length].
    pose proof (count_units_pos (units x) l y Hy (eq_sym E)) as P.
    unfold count_units in P. lia.
  - destruct (IH H) as (y & Hy & C). exists y. split; [right; exact Hy|].
    unfold count_units in *. cbn [filter].
    destruct (units x =? units y); cbn [List.length]; lia.
Qed.

(** [statistics.mode] on numbers: a value of the data with the largest number
    of occurrences. *)
Lemma statistics_mode_spec (values : list float) (m : float) :
  Forall number_ok values -> statistics_mode values = inr m ->
  In m values
  /\ forall v, In v values ->
       (count_units (units v) values <= count_units (units m) values)%nat.
Proof.
  intros Hok H. unfold statistics_mode in H.
  destruct (Counter_counted values Hok) as (F & D & A & B).
  destruct (Counter values) as [|kn c]; [discriminate H|].
  injection H as <-.
  destruct (most_common_spec c kn) as [I M].
  destruct (most_common kn c) as [k n] eqn:E. cbn [fst snd] in *.
  destruct (A k n I) as [Ik En]. split; [exact Ik|].
  intros v Hv. specialize (B v Hv). apply in_map_iff in B as ([k' n'] & U & I').
  unfold key_units in U. cbn [fst] in U.
  destruct (A k' n' I') as [_ En']. rewrite <- U, <- En', <- En.
  apply (M (k', n') I').
Qed.

End ModeFacts.

Import ModeFacts.

(** X7.  When the ["mode"] of the result is a value [m], then [m] is a value of
    the list that occurs at least twice, and no value of the list occurs more
    often than [m]. *)
Theorem statistics_mode_is_most_frequent
  (statistics_median statistics_stdev statistics_variance : list float -> py float)
  (builtin_sum : list float -> float)
  (values : list float) (r : statistics_result) (m : float) :
  Forall number_ok values ->
  calculate_statistics statistics_median statistics_stdev statistics_variance
                       builtin_sum values = inr r ->
  st_mode r = Some m ->
  In m values
  /\ 2 <= occurrences m values
  /\ forall v, In v values -> occurrences v values <= occurrences m values.
Proof.
  intros Hok H Hm. unfold calculate_statistics in H.
  apply except_400_inr in H.
  apply bind_inr in H as (mean & _ & H).
  apply bind_inr in H as (median & _ & H).
  apply bind_inr in H as (mode & Hmode & H).
  apply bind_inr in H as (std_dev & _ & H).
  apply bind_inr in H as (variance & _ & H).
  apply bind_inr in H as (mn & _ & H).
  apply bind_inr in H as (mx & _ & H).
  apply bind_inr in H as (mx' & _ & H).
  apply bind_inr in H as (mn' & _ & H).
  injection H as <-. cbn [st_mode] in Hm. subst mode.
  rewrite set_smaller_iff_repeat in Hmode.
  destruct (has_repeat values) eqn:R; [|discriminate Hmode].
  apply bind_inr in Hmode as (m' & Hmode & E). injection E as ->.
  destruct (statistics_mode_spec values m Hok Hmode) as [Im Max].
  assert (Nm : number_ok m) by (rewrite Forall_forall in Hok; apply Hok, Im).
  split; [exact Im|]. split.
  - destruct (repeat_counts_twice values Hok R) as (x & Ix & C).
    rewrite (occurrences_units m values Nm Hok).
    specialize (Max x Ix). lia.
  - intros v Hv.
    assert (Nv : number_ok v) by (rewrite Forall_forall in Hok; apply Hok, Hv).
    rewrite (occurrences_units v values Nv Hok), (occurrences_units m values Nm Hok).
    apply Max, Hv.
Qed.

Lemma statistics_mode_is_most_frequent_witness :
  let absent := fun _ : list float => @ret float (lit 0) in
  let values := [lit 3; lit 1; lit 1; lit 3; lit 1] in
  Forall number_ok values
  /\ exists r,
      calculate_statistics absent absent absent (fun _ => lit 9) values = inr r
      /\ st_mode r = Some (lit 1)
      /\ In (lit 1) values
      /\ 2 <= occurrences (lit 1) values
      /\ forall v, In v values -> occurrences v values <= occurrences (lit 1) values.
Proof.
  intros absent values.
  assert (N : Forall number_ok values) by (repeat constructor).
  assert (E : exists r,
             calculate_statistics absent absent absent (fun _ => lit 9) values = inr r
             /\ st_mode r = Some (lit 1))
    by (eexists; split; vm_compute; reflexivity).
  destruct E as [r [E M]].
  split; [exact N|]. exists r. split; [exact E|]. split; [exact M|].
  apply (statistics_mode_is_most_frequent absent absent absent (fun _ => lit 9)
           values r (lit 1) N E M).
Defined.

Module AdvancedFacts.
Local Open Scope Z_scope.

(** [x == i] holds exactly when the value of [x] is [i]. *)
Lemma float_eq_int_units (v : float) (i : Z) :
  number_ok v -> (float_eq_int v i = true <-> units v = i * 2 ^ unit_exp).
Proof.
  intros [V F].
  assert (HU : 0 < 2 ^ unit_exp) by (apply pow2_pos; unfold unit_exp; lia).
  destruct v as [s|s| |s m e]; try discriminate F.
  - cbn [float_eq_int units]. rewrite Z.eqb_eq. nia.
  - apply valid_finite_inv in V as (_ & He & _).
    cbn [float_eq_int units].
    destruct (Z.leb_spec 0 e) as [H0|H0]; rewrite Z.eqb_eq.
    + replace (e + unit_exp) with (unit_exp + e) by lia.
      rewrite Z.pow_add_r by (unfold unit_exp; lia).
      pose proof (pow2_pos e H0). destruct s; cbn [cond_Zopp]; nia.
    + rewrite (pow2_split (e + unit_exp) unit_exp) by lia.
      replace (unit_exp - (e + unit_exp)) with (- e) by lia.
      pose proof (pow2_pos (e + unit_exp) ltac:(lia)).
      pose proof (pow2_pos (- e) ltac:(lia)).
      destruct s; cbn [cond_Zopp]; nia.
Qed.

(** [int(x)] on a float whose value is the integer [n]. *)
Lemma int_of_float_whole (v : float) (n : Z) :
  whole_number v n -> int_of_float v = inr n.
Proof.
  intros [[V F] U].
  assert (HU : 0 < 2 ^ unit_exp) by (apply pow2_pos; unfold unit_exp; lia).
  destruct v as [s|s| |s m e]; try discriminate F.
  - cbn [units] in U. cbn [int_of_float]. unfold ret. f_equal. nia.
  - apply valid_finite_inv in V as (_ & He & _).
    cbn [units] in U. cbn [int_of_float]. unfold ret. f_equal.
    destruct (Z.leb_spec 0 e) as [H0|H0].
    + replace (e + unit_exp) with (unit_exp + e) in U by lia.
      rewrite Z.pow_add_r in U by (unfold unit_exp; lia).
      pose proof (pow2_pos e H0). destruct s; cbn [cond_Zopp] in *; nia.
    + rewrite (pow2_split (e + unit_exp) unit_exp) in U by lia.
      replace (unit_exp - (e + unit_exp)) with (- e) in U by lia.
      pose proof (pow2_pos (e + unit_exp) ltac:(lia)) as HP.
      pose proof (pow2_pos (- e) ltac:(lia)) as HQ.
      destruct s; cbn [cond_Zopp] in *.
      * assert (E : Zpos m = (- n) * 2 ^ (- e)) by nia.
        rewrite E, Z.div_mul by lia. lia.
      * assert (E : Zpos m = n * 2 ^ (- e)) by nia.
        rewrite E, Z.div_mul by lia. reflexivity.
Qed.

Lemma int_factorial_fact (n : nat) : int_factorial n = Z.of_nat (fact n).
Proof.
  induction n as [|n IH]; [reflexivity|].
  cbn [int_factorial fact]. rewrite IH.
  change (fact n + n * fact n)%nat with (S n * fact n)%nat.
  rewrite Nat2Z.inj_mul. reflexivity.
Qed.

Lemma int_of_float_finite (v : float) :
  is_finite v = true -> exists i, int_of_float v = inr i.
Proof. destruct v; try discriminate; intros _; eexists; reflexivity. Qed.

Lemma negative_below_zero (v : float) :
  number_ok v -> fltb v (lit 0) = (units v <? 0).
Proof. intros [V F]. apply (fltb_units v (lit 0) V eq_refl F eq_refl). Qed.

End AdvancedFacts.

Import AdvancedFacts.

(** X8.  The factorial of a float whose value is an integer [n] with
    [0 <= n <= long_max] is the integer [n!]; above [long_max] the call fails
    with the HTTP 400 error of [math.factorial]'s overflow. *)
Theorem advanced_factorial_of_whole_number
  (math_log : float -> py float) (math_log_base : float -> float -> py float)
  (math_sin math_cos math_tan : float -> py float)
  (math_pow : float -> float -> py float) (long_max : Z)
  (v : float) (n : Z) :
  whole_number v n ->
  (0 <= n)%Z ->
  advanced_math_operations math_log math_log_base math_sin math_cos math_tan
                           math_pow long_max "factorial" [v]
  = if (long_max <? n)%Z
    then inl (mkHTTPException 400
                ("Error in math operation: factorial() argument should not exceed "
                 ++ str_of_nonneg long_max))
    else inr (AdvInt (Z.of_nat (fact (Z.to_nat n)))).
Proof.
  intros W Hn. pose proof W as [N U].
  assert (HU : (0 < 2 ^ unit_exp)%Z) by (apply pow2_pos; unfold unit_exp; lia).
  unfold advanced_math_operations.
  change (String.eqb "factorial" "factorial") with true. cbv iota.
  rewrite (negative_below_zero v N).
  destruct (Z.ltb_spec (units v) 0) as [L|_]; [nia|].
  rewrite (int_of_float_whole v n W). cbn [bind].
  destruct (float_eq_int_units v n N) as [_ E]. rewrite (E U). cbn [negb].
  unfold math_factorial.
  destruct (Z.ltb_spec long_max n) as [B|B]; [reflexivity|].
  destruct (Z.ltb_spec n 0) as [L|_]; [lia|].
  rewrite int_factorial_fact. reflexivity.
Qed.

Lemma advanced_factorial_of_whole_number_witness :
  let lib1 := fun _ : float => @ret float (lit 0) in
  let lib2 := fun _ _ : float => @ret float (lit 0) in
  whole_number (lit 5) 5
  /\ (0 <= 5)%Z
  /\ advanced_math_operations lib1 lib2 lib1 lib1 lib1 lib2 (2 ^ 63 - 1) "factorial" [lit 5]
     = inr (AdvInt 120).
Proof.
  intros lib1 lib2.
  assert (W : whole_number (lit 5) 5) by (split; [split; reflexivity|vm_compute; reflexivity]).
  assert (P : (0 <= 5)%Z) by lia.
  split; [exact W|]. split; [exact P|].
  apply (advanced_factorial_of_whole_number lib1 lib2 lib1 lib1 lib1 lib2 (2 ^ 63 - 1)
           (lit 5) 5 W P).
Defined.

(** X9.  The factorial is refused, with the HTTP 400 error ["Factorial requires a
    single non-negative integer"], for a negative number, for a number that is
    not an integer, for minus infinity and for a list that does not hold
    exactly one value.  A NaN and plus infinity fail in [int()], with another
    HTTP 400 message. *)
Theorem advanced_factorial_refusals
  (math_log : float -> py float) (math_log_base : float -> float -> py float)
  (math_sin math_cos math_tan : float -> py float)
  (math_pow : float -> float -> py float) (long_max : Z) :
  let factorial :=
    advanced_math_operations math_log math_log_base math_sin math_cos math_tan
                             math_pow long_max "factorial" in
  let refused :=
    inl (mkHTTPException 400
           "Error in math operation: Factorial requires a single non-negative integer") in
  (forall v, number_ok v ->
     (units v < 0)%Z \/ (forall n, ~ whole_number v n) -> factorial [v] = refused)
  /\ factorial [S754_infinity true] = refused
  /\ (forall values, List.length values <> 1 -> factorial values = refused)
  /\ factorial [S754_nan]
     = inl (mkHTTPException 400
              "Error in math operation: cannot convert float NaN to integer")
  /\ factorial [S754_infinity false]
     = inl (mkHTTPException 400
              "Error in math operation: cannot convert float infinity to integer").
Proof.
  intros factorial refused. subst factorial refused.
  split; [|split; [reflexivity|split; [|split; reflexivity]]].
  - intros v N H. unfold advanced_math_operations.
    change (String.eqb "factorial" "factorial") with true. cbv iota.
    rewrite (negative_below_zero v N).
    destruct (Z.ltb_spec (units v) 0) as [L|L]; [reflexivity|].
    destruct H as [H|H]; [lia|].
    destruct (int_of_float_finite v (proj2 N)) as [i Hi]. rewrite Hi. cbn [bind].
    destruct (float_eq_int v i) eqn:E; [|reflexivity].
    exfalso. apply (H i). split; [exact N|].
    apply (float_eq_int_units v i N), E.
  - intros values H. unfold advanced_math_operations.
    change (String.eqb "factorial" "factorial") with true. cbv iota.
    destruct values as [|v [|w values]]; [reflexivity|cbn in H; congruence|reflexivity].
Qed.

Lemma advanced_factorial_refusals_witness :
  let lib1 := fun _ : float => @ret float (lit 0) in
  let lib2 := fun _ _ : float => @ret float (lit 0) in
  let half := S754_finite false 4503599627370496 (-53) in
  number_ok half
  /\ (forall n, ~ whole_number half n)
  /\ advanced_math_operations lib1 lib2 lib1 lib1 lib1 lib2 (2 ^ 63 - 1) "factorial" [half]
     = inl (mkHTTPException 400
              "Error in math operation: Factorial requires a single non-negative integer").
Proof.
  intros lib1 lib2 half.
  assert (N : number_ok half) by (split; reflexivity).
  assert (H : forall n, ~ whole_number half n).
  { intros n [_ U]. cbn [units half cond_Zopp] in U.
    assert (E : (Zpos 4503599627370496 * 2 ^ (-53 + unit_exp)
                 = 1 * 2 ^ (unit_exp - 1))%Z) by (vm_compute; reflexivity).
    rewrite E in U.
    assert (P : (2 ^ unit_exp = 2 * 2 ^ (unit_exp - 1))%Z) by (vm_compute; reflexivity).
    rewrite P in U.
    assert (Q : (0 < 2 ^ (unit_exp - 1))%Z) by (vm_compute; reflexivity).
    set (X := (2 ^ (unit_exp - 1))%Z) in *. clearbody X.
    assert (Z0 : (X * (2 * n - 1) = 0)%Z) by lia.
    apply Z.mul_eq_0 in Z0. lia. }
  split; [exact N|]. split; [exact H|].
  apply (proj1 (advanced_factorial_refusals lib1 lib2 lib1 lib1 lib1 lib2 (2 ^ 63 - 1))
           half N (or_intror H)).
Defined.

(** X10.  The other refusals of [advanced_math_operations], each an HTTP 400:
    a logarithm of no or of more than two values, a trigonometry of other
    than one value, a power of other than two values, and an operation it
    does not know. *)
Theorem advanced_rejects_arity_and_unknown
  (math_log : float -> py float) (math_log_base : float -> float -> py float)
  (math_sin math_cos math_tan : float -> py float)
  (math_pow : float -> float -> py float) (long_max : Z)
  (values : list float) :
  let advanced :=
    advanced_math_operations math_log math_log_base math_sin math_cos math_tan
                             math_pow long_max in
  let error := fun message : string =>
    inl (mkHTTPException 400 ("Error in math operation: " ++ message)%string) in
  (List.length values <> 1 /\ List.length values <> 2 ->
     advanced "logarithm" values = error "Logarithm requires 1 or 2 values")
  /\ (List.length values <> 1 ->
        advanced "trigonometry" values
        = error "Trigonometry requires 1 value (angle in radians)")
  /\ (List.length values <> 2 ->
        advanced "power" values = error "Power operation requires base and exponent")
  /\ (forall operation, ~ In operation advanced_operations ->
        advanced operation values = error ("Unknown operation: " ++ operation)%string).
Proof.
  intros advanced error. subst advanced error. cbv beta.
  split; [|split; [|split]].
  - intros [H1 H2]. destruct values as [|v [|w [|u values]]]; cbn in H1, H2;
      try congruence; reflexivity.
  - intros H. destruct values as [|v [|w values]]; cbn in H; try congruence; reflexivity.
  - intros H. destruct values as [|v [|w [|u values]]]; cbn in H; try congruence; reflexivity.
  - intros operation H. unfold advanced_math_operations.
    repeat match goal with
           | |- context [String.eqb operation ?k] =>
               destruct (String.eqb_spec operation k) as [->|_];
               [exfalso; apply H; cbn; tauto|]
           end.
    reflexivity.
Qed.

(* ================================================================== *)
(** * Further properties of the text operations *)
(* ================================================================== *)

Module TextFacts.

Lemma str_map_length (f : ascii -> ascii) (s : string) :
  String.length (str_map f s) = String.length s.
Proof. induction s as [|c s IH]; cbn; congruence. Qed.

Lemma do_title_length (s : string) (b : bool) :
  String.length (do_title b s) = String.length s.
Proof. revert b. induction s as [|c s IH]; intros b; cbn; [reflexivity|]. rewrite IH. reflexivity. Qed.

Lemma str_reverse_length (s : string) :
  String.length (str_reverse s) = String.length s.
Proof.
  unfold str_reverse. rewrite string_of_list_length, length_rev.
  induction s as [|c s IH]; cbn; congruence.
Qed.

Lemma str_reverse_involutive (s : string) : str_reverse (str_reverse s) = s.
Proof.
  unfold str_reverse. rewrite list_ascii_of_string_of_list_ascii, rev_involutive.
  apply string_of_list_ascii_of_string.
Qed.

Lemma lower_idempotent (c : ascii) : lower (lower c) = lower c.
Proof. destruct c as [[] [] [] [] [] [] [] []]; reflexivity. Qed.

Lemma upper_idempotent (c : ascii) : upper (upper c) = upper c.
Proof. destruct c as [[] [] [] [] [] [] [] []]; reflexivity. Qed.

Lemma iscased_lower (c : ascii) : iscased (lower c) = iscased c.
Proof. destruct c as [[] [] [] [] [] [] [] []]; reflexivity. Qed.

Lemma iscased_upper (c : ascii) : iscased (upper c) = iscased c.
Proof. destruct c as [[] [] [] [] [] [] [] []]; reflexivity. Qed.

Lemma str_map_idempotent (f : ascii -> ascii) (s : string) :
  (forall c, f (f c) = f c) -> str_map f (str_map f s) = str_map f s.
Proof. intros H. induction s as [|c s IH]; cbn; [reflexivity|]. rewrite H, IH. reflexivity. Qed.

Lemma do_title_idempotent (s : string) (b : bool) :
  do_title b (do_title b s) = do_title b s.
Proof.
  revert b. induction s as [|c s IH]; intros b; cbn [do_title]; [reflexivity|].
  destruct b.
  - rewrite lower_idempotent, iscased_lower, IH. reflexivity.
  - rewrite upper_idempotent, iscased_upper, IH. reflexivity.
Qed.

End TextFacts.

Import TextFacts.

(** X11.  Reversing twice gives the text back: [transform_text(text, "reverse")]
    returns the reversed text, and reversing that result returns [text]. *)
Theorem transform_reverse_involutive (text : string) :
  exists reversed,
    transform_text text "reverse" = inr reversed
    /\ transform_text reversed "reverse" = inr text.
Proof.
  exists (str_reverse text). split; [reflexivity|].
  cbn. unfold ret. rewrite str_reverse_involutive. reflexivity.
Qed.

(** X12.  On ASCII text the three case transformations are idempotent: applying
    ["upper"], ["lower"] or ["title"] to its own result changes nothing. *)
Theorem transform_case_idempotent (text mode : string) :
  ascii_text text = true ->
  In mode ["upper"; "lower"; "title"] ->
  exists once,
    transform_text text mode = inr once
    /\ transform_text once mode = inr once.
Proof.
  intros _ [ <- | [ <- | [ <- | [] ] ] ]; eexists; (split; [reflexivity|]); cbn; unfold ret; f_equal.
  - apply str_map_idempotent, upper_idempotent.
  - apply str_map_idempotent, lower_idempotent.
  - apply do_title_idempotent.
Qed.

Lemma transform_case_idempotent_witness :
  ascii_text "hello World 42" = true
  /\ In "title" ["upper"; "lower"; "title"]
  /\ exists once,
      transform_text "hello World 42" "title" = inr once
      /\ transform_text once "title" = inr once.
Proof.
  assert (A : ascii_text "hello World 42" = true) by reflexivity.
  assert (M : In "title" ["upper"; "lower"; "title"]) by (cbn; tauto).
  split; [exact A|]. split; [exact M|].
  apply (transform_case_idempotent "hello World 42" "title" A M).
Defined.

(** X13.  ["lower"] and ["reverse"] keep the number of characters of every text;
    so do ["upper"] and ["title"] on ASCII text. *)
Theorem transform_preserves_length (text mode result : string) :
  (mode = "lower" \/ mode = "reverse"
   \/ (ascii_text text = true /\ (mode = "upper" \/ mode = "title"))) ->
  transform_text text mode = inr result ->
  String.length result = String.length text.
Proof.
  intros [ -> | [ -> | [_ [ -> | -> ] ] ] ]; cbn; unfold ret; intros [= <-].
  - apply str_map_length.
  - apply str_reverse_length.
  - apply str_map_length.
  - apply do_title_length.
Qed.

Lemma transform_preserves_length_witness :
  ("reverse" = "lower" \/ "reverse" = "reverse"
   \/ (ascii_text "Hello" = true /\ ("reverse" = "upper" \/ "reverse" = "title")))
  /\ transform_text "Hello" "reverse" = inr "olleH"
  /\ String.length "olleH" = String.length "Hello".
Proof.
  assert (M : "reverse" = "lower" \/ "reverse" = "reverse"
              \/ (ascii_text "Hello" = true /\ ("reverse" = "upper" \/ "reverse" = "title")))
    by (right; left; reflexivity).
  assert (E : transform_text "Hello" "reverse" = inr "olleH") by reflexivity.
  split; [exact M|]. split; [exact E|].
  apply (transform_preserves_length "Hello" "reverse" "olleH" M E).
Defined.

(** X14.  [transform_text] fails exactly on an unknown transformation: the five
    known ones always return a string, and any other name gives the HTTP 400
    error that names it. *)
Theorem transform_fails_only_on_unknown_mode (text mode : string) :
  ((exists result, transform_text text mode = inr result) <-> In mode valid_modes)
  /\ (~ In mode valid_modes ->
      transform_text text mode
      = inl (mkHTTPException 400
               ("Error transforming text: Unknown transformation: " ++ mode))).
Proof.
  assert (Hknown : In mode valid_modes -> exists result, transform_text text mode = inr result).
  { intros [ <- | [ <- | [ <- | [ <- | [ <- | [] ] ] ] ] ]; eexists; reflexivity. }
  assert (Hunknown : ~ In mode valid_modes ->
            transform_text text mode
            = inl (mkHTTPException 400
                     ("Error transforming text: Unknown transformation: " ++ mode))).
  { intros H. unfold transform_text.
    repeat match goal with
           | |- context [String.eqb mode ?k] =>
               destruct (String.eqb_spec mode k) as [->|_];
               [exfalso; apply H; cbn; tauto|]
           end.
    reflexivity. }
  split; [|exact Hunknown].
  split; [|exact Hknown].
  intros [result Hr].
  destruct (in_dec string_dec mode valid_modes) as [Hin|Hout]; [exact Hin|].
  rewrite (Hunknown Hout) in Hr. discriminate.
Qed.

Module WordFacts.

Lemma all_chars_app p (s t : string) :
  all_chars p (s ++ t) = all_chars p s && all_chars p t.
Proof. induction s as [|c s IH]; cbn; [reflexivity|]. rewrite IH, andb_assoc. reflexivity. Qed.

Lemma all_chars_of_list p (l : list ascii) :
  all_chars p (string_of_list_ascii l) = forallb p l.
Proof. induction l as [|c l IH]; cbn; [reflexivity|]. rewrite IH. reflexivity. Qed.

Lemma all_chars_take p (i : nat) (s : string) :
  all_chars p s = true -> all_chars p (take i s) = true.
Proof.
  revert i. induction s as [|c s IH]; intros [|i]; cbn; try reflexivity.
  intros H. apply andb_prop in H as [-> H]. cbn. apply IH, H.
Qed.

Lemma all_chars_drop p (i : nat) (s : string) :
  all_chars p s = true -> all_chars p (drop i s) = true.
Proof.
  revert i. induction s as [|c s IH]; intros [|i]; cbn; try reflexivity; try (intros H; exact H).
  intros H. apply andb_prop in H as [_ H]. apply IH, H.
Qed.

Lemma all_chars_drop_last p (s : string) :
  all_chars p s = true -> all_chars p (drop_last s) = true.
Proof.
  induction s as [|c s IH]; [reflexivity|].
  intros H. cbn in H. apply andb_prop in H as [Hc H].
  destruct s as [|d s]; [reflexivity|].
  change (drop_last (String c (String d s))) with (String c (drop_last (String d s))).
  cbn [all_chars]. rewrite Hc. cbn. apply IH, H.
Qed.

Lemma is_word_spec (w : string) :
  is_word w = true <-> w <> "" /\ all_chars nonspace w = true.
Proof.
  unfold is_word. rewrite andb_true_iff, negb_true_iff.
  split; intros [H1 H2]; split; try exact H2.
  - intros ->. discriminate.
  - destruct (String.eqb_spec w ""); [contradiction|reflexivity].
Qed.

Lemma forallb_rev {A} (p : A -> bool) (l : list A) : forallb p (rev l) = forallb p l.
Proof.
  induction l as [|x l IH]; [reflexivity|].
  cbn. rewrite forallb_app, IH. cbn. rewrite andb_true_r. apply andb_comm.
Qed.

Lemma flush_is_word (cur : list ascii) :
  cur <> [] -> forallb nonspace cur = true ->
  is_word (string_of_list_ascii (rev cur)) = true.
Proof.
  intros Hne Hall. apply is_word_spec. split.
  - intros E. apply Hne.
    apply (f_equal list_ascii_of_string) in E.
    rewrite list_ascii_of_string_of_list_ascii in E. cbn in E.
    apply (f_equal (@rev ascii)) in E. rewrite rev_involutive in E. exact E.
  - rewrite all_chars_of_list, forallb_rev. exact Hall.
Qed.

(** Every item of [s.split()] is a word. *)
Lemma split_runs_words (s : string) (cur : list ascii) :
  forallb nonspace cur = true ->
  Forall (fun w => is_word w = true) (split_runs cur s).
Proof.
  revert cur. induction s as [|c s IH]; intros cur Hcur; cbn [split_runs].
  - destruct cur as [|d cur]; constructor; [|constructor].
    apply flush_is_word; [discriminate|exact Hcur].
  - destruct (isspace c) eqn:Ec.
    + destruct cur as [|d cur]; [apply IH; reflexivity|].
      constructor; [|apply IH; reflexivity].
      apply flush_is_word; [discriminate|exact Hcur].
    + apply IH. cbn. unfold nonspace at 1. rewrite Ec. exact Hcur.
Qed.

Lemma str_split_words (s : string) :
  Forall (fun w => is_word w = true) (str_split s).
Proof. apply split_runs_words. reflexivity. Qed.

Lemma split_runs_word (w rest : string) (cur : list ascii) :
  all_chars nonspace w = true ->
  split_runs cur (w ++ rest) = split_runs (rev (list_ascii_of_string w) ++ cur) rest.
Proof.
  revert cur. induction w as [|c w IH]; intros cur H; [reflexivity|].
  cbn in H. apply andb_prop in H as [Hc H].
  cbn [append split_runs list_ascii_of_string rev].
  unfold nonspace in Hc. apply negb_true_iff in Hc. rewrite Hc.
  rewrite IH by exact H. rewrite <- app_assoc. reflexivity.
Qed.

Lemma rev_chars_nonempty (w : string) :
  w <> "" -> rev (list_ascii_of_string w) ++ [] <> [].
Proof.
  destruct w as [|c w]; [congruence|]. intros _ E.
  cbn in E. rewrite app_nil_r in E. apply app_eq_nil in E as [_ E]. discriminate.
Qed.

Lemma flush_word (w : string) :
  string_of_list_ascii (rev (rev (list_ascii_of_string w) ++ [])) = w.
Proof. rewrite app_nil_r, rev_involutive. apply string_of_list_ascii_of_string. Qed.

(** Splitting a single-space join of words gives the words back. *)
Lemma split_join_words (ws : list string) :
  Forall (fun w => is_word w = true) ws ->
  str_split (str_join " " ws) = ws.
Proof.
  unfold str_split.
  induction 1 as [|w ws Hw Hws IH]; [reflexivity|].
  apply is_word_spec in Hw as [Hne Hall].
  destruct ws as [|w' ws].
  - cbn [str_join]. rewrite <- (str_app_nil_r w) at 1.
    rewrite split_runs_word by exact Hall. cbn [split_runs].
    pose proof (rev_chars_nonempty w Hne) as N.
    destruct (rev (list_ascii_of_string w) ++ []) eqn:E; [congruence|].
    rewrite <- E, flush_word. reflexivity.
  - change (str_join " " (w :: w' :: ws))
      with (w ++ " " ++ str_join " " (w' :: ws))%string.
    rewrite split_runs_word by exact Hall.
    change (" " ++ str_join " " (w' :: ws))%string
      with (String " "%char (str_join " " (w' :: ws))).
    cbn [split_runs]. change (isspace " "%char) with true. cbv iota.
    pose proof (rev_chars_nonempty w Hne) as N.
    destruct (rev (list_ascii_of_string w) ++ []) eqn:E; [congruence|].
    rewrite <- E, flush_word. f_equal. exact IH.
Qed.

Lemma punctuation_nonspace (c : ascii) :
  mem_char c ".,!?;:" = true -> nonspace c = true.
Proof.
  destruct c as [[] [] [] [] [] [] [] []]; vm_compute; intros H;
    first [reflexivity | discriminate H].
Qed.

Lemma last_char_drop_last (s : string) (c : ascii) :
  last_char s = Some c -> s = (drop_last s ++ String c "")%string.
Proof.
  induction s as [|d s IH]; [discriminate|].
  destruct s as [|e s].
  - cbn. intros [= ->]. reflexivity.
  - intros H. change (last_char (String d (String e s))) with (last_char (String e s)) in H.
    change (drop_last (String d (String e s))) with (String d (drop_last (String e s))).
    cbn [append]. f_equal. apply IH, H.
Qed.

Lemma app_eq_empty (s t : string) : (s ++ t)%string = "" -> s = "" /\ t = "".
Proof. destruct s; cbn; [auto|discriminate]. Qed.

(** The entry built for a word is again a word. *)
Lemma pig_latin_entry_word (w : string) :
  is_word w = true -> is_word (pig_latin_entry w) = true.
Proof.
  intros Hw. pose proof Hw as Hw0. apply is_word_spec in Hw as [Hne Hall].
  unfold pig_latin_entry.
  assert (R : forall clean punctuation : string,
             all_chars nonspace clean = true ->
             all_chars nonspace punctuation = true ->
             is_word
               match clean with
               | String c0 _ =>
                   ((if mem_char (lower c0) "aeiou" then clean ++ "way"
                     else
                       drop match first_vowel_from 0 (str_lower clean) with
                            | Some i => i
                            | None => String.length clean
                            end clean
                       ++ take match first_vowel_from 0 (str_lower clean) with
                               | Some i => i
                               | None => String.length clean
                               end clean ++ "ay") ++ punctuation)%string
               | EmptyString => w
               end = true).
  { intros clean punctuation Hc Hp. destruct clean as [|c0 clean']; [exact Hw0|].
    apply is_word_spec.
    destruct (mem_char (lower c0) "aeiou").
    - split; [discriminate|].
      rewrite !all_chars_app, Hc, Hp. reflexivity.
    - split.
      + intros E. apply app_eq_empty in E as [E _].
        apply app_eq_empty in E as [_ E]. apply app_eq_empty in E as [_ E].
        discriminate E.
      + rewrite !all_chars_app, Hp.
        rewrite all_chars_drop, all_chars_take by exact Hc. reflexivity. }
  destruct (last_char w) as [c|] eqn:El; [|apply R; [exact Hall|reflexivity]].
  destruct (mem_char c ".,!?;:") eqn:Ep; [|apply R; [exact Hall|reflexivity]].
  apply R.
  - apply all_chars_drop_last, Hall.
  - cbn. rewrite (punctuation_nonspace c Ep). reflexivity.
Qed.

End WordFacts.

Import WordFacts.

(** X15.  The pig-latin result keeps the words apart: splitting it on whitespace
    gives back exactly the entries built for the words of the text, in order,
    so it has as many words as the text.  No entry is empty or contains
    whitespace.  The result has no leading, trailing or doubled separator: it
    is its own words joined by single spaces. *)
Theorem transform_pig_latin_keeps_words (text : string) :
  exists result,
    transform_text text "pig_latin" = inr result
    /\ str_split result = map pig_latin_entry (str_split text)
    /\ List.length (str_split result) = List.length (str_split text)
    /\ Forall (fun w => is_word w = true) (str_split result)
    /\ result = str_join " " (str_split result).
Proof.
  eexists. split.
  { unfold transform_text. cbn [String.eqb Ascii.eqb Bool.eqb except_400 ret].
    cbv beta. unfold ret, except_400. rewrite fold_append_map. cbn [app]. reflexivity. }
  assert (W : Forall (fun w => is_word w = true) (map pig_latin_entry (str_split text))).
  { apply Forall_map. eapply Forall_impl; [|apply str_split_words].
    intros w. apply pig_latin_entry_word. }
  rewrite (split_join_words _ W).
  split; [reflexivity|]. split; [apply length_map|]. split; [exact W|reflexivity].
Qed.

Module ComposeFacts.

Lemma lower_upper (c : ascii) : is_ascii c = true -> lower (upper c) = lower c.
Proof.
  destruct c as [[] [] [] [] [] [] [] []]; vm_compute; intros H;
    first [reflexivity | discriminate H].
Qed.

Lemma upper_lower (c : ascii) : is_ascii c = true -> upper (lower c) = upper c.
Proof.
  destruct c as [[] [] [] [] [] [] [] []]; vm_compute; intros H;
    first [reflexivity | discriminate H].
Qed.

Lemma str_map_compose (f g h : ascii -> ascii) (s : string) :
  (forall c, is_ascii c = true -> f (g c) = h c) ->
  ascii_text s = true -> str_map f (str_map g s) = str_map h s.
Proof.
  intros H. induction s as [|c s IH]; [reflexivity|].
  cbn [ascii_text str_map]. intros A. apply andb_prop in A as [Ac As].
  rewrite (H c Ac), (IH As). reflexivity.
Qed.

Lemma chars_str_map (f : ascii -> ascii) (s : string) :
  list_ascii_of_string (str_map f s) = map f (list_ascii_of_string s).
Proof. induction s as [|c s IH]; cbn; [reflexivity|]. rewrite IH. reflexivity. Qed.

Lemma str_map_of_list (f : ascii -> ascii) (l : list ascii) :
  str_map f (string_of_list_ascii l) = string_of_list_ascii (map f l).
Proof. induction l as [|c l IH]; cbn; [reflexivity|]. rewrite IH. reflexivity. Qed.

Lemma str_map_reverse (f : ascii -> ascii) (s : string) :
  str_map f (str_reverse s) = str_reverse (str_map f s).
Proof.
  unfold str_reverse. rewrite str_map_of_list, chars_str_map, map_rev. reflexivity.
Qed.

Lemma take_drop (i : nat) (w : string) : (take i w ++ drop i w)%string = w.
Proof.
  revert i. induction w as [|c w IH]; intros [|i]; cbn; try reflexivity.
  rewrite IH. reflexivity.
Qed.

Lemma chars_app (s t : string) :
  list_ascii_of_string (s ++ t)
  = list_ascii_of_string s ++ list_ascii_of_string t.
Proof. induction s as [|c s IH]; cbn; [reflexivity|]. rewrite IH. reflexivity. Qed.

End ComposeFacts.

Import ComposeFacts.

(** X16.  How the case transformations compose on ASCII text: lower-casing the
    upper-cased text gives the lower-cased text and the other way round, and
    both commute with the reversal. *)
Theorem transform_case_composes (text : string) :
  ascii_text text = true ->
  exists up low reversed,
    transform_text text "upper" = inr up
    /\ transform_text text "lower" = inr low
    /\ transform_text text "reverse" = inr reversed
    /\ transform_text up "lower" = inr low
    /\ transform_text low "upper" = inr up
    /\ transform_text reversed "upper" = transform_text up "reverse"
    /\ transform_text reversed "lower" = transform_text low "reverse".
Proof.
  intros A. exists (str_upper text), (str_lower text), (str_reverse text).
  split; [reflexivity|]. split; [reflexivity|]. split; [reflexivity|].
  cbn. unfold ret, str_upper, str_lower.
  rewrite (str_map_compose lower upper lower text lower_upper A).
  rewrite (str_map_compose upper lower upper text upper_lower A).
  rewrite !str_map_reverse. repeat split.
Qed.

Lemma transform_case_composes_witness :
  ascii_text "Hello, World" = true
  /\ exists up low reversed,
      transform_text "Hello, World" "upper" = inr up
      /\ transform_text "Hello, World" "lower" = inr low
      /\ transform_text "Hello, World" "reverse" = inr reversed
      /\ transform_text up "lower" = inr low
      /\ transform_text low "upper" = inr up
      /\ transform_text reversed "upper" = transform_text up "reverse"
      /\ transform_text reversed "lower" = transform_text low "reverse".
Proof.
  assert (A : ascii_text "Hello, World" = true) by reflexivity.
  split; [exact A|].
  apply (transform_case_composes "Hello, World" A).
Defined.

(** X17.  The pig-latin entry of a word loses no character and invents none: it
    is a rearrangement of the characters of the word followed by ["ay"], by
    ["way"], or by nothing (for a word that is empty once its punctuation is
    detached). *)
Theorem pig_latin_entry_rearranges (word : string) :
  exists suffix,
    In suffix [""; "ay"; "way"]
    /\ Permutation (list_ascii_of_string (pig_latin_entry word))
                   (list_ascii_of_string (word ++ suffix)).
Proof.
  unfold pig_latin_entry.
  assert (R : forall clean punctuation : string,
             word = (clean ++ punctuation)%string ->
             exists suffix,
               In suffix [""; "ay"; "way"]
               /\ Permutation
                    (list_ascii_of_string
                       match clean with
                       | String c0 _ =>
                           ((if mem_char (lower c0) "aeiou" then clean ++ "way"
                             else
                               drop match first_vowel_from 0 (str_lower clean) with
                                    | Some i => i
                                    | None => String.length clean
                                    end clean
                               ++ take match first_vowel_from 0 (str_lower clean) with
                                       | Some i => i
                                       | None => String.length clean
                                       end clean ++ "ay") ++ punctuation)%string
                       | EmptyString => word
                       end)
                    (list_ascii_of_string (word ++ suffix))).
  { intros clean punctuation E. destruct clean as [|c0 clean'] eqn:C.
    - exists "". split; [left; reflexivity|]. rewrite str_app_nil_r. apply Permutation_refl.
    - rewrite <- C in *. clear C.
      destruct (mem_char (lower c0) "aeiou").
      + exists "way". split; [right; right; left; reflexivity|].
        rewrite E, !chars_app, <- !app_assoc.
        apply Permutation_app_head, Permutation_app_comm.
      + exists "ay". split; [right; left; reflexivity|].
        set (k := match first_vowel_from 0 (str_lower clean) with
                  | Some i => i
                  | None => String.length clean
                  end).
        rewrite E. rewrite <- (take_drop k clean) at 3.
        rewrite !chars_app, <- !app_assoc.
        set (D := list_ascii_of_string (drop k clean)).
        set (T := list_ascii_of_string (take k clean)).
        set (P := list_ascii_of_string punctuation).
        set (Y := list_ascii_of_string "ay").
        rewrite (app_assoc D T), (app_assoc T D).
        apply Permutation_app; [apply Permutation_app_comm|apply Permutation_app_comm]. }
  destruct (last_char word) as [c|] eqn:El;
    [|apply R; symmetry; apply str_app_nil_r].
  destruct (mem_char c ".,!?;:");
    [|apply R; symmetry; apply str_app_nil_r].
  apply R. apply WordFacts.last_char_drop_last, El.
Qed.

Module MatchFacts.

Section Sound.
Variable text : list ascii.

Lemma iterate_lang (step : state -> list state) (P : list ascii -> Prop) :
  (forall st st', In st' (step st) ->
      exists s, P s /\ skipn (pos st) text = s ++ skipn (pos st') text) ->
  forall fuel lo hi st st',
    In st' (iterate step fuel lo hi st) ->
    exists ss, Forall P ss
               /\ skipn (pos st) text = List.concat ss ++ skipn (pos st') text
               /\ lo <= List.length ss
               /\ match hi with Some h => List.length ss <= h | None => True end.
Proof.
  intros Hstep.
  assert (Hstop : forall lo (hi : option nat) st st',
             In st' (if Nat.eqb lo 0 then [st] else []) ->
             exists ss, Forall P ss
               /\ skipn (pos st) text = List.concat ss ++ skipn (pos st') text
               /\ lo <= List.length ss
               /\ match hi with Some h => List.length ss <= h | None => True end).
  { intros lo hi st st' H. destruct (Nat.eqb_spec lo 0) as [->|]; [|destruct H].
    destruct H as [<-|[]]. exists []. cbn. repeat split; auto.
    destruct hi; [lia|exact I]. }
  induction fuel as [|f IH]; intros lo hi st st' H.
  - apply Hstop, H.
  - rewrite iterate_S in H. apply in_app_or in H as [H|H]; [|apply (Hstop _ _ _ _ H)].
    assert (Hmore : hi <> Some 0 ->
              In st' (flat_map
                (fun st1 => if Nat.ltb (pos st) (pos st1)
                            then iterate step f (Nat.pred lo) (option_map Nat.pred hi) st1
                            else []) (step st)) ->
              exists ss, Forall P ss
               /\ skipn (pos st) text = List.concat ss ++ skipn (pos st') text
               /\ lo <= List.length ss
               /\ match hi with Some h => List.length ss <= h | None => True end).
    { intros Hhi Hin. apply in_flat_map in Hin as [mid [Hmid Hin]].
      destruct (Nat.ltb (pos st) (pos mid)); [|destruct Hin].
      destruct (Hstep _ _ Hmid) as [s [Ps Es]].
      destruct (IH _ _ _ _ Hin) as [ss [Pss [Ess [Hlo Hh]]]].
      exists (s :: ss). split; [constructor; assumption|].
      split; [cbn [List.concat]; rewrite Es, Ess, app_assoc; reflexivity|].
      cbn [List.length]. split; [lia|].
      destruct hi as [[|h]|]; cbn in Hh; [congruence|lia|exact I]. }
    destruct hi as [[|h]|]; [destruct H| |]; apply Hmore; try discriminate; exact H.
Qed.

(** What the matcher consumes is a string of the pattern. *)
Lemma run_lang (r : regex) :
  forall st st', In st' (run text r st) ->
    exists s, lang r s /\ skipn (pos st) text = s ++ skipn (pos st') text.
Proof.
  induction r as [|p| |r1 IH1 r2 IH2|r1 IH1 r2 IH2|lo hi r1 IH1|i r1 IH1];
    intros st st' H; cbn [run] in H.
  - destruct H as [<-|[]]. exists []. split; reflexivity.
  - destruct (nth_error text (pos st)) as [c|] eqn:E; [|destruct H].
    destruct (p c) eqn:Ep; [|destruct H]. destruct H as [<-|[]].
    exists [c]. split; [exists c; auto|]. cbn [pos app].
    clear Ep. revert E. generalize (pos st). clear.
    induction text as [|d t IHt]; intros [|n] E; cbn in E; try discriminate.
    + injection E as ->. reflexivity.
    + cbn [skipn]. rewrite (IHt n E). destruct n; reflexivity.
  - destruct (boundary_at text (pos st)); [|destruct H]. destruct H as [<-|[]].
    exists []. split; reflexivity.
  - apply in_flat_map in H as [mid [H1 H2]].
    destruct (IH1 _ _ H1) as [s1 [L1 E1]]. destruct (IH2 _ _ H2) as [s2 [L2 E2]].
    exists (s1 ++ s2). split; [exists s1, s2; auto|].
    rewrite E1, E2, app_assoc. reflexivity.
  - apply in_app_or in H as [H|H].
    + destruct (IH1 _ _ H) as [s [L E]]. exists s. split; [left; exact L|exact E].
    + destruct (IH2 _ _ H) as [s [L E]]. exists s. split; [right; exact L|exact E].
  - destruct (iterate_lang (run text r1) (lang r1) IH1 _ _ _ _ _ H)
      as [ss [Pss [Ess [Hlo Hh]]]].
    exists (List.concat ss). split; [exists ss; auto|exact Ess].
  - apply in_map_iff in H as [mid [<- H]]. cbn [pos]. apply IH1, H.
Qed.

Lemma in_order_gap (items : list string) (pre t : list ascii) :
  in_order items t -> in_order items (pre ++ t).
Proof.
  destruct items as [|x items]; [trivial|].
  intros [gap [after [-> H]]]. exists (pre ++ gap), after.
  split; [rewrite <- app_assoc; reflexivity|exact H].
Qed.

Lemma in_order_next (items : list string) (p : nat) :
  in_order items (skipn (S p) text) -> in_order items (skipn p text).
Proof.
  intros H. rewrite <- (firstn_skipn 1 (skipn p text)), skipn_skipn.
  apply in_order_gap. exact H.
Qed.

Lemma consumed_slice (p q : nat) (s : list ascii) :
  p <= List.length text ->
  skipn p text = s ++ skipn q text ->
  list_ascii_of_string (slice text p q) = s /\ (q <= p -> q = p).
Proof.
  intros Hp E. unfold slice. rewrite list_ascii_of_string_of_list_ascii.
  pose proof (f_equal (@List.length ascii) E) as L.
  rewrite length_app, !length_skipn in L.
  destruct (Nat.le_gt_cases q (List.length text)) as [Hq|Hq].
  - split; [|lia]. rewrite E. replace (q - p) with (List.length s + 0) by lia.
    rewrite firstn_app_2. cbn. apply app_nil_r.
  - split; [|lia]. rewrite firstn_all2 by (rewrite length_skipn; lia).
    rewrite E, (skipn_all2 text) by lia. apply app_nil_r.
Qed.

Lemma scan_sound (r : regex) (fuel p : nat) :
  let items := map (fun m => slice text (m_start m) (m_end m)) (scan text r fuel p) in
  Forall (fun x => lang r (list_ascii_of_string x)) items
  /\ in_order items (skipn p text).
Proof.
  revert p. induction fuel as [|f IH]; intros p; [split; [constructor|exact I]|].
  cbv zeta. rewrite scan_S.
  destruct (Nat.ltb_spec (List.length text) p) as [Hp|Hp]; [split; [constructor|exact I]|].
  destruct (run text r (mkState p [])) as [|st rest] eqn:Er.
  - destruct (IH (S p)) as [F O]. split; [exact F|apply in_order_next, O].
  - destruct (run_lang r (mkState p []) st) as [s [Ls Es]]; [rewrite Er; left; reflexivity|].
    cbn [pos] in Es. destruct (consumed_slice p (pos st) s Hp Es) as [Sl Hq].
    cbn [map m_start m_end].
    destruct (Nat.ltb_spec p (pos st)) as [Hlt|Hge].
    + destruct (IH (pos st)) as [F O]. split.
      * constructor; [rewrite Sl; exact Ls|exact F].
      * exists [], (skipn (pos st) text). rewrite Sl. split; [exact Es|exact O].
    + destruct (IH (S p)) as [F O]. split.
      * constructor; [rewrite Sl; exact Ls|exact F].
      * exists [], (skipn (pos st) text). rewrite Sl. split; [exact Es|].
        rewrite (Hq Hge). apply in_order_next, O.
Qed.

End Sound.

(** [re.findall] without groups: every item matches the pattern, and the
    items are disjoint substrings of the text in text order. *)
Lemma findall_strings_sound (r : regex) (s : string) :
  Forall (fun x => lang r (list_ascii_of_string x)) (findall_strings r s)
  /\ in_order (findall_strings r s) (list_ascii_of_string s).
Proof.
  unfold findall_strings, finditer.
  apply (scan_sound (list_ascii_of_string s) r (S (List.length (list_ascii_of_string s))) 0).
Qed.

Lemma extract_substring_kind (text kind : string) :
  In kind substring_kinds ->
  exists pattern,
    lookup kind patterns = Some pattern
    /\ extract_information text kind = inr (findall_strings pattern text).
Proof.
  intros [ <- | [ <- | [ <- | [ <- | [] ] ] ] ]; eexists; split; reflexivity.
Qed.

End MatchFacts.

Import MatchFacts.

(** X18.  For the kinds [emails], [urls], [dates] and [numbers], every item that
    [extract_information] returns is a string of the kind's pattern, and the
    items are substrings of the text that follow one another without
    overlap, in the order of the text. *)
Theorem extract_items_are_ordered_matches (text kind : string) (items : list string) :
  In kind substring_kinds ->
  extract_information text kind = inr items ->
  exists pattern,
    lookup kind patterns = Some pattern
    /\ Forall (fun x => lang pattern (list_ascii_of_string x)) items
    /\ in_order items (list_ascii_of_string text).
Proof.
  intros Hk He. destruct (extract_substring_kind text kind Hk) as [pattern [Hl Hx]].
  rewrite Hx in He. injection He as <-.
  exists pattern. split; [exact Hl|]. apply findall_strings_sound.
Qed.

Lemma extract_items_are_ordered_matches_witness :
  let text := "Call 555 or mail 12.5 kg" in
  let items := ["555"; "12.5"] in
  In "numbers" substring_kinds
  /\ extract_information text "numbers" = inr items
  /\ exists pattern,
      lookup "numbers" patterns = Some pattern
      /\ Forall (fun x => lang pattern (list_ascii_of_string x)) items
      /\ in_order items (list_ascii_of_string text).
Proof.
  intros text items.
  assert (K : In "numbers" substring_kinds) by (cbn; tauto).
  assert (E : extract_information text "numbers" = inr items) by (vm_compute; reflexivity).
  split; [exact K|]. split; [exact E|].
  apply (extract_items_are_ordered_matches text "numbers" items K E).
Defined.

Module ShapeFacts.

Lemma string_of_list_app (l1 l2 : list ascii) :
  string_of_list_ascii (l1 ++ l2)
  = (string_of_list_ascii l1 ++ string_of_list_ascii l2)%string.
Proof. induction l1 as [|c l1 IH]; cbn; [reflexivity|]. rewrite IH. reflexivity. Qed.

Lemma string_of_list_nonempty (l : list ascii) :
  1 <= List.length l -> string_of_list_ascii l <> "".
Proof. destruct l; cbn; [lia|discriminate]. Qed.

Lemma lang_chr (c : ascii) (s : list ascii) : lang (chr c) s -> s = [c].
Proof.
  intros [d [-> H]]. apply Ascii.eqb_eq in H. subst d. reflexivity.
Qed.

Lemma lang_str (w : string) (s : list ascii) :
  lang (str w) s -> s = list_ascii_of_string w.
Proof.
  revert s. induction w as [|c w IH]; intros s H; [exact H|].
  destruct w as [|d w]; [apply lang_chr, H|].
  destruct H as [s1 [s2 [-> [H1 H2]]]].
  apply lang_chr in H1. subst s1. rewrite (IH _ H2). reflexivity.
Qed.

Lemma lang_opt (r : regex) (s : list ascii) : lang (opt r) s -> s = [] \/ lang r s.
Proof.
  intros [ss [-> [F [_ Hh]]]].
  destruct ss as [|s1 [|s2 ss]]; cbn in Hh; [left; reflexivity| |lia].
  right. cbn. rewrite app_nil_r. inversion F; assumption.
Qed.

Lemma lang_repeat_chars (lo : nat) (hi : option nat) (p : ascii -> bool) (s : list ascii) :
  lang (Repeat lo hi (Char p)) s ->
  forallb p s = true /\ lo <= List.length s
  /\ match hi with Some h => List.length s <= h | None => True end.
Proof.
  intros [ss [-> [F [Hlo Hh]]]].
  assert (A : forallb p (List.concat ss) = true
              /\ List.length (List.concat ss) = List.length ss).
  { clear Hlo Hh. induction F as [|x ss [c [-> Hc]] F [IH1 IH2]]; [split; reflexivity|].
    cbn. rewrite Hc, IH1, IH2. split; reflexivity. }
  destruct A as [A1 A2]. rewrite A2. auto.
Qed.

Lemma forallb_weaken {A} (p q : A -> bool) (l : list A) :
  (forall x, p x = true -> q x = true) -> forallb p l = true -> forallb q l = true.
Proof.
  intros H. induction l as [|x l IH]; [reflexivity|]. cbn.
  intros E. apply andb_prop in E as [E1 E2]. rewrite (H _ E1), (IH E2). reflexivity.
Qed.

Lemma item_of_chars (x : string) (l : list ascii) :
  list_ascii_of_string x = l -> x = string_of_list_ascii l.
Proof. intros <-. symmetry. apply string_of_list_ascii_of_string. Qed.

Lemma numbers_shape (x : string) :
  lang numbers_pattern (list_ascii_of_string x) -> decimal_form x.
Proof.
  intros H.
  destruct H as [b1 [r1 [E1 [B1 H]]]]. cbn in B1. subst b1.
  destruct H as [w [r2 [E2 [W H]]]].
  destruct H as [o [b2 [E3 [O B2]]]]. cbn in B2. subst b2.
  apply lang_repeat_chars in W as [Wd [Wl _]].
  cbn [app] in E1. rewrite E2, E3, app_nil_r in E1. clear E2 E3.
  apply item_of_chars in E1. subst x.
  exists (string_of_list_ascii w).
  split; [apply string_of_list_nonempty, Wl|].
  split; [unfold digit_string; rewrite WordFacts.all_chars_of_list; exact Wd|].
  apply lang_opt in O as [->|O]; [left; rewrite app_nil_r; reflexivity|].
  right. destruct O as [d [f [-> [D F]]]].
  apply lang_chr in D. subst d.
  apply lang_repeat_chars in F as [Fd [Fl _]].
  exists (string_of_list_ascii f).
  split; [apply string_of_list_nonempty, Fl|].
  split; [unfold digit_string; rewrite WordFacts.all_chars_of_list; exact Fd|].
  rewrite string_of_list_app. reflexivity.
Qed.

Lemma lang_plus_nonempty (r : regex) (s : list ascii) :
  (forall t, lang r t -> 1 <= List.length t) -> lang (plus r) s -> 1 <= List.length s.
Proof.
  intros Hr [ss [-> [F [Hlo _]]]].
  destruct F as [|t ss Ht F]; [cbn in Hlo; lia|].
  cbn. rewrite length_app. specialize (Hr _ Ht). lia.
Qed.

Lemma urls_shape (x : string) :
  lang urls_pattern (list_ascii_of_string x) -> url_form x.
Proof.
  intros H.
  destruct H as [h [r1 [E1 [Hh H]]]]. apply lang_str in Hh. subst h.
  destruct H as [s [r2 [E2 [Hs H]]]].
  destruct H as [c [r3 [E3 [Hc Hrest]]]]. apply lang_str in Hc. subst c.
  assert (N : 1 <= List.length r3).
  { revert Hrest. apply lang_plus_nonempty. intros t Ht.
    destruct Ht as [[c [-> _]]|[[c [-> _]]|[[c [-> _]]|[[c [-> _]]|Ht]]]];
      try (cbn; lia).
    destruct Ht as [t1 [t2 [-> [[c [-> _]] _]]]]. cbn. lia. }
  rewrite E2, E3 in E1. clear E2 E3 Hrest.
  apply item_of_chars in E1. subst x.
  exists (string_of_list_ascii r3). split; [apply string_of_list_nonempty, N|].
  apply lang_opt in Hs as [->|Hs].
  - left. reflexivity.
  - right. apply lang_chr in Hs. subst s. reflexivity.
Qed.

Lemma emails_shape (x : string) :
  lang emails_pattern (list_ascii_of_string x) -> email_form x.
Proof.
  intros H.
  destruct H as [b1 [r1 [E1 [B1 H]]]]. cbn in B1. subst b1.
  destruct H as [l [r2 [E2 [L H]]]].
  destruct H as [a [r3 [E3 [A H]]]]. apply lang_chr in A. subst a.
  destruct H as [d [r4 [E4 [D H]]]].
  destruct H as [o [r5 [E5 [O H]]]]. apply lang_chr in O. subst o.
  destruct H as [t [b2 [E6 [T B2]]]]. cbn in B2. subst b2.
  apply lang_repeat_chars in L as [Lc [Ll _]].
  apply lang_repeat_chars in D as [Dc [Dl _]].
  apply lang_repeat_chars in T as [Tc [Tl _]].
  cbn [app] in E1. rewrite E2, E3, E4, E5, E6, app_nil_r in E1.
  apply item_of_chars in E1. subst x.
  exists (string_of_list_ascii l), (string_of_list_ascii d), (string_of_list_ascii t).
  split.
  { rewrite string_of_list_app. cbn [app string_of_list_ascii].
    rewrite string_of_list_app. reflexivity. }
  split; [apply string_of_list_nonempty, Ll|].
  split; [apply string_of_list_nonempty, Dl|].
  split; [rewrite string_of_list_length; exact Tl|].
  rewrite !WordFacts.all_chars_of_list. repeat split.
  - revert Lc. apply forallb_weaken. intros c. cbn [existsb]. cbv beta.
    destruct (letter c), (digit c), (one_of "._%+-" c); cbn; congruence.
  - revert Dc. apply forallb_weaken. intros c. cbn [existsb]. cbv beta.
    destruct (letter c), (digit c), (one_of ".-" c); cbn; congruence.
  - revert Tc. apply forallb_weaken. intros c. cbn [existsb]. cbv beta.
    unfold letter, orp.
    destruct (range "A" "Z" c), (one_of "|" c), (range "a" "z" c); cbn; congruence.
Qed.

Lemma lang_separator (s : list ascii) :
  lang (Char (one_of "/-")) s ->
  string_of_list_ascii s = "/" \/ string_of_list_ascii s = "-".
Proof.
  intros [c [-> H]]. unfold one_of in H. cbn [mem_char] in H.
  apply orb_prop in H as [H|H]; [apply Ascii.eqb_eq in H; subst c; left; reflexivity|].
  apply orb_prop in H as [H|H]; [apply Ascii.eqb_eq in H; subst c; right; reflexivity|].
  discriminate H.
Qed.

Lemma dates_shape (x : string) :
  lang dates_pattern (list_ascii_of_string x) -> date_form x.
Proof.
  intros H.
  destruct H as [b1 [r1 [E1 [B1 H]]]]. cbn in B1. subst b1.
  destruct H as [m [b2 [E2 [M B2]]]]. cbn in B2. subst b2.
  cbn [app] in E1. rewrite E2, app_nil_r in E1. clear E2.
  apply item_of_chars in E1. subst x.
  assert (R : forall a s1 b s2 c : list ascii,
             forallb digit a = true -> forallb digit b = true -> forallb digit c = true ->
             lang (Char (one_of "/-")) s1 -> lang (Char (one_of "/-")) s2 ->
             1 <= List.length b <= 2 ->
             (1 <= List.length a <= 2 /\ 2 <= List.length c <= 4)
             \/ (List.length a = 4 /\ 1 <= List.length c <= 2) ->
             date_form (string_of_list_ascii (a ++ s1 ++ b ++ s2 ++ c))).
  { intros a s1 b s2 c Da Db Dc S1 S2 Lb Lac.
    exists (string_of_list_ascii a), (string_of_list_ascii s1), (string_of_list_ascii b),
           (string_of_list_ascii s2), (string_of_list_ascii c).
    split; [rewrite !string_of_list_app; reflexivity|].
    unfold digit_string. rewrite !WordFacts.all_chars_of_list, !string_of_list_length.
    repeat split; try assumption; try lia; try (apply lang_separator; assumption). }
  destruct M as [M|M].
  - destruct M as [a [r2 [-> [A M]]]]. destruct M as [s1 [r3 [-> [S1 M]]]].
    destruct M as [b [r4 [-> [B M]]]]. destruct M as [s2 [c [-> [S2 C]]]].
    apply lang_repeat_chars in A as [Ad [Al Ah]].
    apply lang_repeat_chars in B as [Bd [Bl Bh]].
    apply lang_repeat_chars in C as [Cd [Cl Ch]].
    apply R; try assumption; [lia|left; lia].
  - destruct M as [a [r2 [-> [A M]]]]. destruct M as [s1 [r3 [-> [S1 M]]]].
    destruct M as [b [r4 [-> [B M]]]]. destruct M as [s2 [c [-> [S2 C]]]].
    apply lang_repeat_chars in A as [Ad [Al Ah]].
    apply lang_repeat_chars in B as [Bd [Bl Bh]].
    apply lang_repeat_chars in C as [Cd [Cl Ch]].
    apply R; try assumption; [lia|right; lia].
Qed.

Lemma Forall_shape (r : regex) (P : string -> Prop) (items : list string) :
  (forall x, lang r (list_ascii_of_string x) -> P x) ->
  Forall (fun x => lang r (list_ascii_of_string x)) items -> Forall P items.
Proof. intros H. apply Forall_impl. exact H. Qed.

End ShapeFacts.

Import ShapeFacts.

(** X19.  Every item returned for ["numbers"] is an unsigned decimal: one or more
    digits, optionally followed by a point and one or more digits.  No sign,
    no exponent, no leading or trailing point. *)
Theorem extract_numbers_are_unsigned_decimals (text : string) :
  exists items,
    extract_information text "numbers" = inr items /\ Forall decimal_form items.
Proof.
  exists (findall_strings numbers_pattern text). split; [reflexivity|].
  apply (Forall_shape numbers_pattern); [apply numbers_shape|].
  apply findall_strings_sound.
Qed.

(** X20.  Every item returned for ["urls"] starts with [http://] or [https://] and
    has at least one character after it. *)
Theorem extract_urls_start_with_scheme (text : string) :
  exists items,
    extract_information text "urls" = inr items /\ Forall url_form items.
Proof.
  exists (findall_strings urls_pattern text). split; [reflexivity|].
  apply (Forall_shape urls_pattern); [apply urls_shape|].
  apply findall_strings_sound.
Qed.

(** X21.  Every item returned for ["emails"] reads [local@domain.tld]: a non-empty
    local part, a non-empty domain, and a last label of at least two
    characters that are letters or the bar [|], which the class [[A-Z|a-z]]
    of the pattern admits. *)
Theorem extract_emails_have_local_domain_tld (text : string) :
  exists items,
    extract_information text "emails" = inr items /\ Forall email_form items.
Proof.
  exists (findall_strings emails_pattern text). split; [reflexivity|].
  apply (Forall_shape emails_pattern); [apply emails_shape|].
  apply findall_strings_sound.
Qed.

(** X22.  Every item returned for ["dates"] is three groups of digits separated by
    [/] or [-] (the two separators need not agree): one or two digits, one or
    two digits, two to four digits; or four digits, one or two, one or two.
    The digits are not checked to be a calendar date. *)
Theorem extract_dates_are_digit_groups (text : string) :
  exists items,
    extract_information text "dates" = inr items /\ Forall date_form items.
Proof.
  exists (findall_strings dates_pattern text). split; [reflexivity|].
  apply (Forall_shape dates_pattern); [apply dates_shape|].
  apply findall_strings_sound.
Qed.

Module AnalysisFacts.
Local Open Scope Z_scope.

(** What [analyze_text] puts in the fields that do not depend on the two
    averages. *)
Lemma analyze_text_fields (text : string) (a : text_analysis) :
  analyze_text text = inr a ->
  word_count a = llen (str_split text)
  /\ character_analysis a
     = mkCharCounts (len text) (len (str_remove " " text))
         (count_chars isupper text) (count_chars islower text)
         (count_chars isdigit text)
         (count_chars (fun c => negb (isalnum c) && negb (isspace c)) text)
  /\ longest_word a
     = match str_split text with [] => "" | w :: ws => longest w ws end
  /\ shortest_word a
     = match str_split text with [] => "" | w :: ws => shortest_of w ws end.
Proof.
  intros H. unfold analyze_text in H. apply except_400_inr in H. cbv zeta in H.
  apply bind_inr in H as (avg & _ & H).
  apply bind_inr in H as (rounded & _ & H).
  apply bind_inr in H as (avg_sentence & _ & H).
  injection H as <-. cbn. auto.
Qed.

Lemma char_counted_once (c : ascii) :
  (if isupper c then 1 else 0) + (if islower c then 1 else 0)
  + (if isdigit c then 1 else 0)
  + (if negb (isalnum c) && negb (isspace c) then 1 else 0)
  <= (if Ascii.eqb c " " then 0 else 1).
Proof. destruct c as [[] [] [] [] [] [] [] []]; vm_compute; discriminate. Qed.

Lemma ascii_char_counted_once (c : ascii) :
  is_ascii c = true ->
  (if isupper c then 1 else 0) + (if islower c then 1 else 0)
  + (if isdigit c then 1 else 0)
  + (if negb (isalnum c) && negb (isspace c) then 1 else 0)
  + (if isspace c then 1 else 0) = 1.
Proof.
  destruct c as [[] [] [] [] [] [] [] []]; vm_compute; intros H;
    first [reflexivity | discriminate H].
Qed.

Lemma len_cons (c : ascii) (s : string) : len (String c s) = 1 + len s.
Proof. unfold len. cbn [String.length]. lia. Qed.

Lemma count_chars_bounds (p : ascii -> bool) (s : string) :
  0 <= count_chars p s <= len s.
Proof.
  induction s as [|c s IH]; [cbn; lia|].
  rewrite len_cons. cbn [count_chars]. destruct (p c); lia.
Qed.

Lemma counts_no_spaces (s : string) :
  count_chars isupper s + count_chars islower s + count_chars isdigit s
  + count_chars (fun c => negb (isalnum c) && negb (isspace c)) s
  <= len (str_remove " " s) <= len s.
Proof.
  induction s as [|c s IH]; [cbn; lia|].
  rewrite len_cons. cbn [count_chars str_remove].
  pose proof (char_counted_once c) as H.
  destruct (Ascii.eqb c " "); [|rewrite len_cons]; lia.
Qed.

Lemma counts_ascii (s : string) :
  ascii_text s = true ->
  count_chars isupper s + count_chars islower s + count_chars isdigit s
  + count_chars (fun c => negb (isalnum c) && negb (isspace c)) s
  + count_chars isspace s = len s.
Proof.
  induction s as [|c s IH]; [reflexivity|].
  cbn [ascii_text]. intros H. apply andb_prop in H as [Hc Hs].
  rewrite len_cons. cbn [count_chars].
  pose proof (ascii_char_counted_once c Hc). specialize (IH Hs). lia.
Qed.

Lemma longest_spec (ws : list string) (w : string) :
  In (longest w ws) (w :: ws)
  /\ forall x, In x (w :: ws) ->
       (String.length x <= String.length (longest w ws))%nat.
Proof.
  unfold longest. revert w. induction ws as [|y ws IH]; intros w; cbn [fold_left].
  - split; [left; reflexivity|]. intros x [<-|[]]. lia.
  - destruct (Nat.ltb_spec (String.length w) (String.length y)) as [L|L].
    + destruct (IH y) as [I M]. split.
      * destruct I as [I|I]; [right; left; exact I|right; right; exact I].
      * intros x [<-|[<-|H]].
        -- specialize (M y (or_introl eq_refl)). lia.
        -- apply M. left. reflexivity.
        -- apply M. right. exact H.
    + destruct (IH w) as [I M]. split.
      * destruct I as [I|I]; [left; exact I|right; right; exact I].
      * intros x [<-|[<-|H]].
        -- apply M. left. reflexivity.
        -- specialize (M w (or_introl eq_refl)). lia.
        -- apply M. right. exact H.
Qed.

Lemma shortest_spec (ws : list string) (w : string) :
  In (shortest_of w ws) (w :: ws)
  /\ forall x, In x (w :: ws) ->
       (String.length (shortest_of w ws) <= String.length x)%nat.
Proof.
  unfold shortest_of. revert w. induction ws as [|y ws IH]; intros w; cbn [fold_left].
  - split; [left; reflexivity|]. intros x [<-|[]]. lia.
  - destruct (Nat.ltb_spec (String.length y) (String.length w)) as [L|L].
    + destruct (IH y) as [I M]. split.
      * destruct I as [I|I]; [right; left; exact I|right; right; exact I].
      * intros x [<-|[<-|H]].
        -- specialize (M y (or_introl eq_refl)). lia.
        -- apply M. left. reflexivity.
        -- apply M. right. exact H.
    + destruct (IH w) as [I M]. split.
      * destruct I as [I|I]; [left; exact I|right; right; exact I].
      * intros x [<-|[<-|H]].
        -- apply M. left. reflexivity.
        -- specialize (M w (or_introl eq_refl)). lia.
        -- apply M. right. exact H.
Qed.

End AnalysisFacts.

Import AnalysisFacts.

(** X23.  The character counts of [analyze_text], for a text whose characters are
    code points U+0000 to U+00FF (the strings of this development; beyond
    that range Python has characters that are upper case and not
    alphanumeric, which the code counts twice): no character is counted
    twice among uppercase, lowercase, digits and special characters, and none
    of them is a space, so their sum is at most [chars_no_spaces], which is
    at most [total_chars], the length of the text.  On ASCII text every
    character is an uppercase letter, a lowercase letter, a digit, a special
    character or whitespace, exactly one of them. *)
Theorem analyze_text_character_counts (text : string) (a : text_analysis) :
  analyze_text text = inr a ->
  let c := character_analysis a in
  total_chars c = len text
  /\ (0 <= uppercase c /\ 0 <= lowercase c /\ 0 <= digits c /\ 0 <= special_chars c)%Z
  /\ (uppercase c + lowercase c + digits c + special_chars c <= chars_no_spaces c)%Z
  /\ (chars_no_spaces c <= total_chars c)%Z
  /\ (ascii_text text = true ->
      (uppercase c + lowercase c + digits c + special_chars c
       + count_chars isspace text = total_chars c)%Z).
Proof.
  intros H. destruct (analyze_text_fields text a H) as (_ & -> & _).
  cbn [total_chars chars_no_spaces uppercase lowercase digits special_chars].
  pose proof (counts_no_spaces text) as [B1 B2].
  split; [reflexivity|]. split.
  { repeat split; apply count_chars_bounds. }
  split; [exact B1|]. split; [exact B2|].
  apply counts_ascii.
Qed.

Lemma analyze_text_character_counts_witness :
  exists a,
    analyze_text "Hi, Bob 42!" = inr a
    /\ let c := character_analysis a in
       total_chars c = len "Hi, Bob 42!"
       /\ (0 <= uppercase c /\ 0 <= lowercase c /\ 0 <= digits c /\ 0 <= special_chars c)%Z
       /\ (uppercase c + lowercase c + digits c + special_chars c <= chars_no_spaces c)%Z
       /\ (chars_no_spaces c <= total_chars c)%Z
       /\ (ascii_text "Hi, Bob 42!" = true ->
           (uppercase c + lowercase c + digits c + special_chars c
            + count_chars isspace "Hi, Bob 42!" = total_chars c)%Z).
Proof.
  assert (E : exists a, analyze_text "Hi, Bob 42!" = inr a)
    by (eexists; vm_compute; reflexivity).
  destruct E as [a E]. exists a. split; [exact E|].
  apply (analyze_text_character_counts "Hi, Bob 42!" a E).
Defined.

(** X24.  The ["longest_word"] and the ["shortest_word"] of [analyze_text] are
    words of the text, no word is longer than the first or shorter than the
    second, and both are the empty string exactly when the text has no
    word. *)
Theorem analyze_text_longest_and_shortest (text : string) (a : text_analysis) :
  analyze_text text = inr a ->
  let words := str_split text in
  word_count a = llen words
  /\ (words = [] -> longest_word a = "" /\ shortest_word a = "")
  /\ (words <> [] ->
      In (longest_word a) words /\ In (shortest_word a) words
      /\ longest_word a <> "" /\ shortest_word a <> ""
      /\ forall w, In w words ->
           String.length (shortest_word a) <= String.length w
           /\ String.length w <= String.length (longest_word a)).
Proof.
  intros H words. destruct (analyze_text_fields text a H) as (Hc & _ & -> & ->).
  fold words. split; [exact Hc|].
  pose proof (WordFacts.str_split_words text) as W. fold words in W.
  destruct words as [|w ws]; (split; [intros E|intros N]); try congruence; auto.
  destruct (longest_spec ws w) as [IL ML]. destruct (shortest_spec ws w) as [IS MS].
  assert (Ne : forall x, In x (w :: ws) -> x <> "").
  { intros x Hx. rewrite Forall_forall in W.
    apply (WordFacts.is_word_spec x), (W x Hx). }
  split; [exact IL|]. split; [exact IS|].
  split; [apply Ne, IL|]. split; [apply Ne, IS|].
  intros x Hx. split; [apply MS, Hx|apply ML, Hx].
Qed.

Lemma analyze_text_longest_and_shortest_witness :
  exists a,
    analyze_text "a quick brown fox" = inr a
    /\ let words := str_split "a quick brown fox" in
       word_count a = llen words
       /\ (words = [] -> longest_word a = "" /\ shortest_word a = "")
       /\ (words <> [] ->
           In (longest_word a) words /\ In (shortest_word a) words
           /\ longest_word a <> "" /\ shortest_word a <> ""
           /\ forall w, In w words ->
                String.length (shortest_word a) <= String.length w
                /\ String.length w <= String.length (longest_word a)).
Proof.
  assert (E : exists a, analyze_text "a quick brown fox" = inr a)
    by (eexists; vm_compute; reflexivity).
  destruct E as [a E]. exists a. split; [exact E|].
  apply (analyze_text_longest_and_shortest "a quick brown fox" a E).
Defined.

Module AnalysisReturns.
Import AnalysisFacts.
Local Open Scope Z_scope.

Lemma bound_representable : representable (2 ^ 63 * 2 ^ unit_exp).
Proof.
  exists 1, (63 + unit_exp). split; [lia|]. split; [unfold unit_exp; lia|].
  rewrite Z.pow_add_r by (unfold unit_exp; lia).
  assert (0 < 2 ^ unit_exp) by (apply pow2_pos; unfold unit_exp; lia).
  rewrite Z.abs_eq; lia.
Qed.

Lemma bound_below_max : 2 ^ 63 * 2 ^ unit_exp <= max_units.
Proof. vm_compute. discriminate. Qed.

(** [a / b] on ints within the range of a string length: the quotient exists
    and is at most [2^63]. *)
Lemma int_truediv_bounded (a b : Z) :
  0 <= a <= 2 ^ 63 -> 0 < b ->
  exists x, int_truediv a b = inr x /\ number_ok x
            /\ 0 <= units x <= 2 ^ 63 * 2 ^ unit_exp.
Proof.
  intros Ha Hb. unfold int_truediv.
  destruct (Z.eqb_spec b 0) as [E|_]; [lia|].
  destruct (Z.ltb_spec b 0) as [L|_]; [lia|].
  pose proof bound_below_max as BM.
  assert (HU : 0 < 2 ^ unit_exp) by (apply pow2_pos; unfold unit_exp; lia).
  set (U := 2 ^ unit_exp) in *. set (M := max_units) in *.
  destruct (round_ratio_in_range a b Hb) as [x Hx].
  { fold U M. rewrite Z.abs_eq by lia. nia. }
  rewrite Hx. exists x. split; [reflexivity|].
  destruct (round_ratio_spec a b x Hb Hx) as (V & F & B).
  split; [split; assumption|]. fold U in B. split.
  - destruct (B 0) as [Lo _]; [exists 0, 0; cbn; lia|]. apply Lo. nia.
  - destruct (B (2 ^ 63 * U) bound_representable) as [_ Hi]. apply Hi. nia.
Qed.

(** [round(x, 2)] on such a quotient returns. *)
Lemma float_round_bounded (x : float) :
  number_ok x -> 0 <= units x <= 2 ^ 63 * 2 ^ unit_exp ->
  exists y, float_round x 2 = inr y.
Proof.
  intros [V F] [H0 H1]. destruct x as [s|s| |s m e]; try discriminate F;
    [eexists; reflexivity|].
  apply valid_finite_inv in V as (_ & He & _).
  pose proof bound_below_max as BM.
  assert (HU : 0 < 2 ^ unit_exp) by (apply pow2_pos; unfold unit_exp; lia).
  cbn [units] in H0, H1. pose proof (units_finite_pos m e ltac:(lia)) as P.
  assert (s = false) as -> by (destruct s; cbn [cond_Zopp] in H0; [lia|reflexivity]).
  cbn [cond_Zopp] in H1. cbn [float_round].
  assert (Q : exists n d, (if 0 <=? e then (Zpos m * 2 ^ e, 1) else (Zpos m, 2 ^ (- e)))
                          = (n, d) /\ 0 < d /\ 0 <= n /\ n <= 2 ^ 63 * d).
  { destruct (Z.leb_spec 0 e) as [G|G].
    - exists (Zpos m * 2 ^ e), 1. split; [reflexivity|].
      replace (e + unit_exp) with (unit_exp + e) in H1 by lia.
      rewrite Z.pow_add_r in H1 by (unfold unit_exp; lia).
      pose proof (pow2_pos e G). nia.
    - exists (Zpos m), (2 ^ (- e)). split; [reflexivity|].
      rewrite (pow2_split (e + unit_exp) unit_exp) in H1 by lia.
      replace (unit_exp - (e + unit_exp)) with (- e) in H1 by lia.
      pose proof (pow2_pos (e + unit_exp) ltac:(lia)).
      pose proof (pow2_pos (- e) ltac:(lia)). nia. }
  destruct Q as (n & d & -> & Hd & Hn & Hnd).
  change (10 ^ 2) with 100.
  assert (Q0 : 0 <= div_half_even (n * 100) d) by (apply div_half_even_lower; lia).
  assert (Q1 : div_half_even (n * 100) d <= 2 ^ 63 * 100)
    by (apply div_half_even_upper; [exact Hd|nia]).
  set (q := div_half_even (n * 100) d) in *.
  destruct (q =? 0); [eexists; reflexivity|]. cbn [cond_Zopp].
  destruct (round_ratio_in_range q 100 ltac:(lia)) as [y Hy].
  { rewrite Z.abs_eq by lia. set (U := 2 ^ unit_exp) in *. set (M := max_units) in *. nia. }
  rewrite Hy. eexists. reflexivity.
Qed.

(** The lengths of the words of a text add up to at most its length. *)
Lemma split_runs_total (s : string) (cur : list ascii) :
  fold_right (fun w t => len w + t) 0 (split_runs cur s)
  <= Z.of_nat (List.length cur) + len s.
Proof.
  assert (Flush : forall cur, len (string_of_list_ascii (rev cur)) = Z.of_nat (List.length cur)).
  { intros l. unfold len. rewrite string_of_list_length, length_rev. reflexivity. }
  revert cur. induction s as [|c s IH]; intros cur; cbn [split_runs].
  - destruct cur as [|d cur]; [cbn; lia|].
    cbn [fold_right]. rewrite Flush. unfold len. cbn [String.length]. lia.
  - rewrite len_cons. destruct (isspace c).
    + destruct cur as [|d cur].
      * specialize (IH []). cbn [List.length] in *. lia.
      * cbn [fold_right]. rewrite Flush. specialize (IH []). cbn [List.length] in *. lia.
    + specialize (IH (c :: cur)). cbn [List.length] in IH. lia.
Qed.

Lemma lstrip_length (p : ascii -> bool) (s : string) :
  (String.length (lstrip p s) <= String.length s)%nat.
Proof.
  induction s as [|c s IH]; cbn [lstrip]; [lia|].
  destruct (p c); cbn [String.length]; lia.
Qed.

Lemma strip_chars_length (w chars : string) :
  0 <= len (str_strip_chars w chars) <= len w.
Proof.
  unfold len, str_strip_chars, rstrip.
  rewrite TextFacts.str_reverse_length.
  pose proof (lstrip_length (fun c => mem_char c chars)
                (str_reverse (lstrip (fun c => mem_char c chars) w))) as H1.
  rewrite TextFacts.str_reverse_length in H1.
  pose proof (lstrip_length (fun c => mem_char c chars) w) as H2. lia.
Qed.

Lemma sum_lengths_bound (g : string -> Z) (l : list string) (acc : Z) :
  (forall w, 0 <= g w <= len w) ->
  acc <= fold_left Z.add (map g l) acc
      <= acc + fold_right (fun w t => len w + t) 0 l.
Proof.
  intros Hg. revert acc. induction l as [|w l IH]; intros acc; cbn [map fold_left fold_right].
  - lia.
  - specialize (IH (acc + g w)). specialize (Hg w). lia.
Qed.

Lemma words_count_bound (l : list string) :
  Forall (fun w => is_word w = true) l ->
  llen l <= fold_right (fun w t => len w + t) 0 l.
Proof.
  unfold llen. induction 1 as [|w l Hw Hl IH]; [cbn; lia|].
  cbn [List.length fold_right]. apply WordFacts.is_word_spec in Hw as [Hne _].
  assert (1 <= len w) by (destruct w; [congruence|rewrite len_cons; unfold len; lia]).
  lia.
Qed.

End AnalysisReturns.

Import AnalysisReturns.

(** X25.  [analyze_text] returns an analysis for every text: its error branch is
    never taken.  (The bound on the length is the largest length of a Python
    string.) *)
Theorem analyze_text_always_returns (text : string) :
  (len text < 2 ^ 63)%Z ->
  exists a, analyze_text text = inr a.
Proof.
  intros Hlen.
  pose proof (split_runs_total text []) as T. cbn [List.length] in T.
  fold (str_split text) in T.
  pose proof (WordFacts.str_split_words text) as W.
  pose proof (words_count_bound _ W) as C.
  unfold analyze_text. cbv zeta.
  match goal with
  | |- exists a, except_400 _ (bind ?c _) = inr a =>
      assert (H1 : exists v, c = inr v /\ exists r, round2 v = inr r)
  end.
  { destruct (map _ (str_split text)) as [|n ns] eqn:E;
      [eexists; split; [reflexivity|eexists; reflexivity]|].
    rewrite <- E.
    pose proof (sum_lengths_bound
                  (fun word => len (str_strip_chars word stripped_punctuation))
                  (str_split text) 0%Z
                  (fun w => strip_chars_length w stripped_punctuation)) as S.
    destruct (int_truediv_bounded
                (fold_left Z.add
                   (map (fun word => len (str_strip_chars word stripped_punctuation))
                      (str_split text)) 0%Z)
                (llen (map (fun word => len (str_strip_chars word stripped_punctuation))
                         (str_split text))))
      as (x & Hx & Nx & Bx); [lia| |].
    { rewrite E. unfold llen. cbn [List.length]. lia. }
    rewrite Hx. cbn [bind]. eexists. split; [reflexivity|].
    unfold round2. destruct (float_round_bounded x Nx Bx) as [y Hy].
    rewrite Hy. eexists. reflexivity. }
  destruct H1 as (v & -> & r & Hr). cbn [bind]. rewrite Hr. cbn [bind].
  match goal with
  | |- exists a, except_400 _ (bind ?c _) = inr a =>
      assert (H2 : exists s, c = inr s)
  end.
  { match goal with
    | |- exists s, match ?l with [] => _ | _ => _ end = inr s =>
        destruct l as [|s0 ss] eqn:E; [eexists; reflexivity|]
    end.
    destruct (int_truediv_bounded (llen (str_split text)) (llen (s0 :: ss)))
      as (x & Hx & Nx & Bx).
    - unfold llen in *. lia.
    - unfold llen. cbn [List.length]. lia.
    - rewrite Hx. cbn [bind]. unfold round2.
      destruct (float_round_bounded x Nx Bx) as [y Hy]. rewrite Hy. eexists. reflexivity. }
  destruct H2 as (s & ->). cbn [bind]. eexists. reflexivity.
Qed.

Lemma analyze_text_always_returns_witness :
  (len "One. Two words." < 2 ^ 63)%Z
  /\ exists a, analyze_text "One. Two words." = inr a.
Proof.
  assert (L : (len "One. Two words." < 2 ^ 63)%Z) by (vm_compute; reflexivity).
  split; [exact L|].
  apply (analyze_text_always_returns "One. Two words." L).
Defined.

Module CountFacts.
Import AnalysisFacts AnalysisReturns.
Local Open Scope Z_scope.

Lemma split_at_length (sep : string) (s : string) (skip : nat) (cur : list ascii) :
  1 <= llen (split_at sep skip cur s) <= 1 + len s.
Proof.
  unfold llen. revert skip cur. induction s as [|c s IH]; intros skip cur.
  - cbn. lia.
  - rewrite len_cons. cbn [split_at]. destruct skip as [|k].
    + destruct (String.prefix sep (String c s)).
      * cbn [List.length]. specialize (IH (String.length sep - 1)%nat []). lia.
      * specialize (IH 0%nat (c :: cur)). lia.
    + specialize (IH k cur). lia.
Qed.

Lemma filter_llen {A} (p : A -> bool) (l : list A) : 0 <= llen (filter p l) <= llen l.
Proof.
  unfold llen. induction l as [|x l IH]; cbn [filter List.length]; [lia|].
  destruct (p x); cbn [List.length]; lia.
Qed.

(** The counts and the averages that [analyze_text] returns. *)
Lemma analyze_text_counts (text : string) (a : text_analysis) :
  analyze_text text = inr a ->
  word_count a = llen (str_split text)
  /\ sentence_count a
     = llen (filter (fun s => negb (String.eqb (str_strip s) ""))
               (str_split_sep text "."))
  /\ paragraph_count a = llen (str_split_sep text (String newline (String newline "")))
  /\ (str_split text = [] -> avg_word_length a = Int 0)
  /\ (sentence_count a = 0 -> avg_sentence_length a = Int 0).
Proof.
  intros H. unfold analyze_text in H. apply except_400_inr in H. cbv zeta in H.
  apply bind_inr in H as (avg & Havg & H).
  apply bind_inr in H as (rounded & Hr & H).
  apply bind_inr in H as (avg_sentence & Hs & H).
  injection H as <-.
  cbn [word_count sentence_count paragraph_count avg_word_length avg_sentence_length].
  assert (L : forall l : list string, llen (map str_strip l) = llen l)
    by (intros l; unfold llen; rewrite length_map; reflexivity).
  rewrite L.
  split; [reflexivity|]. split; [reflexivity|]. split; [reflexivity|]. split.
  - intros E. rewrite E in Havg. cbn [map] in Havg. injection Havg as <-.
    cbn in Hr. injection Hr as <-. reflexivity.
  - intros E.
    destruct (map str_strip _) as [|s0 ss] eqn:M; [injection Hs as <-; reflexivity|].
    apply (f_equal (@List.length string)) in M. rewrite length_map in M.
    cbn [List.length] in M. unfold llen in E. lia.
Qed.

End CountFacts.

Import CountFacts.

(** X26.  The counts of [analyze_text]: at most as many words as characters; at
    most one sentence and one paragraph more than characters; at least one
    paragraph, even for the empty text.  With no word the average word length
    is the integer 0, and with no sentence the average sentence length is the
    integer 0, not a float. *)
Theorem analyze_text_count_bounds (text : string) (a : text_analysis) :
  analyze_text text = inr a ->
  (0 <= word_count a <= len text)%Z
  /\ (0 <= sentence_count a <= len text + 1)%Z
  /\ (1 <= paragraph_count a <= len text + 1)%Z
  /\ (word_count a = 0%Z -> avg_word_length a = Int 0)
  /\ (sentence_count a = 0%Z -> avg_sentence_length a = Int 0).
Proof.
  intros H. destruct (analyze_text_counts text a H) as (-> & Hs & -> & Hw & Hz).
  pose proof (AnalysisReturns.split_runs_total text []) as T. cbn [List.length] in T.
  fold (str_split text) in T.
  pose proof (AnalysisReturns.words_count_bound _ (WordFacts.str_split_words text)) as C.
  pose proof (split_at_length "." text 0 []) as S. fold (str_split_sep text ".") in S.
  pose proof (filter_llen (fun s => negb (String.eqb (str_strip s) ""))
                (str_split_sep text ".")) as F.
  pose proof (split_at_length (String newline (String newline "")) text 0 []) as P.
  fold (str_split_sep text (String newline (String newline ""))) in P.
  split; [unfold llen in *; lia|]. split; [rewrite Hs; lia|]. split; [lia|].
  split; [|exact Hz].
  intros E. apply Hw. destruct (str_split text); [reflexivity|].
  unfold llen in E. cbn [List.length] in E. lia.
Qed.

Lemma analyze_text_count_bounds_witness :
  exists a,
    analyze_text "..." = inr a
    /\ (0 <= word_count a <= len "...")%Z
    /\ (0 <= sentence_count a <= len "..." + 1)%Z
    /\ (1 <= paragraph_count a <= len "..." + 1)%Z
    /\ (word_count a = 0%Z -> avg_word_length a = Int 0)
    /\ (sentence_count a = 0%Z -> avg_sentence_length a = Int 0).
Proof.
  assert (E : exists a, analyze_text "..." = inr a) by (eexists; vm_compute; reflexivity).
  destruct E as [a E]. exists a. split; [exact E|].
  apply (analyze_text_count_bounds "..." a E).
Defined.

(* ================================================================== *)
(** * Properties of the endpoints *)
(* ================================================================== *)

Module EndpointFacts.

Lemma except_400_status {A} (prefix : string) (body : py A) (h : HTTPException) :
  except_400 prefix body = inl h -> status_code h = 400%Z.
Proof. destruct body; cbn; intros H; [injection H as <-; reflexivity|discriminate H]. Qed.

(** The endpoint, by what the computation it selects gives. *)
Lemma math_operations_cases
  (platform_pow : float -> float -> py float)
  (statistics_median statistics_stdev statistics_variance : list float -> py float)
  (builtin_sum : list float -> float)
  (math_log : float -> py float) (math_log_base : float -> float -> py float)
  (math_sin math_cos math_tan : float -> py float)
  (math_pow : float -> float -> py float) (long_max : Z)
  (math_response : math_result -> string -> py MathResponse)
  (request : MathRequest) :
  let answer :=
    math_operations platform_pow statistics_median statistics_stdev statistics_variance
                    builtin_sum math_log math_log_base math_sin math_cos math_tan
                    math_pow long_max math_response request in
  match math_computation platform_pow statistics_median statistics_stdev
          statistics_variance builtin_sum math_log math_log_base math_sin math_cos
          math_tan math_pow long_max request with
  | Some (inl h) => answer = inl h /\ status_code h = 400%Z
  | Some (inr result) =>
      answer = reraise_or_500 (lift (math_response result (mreq_operation request)))
  | None => exists h, answer = inl h /\ status_code h = 400%Z
  end.
Proof.
  intros answer. subst answer. unfold math_operations, math_computation. cbv zeta.
  destruct (String.eqb (mreq_operation request) "statistics").
  { destruct (calculate_statistics _ _ _ _ _) as [h|x] eqn:E; cbn [tagged].
    - split; [reflexivity|]. unfold calculate_statistics in E.
      apply except_400_status in E. exact E.
    - reflexivity. }
  destruct (String.eqb (mreq_operation request) "quadratic").
  { destruct (mreq_a request) as [a|], (mreq_b request) as [b|], (mreq_c request) as [c|];
      try (eexists; split; reflexivity).
    destruct (solve_quadratic _ _ _ _) as [h|x] eqn:E; cbn [tagged].
    - split; [reflexivity|]. unfold solve_quadratic in E.
      apply except_400_status in E. exact E.
    - reflexivity. }
  change advanced_operations with ["factorial"; "logarithm"; "trigonometry"; "power"].
  destruct (existsb (String.eqb (mreq_operation request))
              ["factorial"; "logarithm"; "trigonometry"; "power"]).
  { destruct (advanced_math_operations _ _ _ _ _ _ _ _ _) as [h|x] eqn:E; cbn [tagged].
    - split; [reflexivity|]. unfold advanced_math_operations in E.
      apply except_400_status in E. exact E.
    - reflexivity. }
  eexists. split; reflexivity.
Qed.

End EndpointFacts.

Import EndpointFacts.

(** X27.  The [/math] endpoint answers HTTP 400 ["Unknown math operation: ..."] to
    an operation outside the six it knows, and HTTP 400 ["Quadratic equation
    requires a, b, c coefficients"] to a quadratic request that lacks one of
    the coefficients, whatever the values hold. *)
Theorem math_operations_dispatch_errors
  (platform_pow : float -> float -> py float)
  (statistics_median statistics_stdev statistics_variance : list float -> py float)
  (builtin_sum : list float -> float)
  (math_log : float -> py float) (math_log_base : float -> float -> py float)
  (math_sin math_cos math_tan : float -> py float)
  (math_pow : float -> float -> py float) (long_max : Z)
  (math_response : math_result -> string -> py MathResponse)
  (request : MathRequest) :
  let respond :=
    math_operations platform_pow statistics_median statistics_stdev statistics_variance
                    builtin_sum math_log math_log_base math_sin math_cos math_tan
                    math_pow long_max math_response in
  (~ In (mreq_operation request) math_endpoint_operations ->
     respond request
     = inl (mkHTTPException 400
              ("Unknown math operation: " ++ mreq_operation request)))
  /\ (mreq_operation request = "quadratic" ->
      mreq_a request = None \/ mreq_b request = None \/ mreq_c request = None ->
      respond request
      = inl (mkHTTPException 400 "Quadratic equation requires a, b, c coefficients")).
Proof.
  intros respond. subst respond. split.
  - intros H. unfold math_operations. cbv zeta.
    destruct (String.eqb_spec (mreq_operation request) "statistics") as [E|_];
      [exfalso; apply H; rewrite E; cbn; tauto|].
    destruct (String.eqb_spec (mreq_operation request) "quadratic") as [E|_];
      [exfalso; apply H; rewrite E; cbn; tauto|].
    cbn [existsb].
    repeat match goal with
           | |- context [String.eqb (mreq_operation request) ?k] =>
               destruct (String.eqb_spec (mreq_operation request) k) as [E|_];
               [exfalso; apply H; rewrite E; cbn; tauto|]
           end.
    reflexivity.
  - intros E H. unfold math_operations. cbv zeta. rewrite E.
    change (String.eqb "quadratic" "statistics") with false.
    change (String.eqb "quadratic" "quadratic") with true. cbv iota.
    destruct (mreq_a request) as [a|], (mreq_b request) as [b|], (mreq_c request) as [c|];
      try reflexivity.
    destruct H as [H|[H|H]]; discriminate H.
Qed.

(** X28.  Every failure of the [/math] endpoint is an HTTP 400, except when the
    computation succeeded and building the response raised: then, and only
    then, the answer is HTTP 500 ["Internal error: ..."].  In full, with the
    computation being the numeric function that the request selects:
    - an error of [calculate_statistics], [solve_quadratic] or
      [advanced_math_operations] is an HTTP 400 and is the answer of the
      endpoint, unchanged;
    - when the computation returns a result and building the response raises
      [e], the answer is HTTP 500 with detail ["Internal error: "] followed by
      the message of [e];
    - when the computation returns a result and the response is built, the
      endpoint returns that response;
    - conversely a failure of the endpoint is an HTTP 400, with no computation
      selected or with the computation failing with that very error, or it is
      an HTTP 500, with the computation returning a result whose response
      raised the error reported in the detail. *)
Theorem math_operations_failure_status
  (platform_pow : float -> float -> py float)
  (statistics_median statistics_stdev statistics_variance : list float -> py float)
  (builtin_sum : list float -> float)
  (math_log : float -> py float) (math_log_base : float -> float -> py float)
  (math_sin math_cos math_tan : float -> py float)
  (math_pow : float -> float -> py float) (long_max : Z)
  (math_response : math_result -> string -> py MathResponse)
  (request : MathRequest) :
  let answer :=
    math_operations platform_pow statistics_median statistics_stdev statistics_variance
                    builtin_sum math_log math_log_base math_sin math_cos math_tan
                    math_pow long_max math_response request in
  let computation :=
    math_computation platform_pow statistics_median statistics_stdev statistics_variance
                     builtin_sum math_log math_log_base math_sin math_cos math_tan
                     math_pow long_max request in
  (forall h : HTTPException,
      computation = Some (inl h) -> answer = inl h /\ status_code h = 400%Z)
  /\ (forall (result : math_result) (e : exception),
        computation = Some (inr result) ->
        math_response result (mreq_operation request) = inl e ->
        answer = inl (mkHTTPException 500 ("Internal error: " ++ exn_str e)))
  /\ (forall (result : math_result) (response : MathResponse),
        computation = Some (inr result) ->
        math_response result (mreq_operation request) = inr response ->
        answer = inr response)
  /\ (forall h : HTTPException,
        answer = inl h ->
        (status_code h = 400%Z
         /\ (computation = None \/ computation = Some (inl h)))
        \/ (status_code h = 500%Z
            /\ exists (result : math_result) (e : exception),
                 computation = Some (inr result)
                 /\ math_response result (mreq_operation request) = inl e
                 /\ detail h = ("Internal error: " ++ exn_str e)%string)).
Proof.
  intros answer computation.
  pose proof (math_operations_cases platform_pow statistics_median statistics_stdev
                statistics_variance builtin_sum math_log math_log_base math_sin math_cos
                math_tan math_pow long_max math_response request) as C.
  fold answer computation in C.
  destruct computation as [[h0|result0]|].
  - destruct C as [C1 C2]. split; [|split; [|split]].
    + intros h E. injection E as <-. auto.
    + intros result e E. discriminate E.
    + intros result response E. discriminate E.
    + intros h E. rewrite C1 in E. injection E as <-. left. auto.
  - split; [|split; [|split]].
    + intros h E. discriminate E.
    + intros result e E R. injection E as <-. rewrite C, R. reflexivity.
    + intros result response E R. injection E as <-. rewrite C, R. reflexivity.
    + intros h E. rewrite C in E.
      destruct (math_response result0 (mreq_operation request)) as [e|response] eqn:R;
        cbn in E; [|discriminate E].
      injection E as <-. right. split; [reflexivity|]. exists result0, e. auto.
  - destruct C as (h0 & C1 & C2). split; [|split; [|split]].
    + intros h E. discriminate E.
    + intros result e E. discriminate E.
    + intros result response E. discriminate E.
    + intros h E. rewrite C1 in E. injection E as <-. left. auto.
Qed.

Lemma math_operations_failure_status_witness :
  let pow := fun x y : float => @ret float (fmul x x) in
  let lib1 := fun _ : float => @ret float (lit 0) in
  let lib2 := fun _ _ : float => @ret float (lit 0) in
  let stat := fun _ : list float => @ret float (lit 0) in
  let response := fun (result : math_result) (operation : string) =>
    @raise MathResponse (ValueError "1 validation error for MathResponse") in
  let answer :=
    math_operations pow stat stat stat (fun _ => lit 0) lib1 lib2 lib1 lib1 lib1 lib2
                    (2 ^ 63 - 1) response in
  answer (mkMathRequest "quadratic" [] (Some (lit 0)) (Some (lit 1)) (Some (lit 1)))
  = inl (mkHTTPException 400 "Error solving quadratic: float division by zero")
  /\ answer (mkMathRequest "quadratic" [] (Some (lit 1)) (Some (lit 0)) (Some (lit 1)))
     = inl (mkHTTPException 500 "Internal error: 1 validation error for MathResponse").
Proof.
  intros pow lib1 lib2 stat response answer. split.
  - apply (math_operations_failure_status pow stat stat stat (fun _ => lit 0) lib1 lib2
             lib1 lib1 lib1 lib2 (2 ^ 63 - 1) response
             (mkMathRequest "quadratic" [] (Some (lit 0)) (Some (lit 1)) (Some (lit 1)))).
    vm_compute. reflexivity.
  - set (r := mkQuadratic (lit (-4)) [RootStr "-0.0 + 1.0i"; RootStr "-0.0 - 1.0i"]
                          "complex").
    apply (proj1 (proj2
             (math_operations_failure_status pow stat stat stat (fun _ => lit 0) lib1 lib2
                lib1 lib1 lib1 lib2 (2 ^ 63 - 1) response
                (mkMathRequest "quadratic" [] (Some (lit 1)) (Some (lit 0)) (Some (lit 1)))))
             (ResQuadratic r) (ValueError "1 validation error for MathResponse")).
    + vm_compute. reflexivity.
    + reflexivity.
Defined.

(** X29.  The [/text] endpoint answers HTTP 400 to an operation outside
    ["analyze"], ["transform"], ["extract"], and to a transform or an extract
    request whose [extraction_type] is absent or empty; the text is not looked
    at. *)
Theorem text_operations_dispatch_errors
  (json_dumps_analysis : text_analysis -> string)
  (json_dumps_list : list string -> string)
  (request : TextRequest) :
  let respond := text_operations json_dumps_analysis json_dumps_list in
  (~ In (treq_operation request) text_endpoint_operations ->
     respond request
     = inl (mkHTTPException 400
              ("Unknown text operation: " ++ treq_operation request)))
  /\ (treq_operation request = "transform" ->
      treq_extraction_type request = None \/ treq_extraction_type request = Some "" ->
      respond request
      = inl (mkHTTPException 400 "Transform operation requires transformation type"))
  /\ (treq_operation request = "extract" ->
      treq_extraction_type request = None \/ treq_extraction_type request = Some "" ->
      respond request
      = inl (mkHTTPException 400 "Extract operation requires extraction type")).
Proof.
  intros respond. subst respond. split; [|split].
  - intros H. unfold text_operations. cbv zeta.
    repeat match goal with
           | |- context [String.eqb (treq_operation request) ?k] =>
               destruct (String.eqb_spec (treq_operation request) k) as [E|_];
               [exfalso; apply H; rewrite E; cbn; tauto|]
           end.
    reflexivity.
  - intros E H. unfold text_operations. cbv zeta. rewrite E.
    change (String.eqb "transform" "analyze") with false.
    change (String.eqb "transform" "transform") with true. cbv iota.
    destruct H as [-> | ->]; reflexivity.
  - intros E H. unfold text_operations. cbv zeta. rewrite E.
    change (String.eqb "extract" "analyze") with false.
    change (String.eqb "extract" "transform") with false.
    change (String.eqb "extract" "extract") with true. cbv iota.
    destruct H as [-> | ->]; reflexivity.
Qed.

(** X30.  The [/text] endpoint never answers HTTP 500: each of its failures is an
    HTTP 400.  A response it returns echoes the operation, with [success]
    true and no message. *)
Theorem text_operations_never_500
  (json_dumps_analysis : text_analysis -> string)
  (json_dumps_list : list string -> string)
  (request : TextRequest) :
  match text_operations json_dumps_analysis json_dumps_list request with
  | inl h => status_code h = 400%Z
  | inr response =>
      tres_operation response = treq_operation request
      /\ tres_success response = true
      /\ tres_message response = None
  end.
Proof.
  unfold text_operations. cbv zeta.
  destruct (String.eqb (treq_operation request) "analyze").
  { destruct (analyze_text (treq_text request)) as [h|x] eqn:E; cbn; [|auto].
    unfold analyze_text in E. apply except_400_status in E. exact E. }
  destruct (String.eqb (treq_operation request) "transform").
  { destruct (missing (treq_extraction_type request)); [reflexivity|].
    destruct (transform_text _ _) as [h|x] eqn:E; cbn; [|auto].
    unfold transform_text in E. apply except_400_status in E. exact E. }
  destruct (String.eqb (treq_operation request) "extract").
  { destruct (missing (treq_extraction_type request)); [reflexivity|].
    destruct (extract_information _ _) as [h|x] eqn:E; cbn; [|auto].
    unfold extract_information in E. apply except_400_status in E. exact E. }
  reflexivity.
Qed.
